(** * BRAKES estimator front end: the service client, the upload page and the
    results page, embedded from the TypeScript sources.

    - [Client]  : the API client (error normalisation, the remote operations)
    - [Upload]  : [src/pages/Upload.tsx] (validation, the upload handlers, what
      is rendered, the page with its uploads in flight)
    - [Results] : [src/pages/Results.tsx] (row toggling, sorting, confidence
      badge, export)

    Byte counts, HTTP statuses and percentages are integers ([Z]); the
    percentage of an upload is computed from the byte counts in binary64
    ([spec_float]), as the client computes it.  The
    numeric fields of an estimate arrive as finite JSON numbers and are only
    ever subtracted to compare them; the sign of a difference of two finite
    doubles is the sign of their exact difference, so they are rationals
    ([Q]).  The confidence handed to [getConfidenceBadge] is multiplied by 100
    before it is compared, and there the rounding of the product matters: it is
    a binary64 number ([float]), as a JavaScript number is. *)

From Stdlib Require Import ZArith QArith Qabs Floats String Ascii List.
From Stdlib Require Import Sorted Permutation Lia Lqa Bool OrderedTypeEx.
From stdpp Require Import base gmap strings list pretty.


(** ** JavaScript helpers *)
Module Js.

(** Truthiness of a string: every string but the empty one. *)
Definition truthy (s : string) : bool :=
  match s with
  | EmptyString => false
  | String _ _ => true
  end.

(** [`${n}`] for an integer [n]. *)
Definition show (n : Z) : string := pretty n.

(** The integer nearest to the rational [n / d], a half upwards:
    [floor (n/d + 1/2)].  It is what [toFixed] and [Math.round] give where the
    quotient itself is computed without rounding (see [sizeMB_toFixed2]); the
    percentage of an upload is not: see [percentCompleted]. *)
Definition round_half_up (n d : Z) : Z := ((2 * n + d) / (2 * d))%Z.

(** A JavaScript number that holds the integer [z]: the binary64 value nearest
    to it, which is [z] itself up to 2^53. *)
Definition Number (z : Z) : spec_float := binary_normalize prec emax z 0 false.

(** [Math.round x] for a finite [x]: [floor (x + 1/2)].  (An infinite or
    undefined [x] is left as it is by [Math.round]; here it gives 0.  The
    quotient of two integer counts, the divisor not zero, is finite.) *)
Definition Math_round (x : spec_float) : Z :=
  match x with
  | S754_finite s m e =>
      let v := if s then Z.neg m else Z.pos m in
      if (0 <=? e)%Z then (v * 2 ^ e)%Z
      else ((2 * v + 2 ^ (- e)) / 2 ^ (1 - e))%Z
  | _ => 0%Z
  end.

(** What an asynchronous call settles to: it returns or it throws. *)
Inductive Result (E A : Type) : Type :=
| Returns (a : A)
| Throws (e : E).
Arguments Returns {E A} a.
Arguments Throws {E A} e.

(** Opaque JSON, for the fields typed [any] or [Record<string, any>]; an array
    or an object is kept as its text. *)
Inductive Json : Type :=
| JNull
| JBool (b : bool)
| JNum (q : Q)
| JStr (s : string)
| JCompound (text : string).

Definition Blob : Type := list Byte.byte.

End Js.

(** ** The browser's [File] *)
Module File.
Record t : Type := mk { name : string; size : Z; type : string }.
End File.

(** ** [src/api/client.ts] *)
Module Client.
Import Js.
Local Open Scope Z_scope.

Definition API_BASE : string := "http://localhost:8000".
Definition API_TIMEOUT : Z := 60000.

(** *** Interfaces *)
Module Intervention.
Record t : Type := mk {
  type : string; quantity : Q; unit : string; location : string;
  confidence : Q; extraction_method : string }.
End Intervention.

Module Material.
Record t : Type := mk {
  name : string; quantity : Q; unit : string; unit_price : Q;
  total_cost : Q; irc_clause : string; price_source : string;
  fetched_date : string }.
End Material.

Module EstimateItem.
Record t : Type := mk {
  intervention : Intervention.t; materials : list Material.t;
  total_cost : Q; audit_trail : Json; assumptions : list string }.
End EstimateItem.

(** [items] is a JavaScript array, held by reference: the address of the array
    in the store of arrays (see [Results.Store]). *)
Module Estimate.
Record t : Type := mk {
  estimate_id : string; filename : string; created_at : string;
  status : string; items : positive; total_cost : Q; confidence : Q;
  metadata : Json }.
End Estimate.

Module Verification.
Record t : Type := mk {
  status : string; passed_count : Z; warning_count : Z; error_count : Z }.
End Verification.

Module ResponseItem.
Record t : Type := mk {
  intervention_type : string; quantity : Q; unit : string;
  location : string; confidence : Q; total_cost : Q;
  materials_count : Z; warnings : list string }.
End ResponseItem.

Module EstimateResponse.
Record t : Type := mk {
  success : bool; estimate_id : string; filename : string;
  status : string; extraction_method : string;
  extraction_confidence : Q; interventions_found : Z; total_cost : Q;
  overall_confidence : Q; processing_time_ms : Z;
  verification : Verification.t; metadata : Json;
  items : list ResponseItem.t }.
End EstimateResponse.

Module EstimatesListResponse.
Record t : Type := mk {
  success : bool; estimates : list Estimate.t; total : Z; limit : Z;
  offset : Z; has_more : bool }.
End EstimatesListResponse.

Module DeleteResponse.
Record t : Type := mk {
  success : bool; deleted : bool; estimate_id : string; message : string }.
End DeleteResponse.

Module ApiError.
Record t : Type := mk {
  error : bool; status_code : Z; message : string;
  details : option Json; path : option string }.
End ApiError.

(** The body of [GET /api/estimate/{id}]. *)
Module GetEstimateBody.
Record t : Type := mk { success : bool; estimate : Estimate.t }.
End GetEstimateBody.

(** *** What the transport (axios) throws *)
Module AxiosError.
(** [error.response.data] as the handler finds it: the envelope, when the body
    was parsed as JSON; or a body that was not parsed and so has no [message]
    to read, which is what a request with [responseType: 'blob'] gets (a
    [Blob]), and what a body that is not JSON is (a string).  [data] is [None]
    when the response carried no body ([null], [undefined]). *)
Inductive body_t : Type :=
| Envelope (e : ApiError.t)
| Unparsed.
Record response_t : Type := mkr { status : Z; data : option body_t }.
(** [request] is the truthiness of [error.request]. *)
Record t : Type := mk {
  response : option response_t; request : bool; message : string }.
End AxiosError.

(** A thrown value: an axios error ([axios.isAxiosError] holds), a plain
    [Error] carrying a message, or anything else. *)
Inductive Thrown : Type :=
| ThrownAxios (e : AxiosError.t)
| ThrownError (message : string)
| ThrownOther (v : Json).

Definition Promise (A : Type) : Type := Result Thrown A.

(** *** Requests handed to the transport *)
Inductive Method : Type := GET | POST | DELETE.

Inductive Param : Type :=
| PNum (n : Z)
| PStr (s : string).

Record Request : Type := mkRequest {
  method : Method;
  url : string;
  params : gmap string Param;
  form_file : option File.t;
  content_type : option string;
  responseType : option string }.

Definition apiClient_get (url : string) (params : gmap string Param)
    (responseType : option string) : Request :=
  mkRequest GET url params None None responseType.

Definition apiClient_delete (url : string) : Request :=
  mkRequest DELETE url ∅ None None None.

Definition apiClient_post_form (url : string) (file : File.t) : Request :=
  mkRequest POST url ∅ (Some file) (Some "multipart/form-data") None.

(** An operation run against the transport: the requests it handed over, and
    what it settles to.  [reply] is what the awaited transport call settles to;
    an operation that throws before it awaits never looks at it. *)
Definition Run (A : Type) : Type := (list Request * Promise A)%type.

(** *** Error handler *)

(** The message of the [Error] that [handleApiError] throws. *)
Definition handleApiError_message (error : Thrown) : string :=
  match error with
  | ThrownAxios axiosError =>
      match AxiosError.response axiosError with
      | Some response =>
          let apiError := AxiosError.data response in
          match apiError with
          | Some (AxiosError.Envelope e) =>
              if truthy (ApiError.message e) then ApiError.message e
              else "API Error: " +:+ show (AxiosError.status response)
          | Some AxiosError.Unparsed | None =>
              "API Error: " +:+ show (AxiosError.status response)
          end
      | None =>
          if AxiosError.request axiosError
          then "Network error: Unable to reach the server. Please check your connection."
          else "Request error: " +:+ AxiosError.message axiosError
      end
  | _ => "An unexpected error occurred"
  end.

(** [handleApiError : never]: it always throws a fresh [Error]. *)
Definition handleApiError {A : Type} (error : Thrown) : Promise A :=
  Throws (ThrownError (handleApiError_message error)).

(** [try { body } catch (error) { handleApiError(error) }] *)
Definition try_catch {A : Type} (body : Promise A) : Promise A :=
  match body with
  | Returns a => Returns a
  | Throws error => handleApiError error
  end.

(** What the transport hands to the [catch] when the call for [req] failed
    with [error], [error] carrying the body as the server sent it.  For a
    request with [responseType: 'blob'] the body of an error response is
    handed over as a [Blob], like the body of a success: it is not parsed. *)
Definition received (req : Request) (error : Thrown) : Thrown :=
  match error with
  | ThrownAxios e =>
      if bool_decide (responseType req = Some "blob") then
        ThrownAxios
          (AxiosError.mk
             ((fun r => AxiosError.mkr (AxiosError.status r) (Some AxiosError.Unparsed))
                <$> AxiosError.response e)
             (AxiosError.request e) (AxiosError.message e))
      else error
  | _ => error
  end.

(** [try { const response = await call; return f(response.data) } catch ...] *)
Definition awaiting {A B : Type} (req : Request) (reply : Promise A)
    (f : A -> B) : Run B :=
  ([req], try_catch match reply with
                    | Returns data => Returns (f data)
                    | Throws e => Throws (received req e)
                    end).

(** *** Operations *)

Definition MAX_SIZE : Z := 25 * 1024 * 1024.

(** The part of [uploadPDF] that runs before its [await]: the two checks, then
    the request handed to the transport. *)
Definition uploadPDF_begin (file : File.t) : Result Thrown Request :=
  if negb (String.eqb (File.type file) "application/pdf") then
    Throws (ThrownError "Invalid file type. Please upload a PDF file.")
  else if MAX_SIZE <? File.size file then
    Throws (ThrownError "File size exceeds 25 MB limit.")
  else
    Returns (apiClient_post_form "/api/upload" file).

Definition uploadPDF (file : File.t) (reply : Promise EstimateResponse.t) :
    Run EstimateResponse.t :=
  match uploadPDF_begin file with
  | Throws error => ([], try_catch (Throws error))
  | Returns req => awaiting req reply (fun data => data)
  end.

(** The [onUploadProgress] callback that [uploadPDF] hands to the transport:
    the percentage it passes to [onProgress], if it calls it at all.  The byte
    counts of an event are integers, held in JavaScript numbers. *)
Module AxiosProgressEvent.
Record t : Type := mk { loaded : Z; total : option Z }.
End AxiosProgressEvent.

(** [Math.round((loaded * 100) / total)], as JavaScript computes it: the
    product and the quotient are binary64 operations, each rounded to the
    nearest double. *)
Definition percentCompleted (loaded total : Z) : Z :=
  Math_round (SFdiv prec emax (SFmul prec emax (Number loaded) (Number 100))
                    (Number total)).

Definition onUploadProgress (progressEvent : AxiosProgressEvent.t)
    (onProgress : bool) : option Z :=
  match AxiosProgressEvent.total progressEvent with
  | Some total =>
      if negb (total =? 0) && onProgress then
        Some (percentCompleted (AxiosProgressEvent.loaded progressEvent) total)
      else None
  | None => None
  end.

Definition getEstimate (id : string) (reply : Promise GetEstimateBody.t) :
    Run Estimate.t :=
  awaiting (apiClient_get ("/api/estimate/" +:+ id) ∅ None) reply
           GetEstimateBody.estimate.

Definition listEstimates (limit offset : option Z)
    (statusFilter : option string) (reply : Promise EstimatesListResponse.t) :
    Run EstimatesListResponse.t :=
  let limit := default 20 limit in
  let offset := default 0 offset in
  let params : gmap string Param :=
    <["offset" := PNum offset]> (<["limit" := PNum limit]> ∅) in
  let params :=
    match statusFilter with
    | Some s => if truthy s then <["status_filter" := PStr s]> params else params
    | None => params
    end in
  awaiting (apiClient_get "/api/estimates" params None) reply (fun data => data).

Definition deleteEstimate (id : string) (reply : Promise DeleteResponse.t) :
    Run DeleteResponse.t :=
  awaiting (apiClient_delete ("/api/estimate/" +:+ id)) reply (fun data => data).

Inductive ExportFormat : Type := csv | json | pdf.

Definition format_string (format : ExportFormat) : string :=
  match format with
  | csv => "csv"
  | json => "json"
  | pdf => "pdf"
  end.

Definition exportEstimate (id : string) (format : ExportFormat)
    (reply : Promise Blob) : Run Blob :=
  awaiting (apiClient_get ("/api/estimate/" +:+ id +:+ "/export")
                          {["format" := PStr (format_string format)]}
                          (Some "blob"))
           reply (fun data => data).

Definition getEstimateSummary (id : string) (reply : Promise Json) : Run Json :=
  awaiting (apiClient_get ("/api/estimate/" +:+ id +:+ "/summary") ∅ None)
           reply (fun data => data).

Definition searchMaterialPrices (query : string) (limit : option Z)
    (reply : Promise Json) : Run Json :=
  let limit := default 10 limit in
  awaiting (apiClient_get "/api/pricing/search"
                          (<["limit" := PNum limit]> {["q" := PStr query]}) None)
           reply (fun data => data).

Definition getMaterialPrice (materialName : string) (reply : Promise Json) :
    Run Json :=
  awaiting (apiClient_get ("/api/pricing/" +:+ materialName) ∅ None)
           reply (fun data => data).

Definition getMaterialCategories (reply : Promise Json) : Run Json :=
  awaiting (apiClient_get "/api/pricing/categories" ∅ None) reply (fun data => data).

Definition getPricingStatistics (reply : Promise Json) : Run Json :=
  awaiting (apiClient_get "/api/pricing/statistics" ∅ None) reply (fun data => data).

Definition checkHealthStatus (reply : Promise Json) : Run Json :=
  awaiting (apiClient_get "/health" ∅ None) reply (fun data => data).

(** Every exported operation, with the type of the body it awaits and of the
    value it resolves to. *)
Inductive Operation : Type :=
| OpUploadPDF (file : File.t)
| OpGetEstimate (id : string)
| OpListEstimates (limit offset : option Z) (statusFilter : option string)
| OpDeleteEstimate (id : string)
| OpExportEstimate (id : string) (format : ExportFormat)
| OpGetEstimateSummary (id : string)
| OpSearchMaterialPrices (query : string) (limit : option Z)
| OpGetMaterialPrice (materialName : string)
| OpGetMaterialCategories
| OpGetPricingStatistics
| OpCheckHealthStatus.

Definition body_of (op : Operation) : Type :=
  match op with
  | OpUploadPDF _ => EstimateResponse.t
  | OpGetEstimate _ => GetEstimateBody.t
  | OpListEstimates _ _ _ => EstimatesListResponse.t
  | OpDeleteEstimate _ => DeleteResponse.t
  | OpExportEstimate _ _ => Blob
  | _ => Json
  end.

Definition value_of (op : Operation) : Type :=
  match op with
  | OpUploadPDF _ => EstimateResponse.t
  | OpGetEstimate _ => Estimate.t
  | OpListEstimates _ _ _ => EstimatesListResponse.t
  | OpDeleteEstimate _ => DeleteResponse.t
  | OpExportEstimate _ _ => Blob
  | _ => Json
  end.

Definition perform (op : Operation) : Promise (body_of op) -> Run (value_of op) :=
  match op with
  | OpUploadPDF file => uploadPDF file
  | OpGetEstimate id => getEstimate id
  | OpListEstimates limit offset statusFilter => listEstimates limit offset statusFilter
  | OpDeleteEstimate id => deleteEstimate id
  | OpExportEstimate id format => exportEstimate id format
  | OpGetEstimateSummary id => getEstimateSummary id
  | OpSearchMaterialPrices query limit => searchMaterialPrices query limit
  | OpGetMaterialPrice materialName => getMaterialPrice materialName
  | OpGetMaterialCategories => getMaterialCategories
  | OpGetPricingStatistics => getPricingStatistics
  | OpCheckHealthStatus => checkHealthStatus
  end.

End Client.

(** ** [src/pages/Upload.tsx] *)
Module Upload.
Import Js.
Local Open Scope Z_scope.

Definition MAX_FILE_SIZE : Z := 25 * 1024 * 1024.
Definition ACCEPTED_TYPE : string := "application/pdf".

(** *** Component state: one field per [useState] *)
Record State : Type := mkState {
  file : option File.t;
  uploading : bool;
  progress : Z;
  result : option Client.EstimateResponse.t;
  error : option string;
  dragActive : bool }.

Definition initial : State := mkState None false 0 None None false.

Definition setFile (v : option File.t) (s : State) : State :=
  mkState v (uploading s) (progress s) (result s) (error s) (dragActive s).
Definition setUploading (v : bool) (s : State) : State :=
  mkState (file s) v (progress s) (result s) (error s) (dragActive s).
Definition setProgress (v : Z) (s : State) : State :=
  mkState (file s) (uploading s) v (result s) (error s) (dragActive s).
Definition setResult (v : option Client.EstimateResponse.t) (s : State) : State :=
  mkState (file s) (uploading s) (progress s) v (error s) (dragActive s).
Definition setError (v : option string) (s : State) : State :=
  mkState (file s) (uploading s) (progress s) (result s) v (dragActive s).
Definition setDragActive (v : bool) (s : State) : State :=
  mkState (file s) (uploading s) (progress s) (result s) (error s) v.

(** *** What a handler does besides setting state *)
Inductive ToastKind : Type := toast_error | toast_success | toast_loading.

Inductive Effect : Type :=
| Toast (kind : ToastKind) (message : string)
| Transfer (req : Client.Request)
| Navigate (path : string).

(** [x.toFixed(2)] for [x = size / (1024 * 1024)] and a byte count [size >= 0]:
    the quotient by a power of two is exact, and [toFixed] rounds it to the
    nearest hundredth, a half upwards. *)
Definition two_digits (n : Z) : string :=
  if n <? 10 then "0" +:+ show n else show n.

Definition sizeMB_toFixed2 (size : Z) : string :=
  let hundredths := round_half_up (size * 100) (1024 * 1024) in
  show (hundredths / 100) +:+ "." +:+ two_digits (hundredths mod 100).

(** *** Validate selected file *)
Definition validateFile (selectedFile : File.t) : option string :=
  if negb (String.eqb (File.type selectedFile) ACCEPTED_TYPE) then
    Some "Invalid file type. Please select a PDF file."
  else if MAX_FILE_SIZE <? File.size selectedFile then
    let sizeMB := sizeMB_toFixed2 (File.size selectedFile) in
    Some ("File size (" +:+ sizeMB +:+ " MB) exceeds the 25 MB limit.")
  else None.

(** The common tail of [handleFileSelect] and [handleDrop]. *)
Definition choose (chosen : option File.t) (s : State) : State * list Effect :=
  match chosen with
  | None => (s, [])
  | Some selectedFile =>
      match validateFile selectedFile with
      | Some validationError =>
          (setError (Some validationError) s, [Toast toast_error validationError])
      | None =>
          (setResult None (setError None (setFile (Some selectedFile) s)),
           [Toast toast_success ("File selected: " +:+ File.name selectedFile)])
      end
  end.

(** [files] is [event.target.files?.[0]]. *)
Definition handleFileSelect (files : option File.t) (s : State) :
    State * list Effect :=
  choose files s.

Inductive DragType : Type := dragenter | dragover | dragleave.

Definition handleDrag (type : DragType) (s : State) : State * list Effect :=
  match type with
  | dragenter | dragover => (setDragActive true s, [])
  | dragleave => (setDragActive false s, [])
  end.

(** [files] is [event.dataTransfer.files?.[0]]. *)
Definition handleDrop (files : option File.t) (s : State) :
    State * list Effect :=
  choose files (setDragActive false s).

(** *** [handleUpload], in the three parts its [await] cuts it into *)

(** Up to the [await]: the state is cleared and [uploadPDF] runs its checks and
    hands the request to the transport.  The second component is the file the
    started upload is for, if one was started. *)
Definition handleUpload_start (s : State) :
    State * list Effect * option File.t :=
  match file s with
  | None => (s, [Toast toast_error "Please select a file first"], None)
  | Some f =>
      (setResult None (setError None (setProgress 0 (setUploading true s))),
       Toast toast_loading "Uploading PDF..." ::
         match Client.uploadPDF_begin f with
         | Returns req => [Transfer req]
         | Throws _ => []
         end,
       Some f)
  end.

(** The progress callback handed to [uploadPDF]. *)
Definition handleUpload_onProgress (progressPercent : Z) (s : State) :
    State * list Effect :=
  (setProgress progressPercent s,
   if progressPercent =? 100 then [Toast toast_loading "Processing document..."]
   else []).

(** A progress event of the transport, through [uploadPDF]'s
    [onUploadProgress] into the callback above. *)
Definition progress_event (ev : Client.AxiosProgressEvent.t) (s : State) :
    State * list Effect :=
  match Client.onUploadProgress ev true with
  | Some percentCompleted => handleUpload_onProgress percentCompleted s
  | None => (s, [])
  end.

(** [err instanceof Error ? err.message : 'Upload failed'] *)
Definition errorMessage (err : Client.Thrown) : string :=
  match err with
  | Client.ThrownAxios e => Client.AxiosError.message e
  | Client.ThrownError message => message
  | Client.ThrownOther _ => "Upload failed"
  end.

(** After the [await]: [settled] is what [uploadPDF] settled to. *)
Definition handleUpload_settled (settled : Client.Promise Client.EstimateResponse.t)
    (s : State) : State * list Effect :=
  match settled with
  | Returns response =>
      (setUploading false (setProgress 100 (setResult (Some response) s)),
       [Toast toast_success
          ("Successfully processed " +:+
           show (Client.EstimateResponse.interventions_found response) +:+
           " interventions!")])
  | Throws err =>
      (setUploading false (setError (Some (errorMessage err)) s),
       [Toast toast_error (errorMessage err)])
  end.

(** *** Reset form *)
Definition handleReset (s : State) : State * list Effect :=
  (setError None (setResult None (setProgress 0 (setUploading false (setFile None s)))),
   []).

(** *** View detailed results *)
Definition handleViewDetails (s : State) : State * list Effect :=
  match result s with
  | Some r =>
      if truthy (Client.EstimateResponse.estimate_id r)
      then (s, [Navigate ("/estimate/" +:+ Client.EstimateResponse.estimate_id r)])
      else (s, [])
  | None => (s, [])
  end.

(** *** What is rendered: the parts of the JSX that depend on the state *)
Inductive DropZone : Type :=
| ZoneEmpty (inputDisabled : bool)
| ZoneFile (name : string) (sizeMB : string) (buttons : bool).

Record ProgressBar : Type := mkBar { label : string; percent : Z; processingNote : bool }.

Inductive View : Type :=
| UploadSection (highlight : bool) (zone : DropZone) (bar : option ProgressBar)
    (errorBox : option string)
| ResultsSection (result : Client.EstimateResponse.t).

Definition render (s : State) : View :=
  match result s with
  | Some r => ResultsSection r
  | None =>
      UploadSection (dragActive s)
        match file s with
        | None => ZoneEmpty (uploading s)
        | Some f => ZoneFile (File.name f) (sizeMB_toFixed2 (File.size f))
                             (negb (uploading s))
        end
        (if uploading s
         then Some (mkBar (if progress s <? 100 then "Uploading..." else "Processing...")
                          (progress s) (progress s =? 100))
         else None)
        match error s with
        | Some e => if truthy e then Some e else None
        | None => None
        end
  end.

(** *** The controls the rendered page offers *)
Inductive Action : Type :=
| SelectFile (files : option File.t)
| DropFile (files : option File.t)
| Drag (type : DragType)
| ClickUpload
| ClickReset
| ClickViewDetails.

Definition offered (v : View) (a : Action) : bool :=
  match v, a with
  | UploadSection _ (ZoneEmpty inputDisabled) _ _, SelectFile _ => negb inputDisabled
  | UploadSection _ _ _ _, DropFile _ => true
  | UploadSection _ _ _ _, Drag _ => true
  | UploadSection _ (ZoneFile _ _ buttons) _ _, ClickUpload => buttons
  | UploadSection _ (ZoneFile _ _ buttons) _ errorBox, ClickReset =>
      buttons || bool_decide (is_Some errorBox)
  | UploadSection _ (ZoneEmpty _) _ errorBox, ClickReset =>
      bool_decide (is_Some errorBox)
  | ResultsSection _, ClickReset => true
  | ResultsSection _, ClickViewDetails => true
  | _, _ => false
  end.

(** *** The page with its uploads in flight *)

(** An upload that [handleUpload] started: the file it is for, whether the
    transport still works on it, and whether the form was reset since it was
    started. *)
Record Task : Type := mkTask { task_file : File.t; in_flight : bool; abandoned : bool }.

Record World : Type := mkWorld {
  state : State;
  tasks : list Task;
  effects : list Effect }.

Definition world0 : World := mkWorld initial [] [].

Inductive Event : Type :=
| User (a : Action)
| Progress (task : nat) (ev : Client.AxiosProgressEvent.t)
| Settled (task : nat) (reply : Client.Promise Client.EstimateResponse.t).

Definition act (a : Action) (w : World) : World :=
  match a with
  | SelectFile files =>
      let '(s, fx) := handleFileSelect files (state w) in
      mkWorld s (tasks w) (effects w ++ fx)
  | DropFile files =>
      let '(s, fx) := handleDrop files (state w) in
      mkWorld s (tasks w) (effects w ++ fx)
  | Drag type =>
      let '(s, fx) := handleDrag type (state w) in
      mkWorld s (tasks w) (effects w ++ fx)
  | ClickUpload =>
      let '(s, fx, started) := handleUpload_start (state w) in
      mkWorld s
        (tasks w ++ match started with
                    | Some f => [mkTask f true false]
                    | None => []
                    end)
        (effects w ++ fx)
  | ClickReset =>
      let '(s, fx) := handleReset (state w) in
      mkWorld s
        (map (fun t => mkTask (task_file t) (in_flight t) true) (tasks w))
        (effects w ++ fx)
  | ClickViewDetails =>
      let '(s, fx) := handleViewDetails (state w) in
      mkWorld s (tasks w) (effects w ++ fx)
  end.

(** One event.  A control must be offered by the rendered page; a progress
    event or a settlement must be for an upload still in flight, and a progress
    event needs a request on the wire. *)
Definition step (w : World) (e : Event) : option World :=
  match e with
  | User a => if offered (render (state w)) a then Some (act a w) else None
  | Progress i ev =>
      match tasks w !! i with
      | Some t =>
          match in_flight t, Client.uploadPDF_begin (task_file t) with
          | true, Returns _ =>
              let '(s, fx) := progress_event ev (state w) in
              Some (mkWorld s (tasks w) (effects w ++ fx))
          | _, _ => None
          end
      | None => None
      end
  | Settled i reply =>
      match tasks w !! i with
      | Some t =>
          if in_flight t then
            let '(s, fx) :=
              handleUpload_settled (snd (Client.uploadPDF (task_file t) reply)) (state w) in
            Some (mkWorld s (<[i := mkTask (task_file t) false (abandoned t)]> (tasks w))
                          (effects w ++ fx))
          else None
      | None => None
      end
  end.

Fixpoint run (w : World) (trace : list Event) : option World :=
  match trace with
  | [] => Some w
  | e :: trace => match step w e with
                  | Some w' => run w' trace
                  | None => None
                  end
  end.

(** The percentages the page holds after each event of [trace], from the world
    [w] on. *)
Fixpoint displayed (w : World) (trace : list Event) : list Z :=
  match trace with
  | [] => []
  | e :: trace' =>
      match step w e with
      | Some w' => progress (state w') :: displayed w' trace'
      | None => []
      end
  end.

(** The events of one upload, against the total [t]: each reports a byte
    count between 0 and [t], and the counts do not decrease. *)
Definition of_total (t : Z) (ev : Client.AxiosProgressEvent.t) : Prop :=
  Client.AxiosProgressEvent.total ev = Some t /\
  0 <= Client.AxiosProgressEvent.loaded ev <= t.

(** No file is dropped on the page while it shows an upload in progress. *)
Definition is_drop (e : Event) : bool :=
  match e with
  | User (DropFile _) => true
  | _ => false
  end.

Fixpoint undisturbed (w : World) (trace : list Event) : bool :=
  match trace with
  | [] => true
  | e :: trace' =>
      negb (is_drop e && uploading (state w)) &&
      match step w e with
      | Some w' => undisturbed w' trace'
      | None => true
      end
  end.

End Upload.

(** ** The upload lifecycle of the specification (section 4.2)

    The page keeps no lifecycle field: it keeps [file], [uploading],
    [progress], [result] and [error].  The lifecycle the specification talks
    about is followed here along the page's events, one transition per sentence
    of section 4.2, so that it can be compared with what the page holds. *)
Module Lifecycle.
Local Open Scope Z_scope.

Inductive t : Type :=
| Idle | Selected | Transferring | ServerProcessing | Succeeded | Failed.

Definition terminal (l : t) : bool :=
  match l with
  | Succeeded | Failed => true
  | _ => false
  end.

(** "media type must equal the accepted document type; byte size must not
    exceed a fixed ceiling (25 MiB)" *)
Definition acceptable (f : File.t) : bool :=
  String.eqb (File.type f) "application/pdf" && (File.size f <=? 26214400).

(** A file is chosen or dropped: a violation keeps the state unchanged, an
    accepted file makes the task [Selected]. *)
Definition chosen (files : option File.t) (l : t) : t :=
  match files with
  | Some f => if acceptable f then Selected else l
  | None => l
  end.

Definition next (l : t) (e : Upload.Event) : t :=
  match e with
  | Upload.User (Upload.SelectFile files) => chosen files l
  | Upload.User (Upload.DropFile files) => chosen files l
  | Upload.User Upload.ClickUpload =>
      (* explicit start action, from a state that holds a file *)
      match l with
      | Idle => Idle
      | _ => Transferring
      end
  | Upload.User Upload.ClickReset => Idle
  | Upload.User _ => l
  | Upload.Progress _ ev =>
      (* progress reaching 100 moves Transferring to ServerProcessing *)
      match l, Client.onUploadProgress ev true with
      | Transferring, Some p => if 100 <=? p then ServerProcessing else Transferring
      | _, _ => l
      end
  | Upload.Settled _ reply =>
      (* the response arrives, from Transferring or ServerProcessing *)
      match l with
      | Transferring | ServerProcessing =>
          match reply with
          | Js.Returns _ => Succeeded
          | Js.Throws _ => Failed
          end
      | _ => l
      end
  end.

Definition follow (l : t) (trace : list Upload.Event) : t :=
  fold_left next trace l.

End Lifecycle.

(** ** [src/pages/Results.tsx] *)
Module Results.
Import Js.
Import Client.

Inductive SortField : Type := by_type | by_quantity | by_cost | by_confidence.
Inductive SortDirection : Type := asc | desc.

(** *** The store of JavaScript arrays of items, by address *)
Abbreviation Store := (gmap positive (list EstimateItem.t)).

(** [new Array]: a fresh address holding [l]. *)
Definition alloc (l : list EstimateItem.t) (σ : Store) : positive * Store :=
  let a := fresh (dom σ) in (a, <[a := l]> σ).

(** The elements of the array at [a]. *)
Definition elements_at (σ : Store) (a : positive) : list EstimateItem.t :=
  default [] (σ !! a).

(** *** Component state *)
Record State : Type := mkState {
  estimate : option Estimate.t;
  loading : bool;
  error : option string;
  expandedRows : gset Z;
  sortField : SortField;
  sortDirection : SortDirection;
  exporting : option string }.

Definition initial : State := mkState None true None ∅ by_type asc None.

Definition setEstimate (v : option Estimate.t) (s : State) : State :=
  mkState v (loading s) (error s) (expandedRows s) (sortField s) (sortDirection s) (exporting s).
Definition setError (v : option string) (s : State) : State :=
  mkState (estimate s) (loading s) v (expandedRows s) (sortField s) (sortDirection s) (exporting s).
Definition setExpandedRows (f : gset Z -> gset Z) (s : State) : State :=
  mkState (estimate s) (loading s) (error s) (f (expandedRows s)) (sortField s) (sortDirection s) (exporting s).
Definition setSortField (v : SortField) (s : State) : State :=
  mkState (estimate s) (loading s) (error s) (expandedRows s) v (sortDirection s) (exporting s).
Definition setSortDirection (f : SortDirection -> SortDirection) (s : State) : State :=
  mkState (estimate s) (loading s) (error s) (expandedRows s) (sortField s) (f (sortDirection s)) (exporting s).
Definition setExporting (v : option string) (s : State) : State :=
  mkState (estimate s) (loading s) (error s) (expandedRows s) (sortField s) (sortDirection s) v.

Inductive ToastKind : Type := toast_error | toast_success | toast_loading.

Inductive Effect : Type :=
| Toast (kind : ToastKind) (message : string)
| Transfer (req : Request)
| Download (blob : Blob) (filename : string).

(** *** Toggle row expansion *)
Definition toggleRow (index : Z) (s : State) : State * list Effect :=
  (setExpandedRows
     (fun prev =>
        let newSet := prev in
        if decide (index ∈ newSet) then newSet ∖ {[index]} else newSet ∪ {[index]})
     s,
   []).

(** *** Handle sorting *)
Definition SortField_eqb (a b : SortField) : bool :=
  match a, b with
  | by_type, by_type | by_quantity, by_quantity
  | by_cost, by_cost | by_confidence, by_confidence => true
  | _, _ => false
  end.

Definition handleSort (field : SortField) (s : State) : State * list Effect :=
  if SortField_eqb (sortField s) field then
    (setSortDirection (fun prev => match prev with asc => desc | desc => asc end) s, [])
  else
    (setSortDirection (fun _ => asc) (setSortField field s), []).

(** *** [Array.prototype.sort]

    The built-in sorts in place and is stable (ECMAScript 2019): it is
    modelled by insertion from the right, which moves an element only past the
    elements that [comparefn] puts strictly before it.  The comparator returns
    a number, of which only the sign is used. *)
Section Array_sort.
Context {A : Type} (comparefn : A -> A -> Q).

Fixpoint insert (x : A) (l : list A) : list A :=
  match l with
  | [] => [x]
  | y :: l' =>
      match (comparefn x y ?= 0)%Q with
      | Gt => y :: insert x l'
      | _ => x :: l
      end
  end.

Fixpoint Array_sort (l : list A) : list A :=
  match l with
  | [] => []
  | x :: l' => insert x (Array_sort l')
  end.

End Array_sort.

(** *** Sort items *)
Section Sorting.
(** [String.prototype.localeCompare]: the host's collation, negative, zero or
    positive. *)
Variable localeCompare : string -> string -> Z.

Inductive Value : Type :=
| VString (s : string)
| VNumber (q : Q).

Definition sortValue (sortField : SortField) (a : EstimateItem.t) : Value :=
  match sortField with
  | by_type => VString (Intervention.type (EstimateItem.intervention a))
  | by_quantity => VNumber (Intervention.quantity (EstimateItem.intervention a))
  | by_cost => VNumber (EstimateItem.total_cost a)
  | by_confidence => VNumber (Intervention.confidence (EstimateItem.intervention a))
  end.

(** The comparator handed to [items.sort].  Both values come from the same
    field, so they are both strings or both numbers. *)
Definition comparefn (sortField : SortField) (sortDirection : SortDirection)
    (a b : EstimateItem.t) : Q :=
  let aValue := sortValue sortField a in
  let bValue := sortValue sortField b in
  match aValue, bValue with
  | VString x, VString y =>
      match sortDirection with
      | asc => inject_Z (localeCompare x y)
      | desc => inject_Z (localeCompare y x)
      end
  | VNumber x, VNumber y =>
      match sortDirection with
      | asc => x - y
      | desc => y - x
      end
  | _, _ => 0
  end.

(** The [useMemo] body: the address of the array it returns, and the store
    after it ran. *)
Definition sortedItems (estimate : option Estimate.t) (sortField : SortField)
    (sortDirection : SortDirection) (σ : Store) : positive * Store :=
  match estimate with
  | None => alloc [] σ
  | Some estimate =>
      let '(items, σ1) := alloc (elements_at σ (Estimate.items estimate)) σ in
      let σ2 := <[items := Array_sort (comparefn sortField sortDirection)
                                      (elements_at σ1 items)]> σ1 in
      (items, σ2)
  end.

(** [a] may stand before [b] in a list ordered by [sortField]: by the
    collation for the type, by the numeric order for the other fields. *)
Definition key_le (sortField : SortField) (a b : EstimateItem.t) : Prop :=
  match sortValue sortField a, sortValue sortField b with
  | VString x, VString y => (localeCompare x y <= 0)%Z
  | VNumber x, VNumber y => (x <= y)%Q
  | _, _ => False
  end.

Definition in_order (sortField : SortField) (sortDirection : SortDirection)
    (a b : EstimateItem.t) : Prop :=
  match sortDirection with
  | asc => key_le sortField a b
  | desc => key_le sortField b a
  end.

End Sorting.

(** *** Get confidence badge *)
Inductive Badge : Type := HighConfidence | Medium | ReviewNeeded.

Definition badge_text (b : Badge) : string :=
  match b with
  | HighConfidence => "High Confidence"
  | Medium => "Medium"
  | ReviewNeeded => "Review Needed"
  end.

Definition getConfidenceBadge (confidence : float) : Badge :=
  let percent := (confidence * 100)%float in
  if (95 <=? percent)%float then HighConfidence
  else if (80 <=? percent)%float then Medium
  else ReviewNeeded.

(** *** Handle export *)
Definition toUpperCase (format : ExportFormat) : string :=
  match format with
  | csv => "CSV"
  | json => "JSON"
  | pdf => "PDF"
  end.

(** [id] is the route parameter; [reply] is what the transport settles the
    export request to. *)
Definition handleExport (id : option string) (format : ExportFormat)
    (reply : Promise Blob) (s : State) : State * list Effect :=
  match id, estimate s with
  | Some id, Some estimate =>
      if truthy id then
        let '(requests, settled) := exportEstimate id format reply in
        let before :=
          Toast toast_loading ("Exporting as " +:+ toUpperCase format +:+ "...")
            :: map Transfer requests in
        match settled with
        | Returns blob =>
            let filename :=
              "estimate_" +:+ Estimate.estimate_id estimate +:+ "." +:+
              format_string format in
            (setExporting None (setExporting (Some (format_string format)) s),
             before ++ [Download blob filename;
                        Toast toast_success ("Downloaded " +:+ filename)])
        | Throws err =>
            let errorMessage :=
              match err with
              | ThrownAxios e => AxiosError.message e
              | ThrownError message => message
              | ThrownOther _ => "Export failed"
              end in
            (setExporting None (setExporting (Some (format_string format)) s),
             before ++ [Toast toast_error errorMessage])
        end
      else (s, [])
  | _, _ => (s, [])
  end.


End Results.

(** ** The order of the rows as the specification states it ("Sorting"), on
    the fields of the items *)
Module SortSpec.
Import Client Results.

Section Keys.
(** The locale-aware string comparison. *)
Variable localeCompare : string -> string -> Z.

(** "a sort key, one of type (lexicographic, locale-aware string compare),
    quantity (numeric), cost (numeric), confidence (numeric)": [a] is not
    after [b] by the key. *)
Definition not_after (key : SortField) (a b : EstimateItem.t) : Prop :=
  match key with
  | by_type =>
      (localeCompare (Intervention.type (EstimateItem.intervention a))
                     (Intervention.type (EstimateItem.intervention b)) <= 0)%Z
  | by_quantity =>
      (Intervention.quantity (EstimateItem.intervention a) <=
       Intervention.quantity (EstimateItem.intervention b))%Q
  | by_cost => (EstimateItem.total_cost a <= EstimateItem.total_cost b)%Q
  | by_confidence =>
      (Intervention.confidence (EstimateItem.intervention a) <=
       Intervention.confidence (EstimateItem.intervention b))%Q
  end.

(** "and a direction, ascending or descending" *)
Definition ordered (key : SortField) (direction : SortDirection)
    (a b : EstimateItem.t) : Prop :=
  match direction with
  | asc => not_after key a b
  | desc => not_after key b a
  end.

(** "equal keys": neither item is after the other, by the comparison of the
    key (for the type, two strings that the collation does not tell apart). *)
Definition equal_keys (key : SortField) (a b : EstimateItem.t) : Prop :=
  not_after key a b /\ not_after key b a.

#[global] Instance not_after_dec (key : SortField) (a b : EstimateItem.t) :
  Decision (not_after key a b).
Proof.
  unfold not_after. destruct key; try apply _;
    match goal with
    | |- Decision (?x <= ?y)%Q =>
        destruct (Qlt_le_dec y x) as [H|H];
        [right; by apply Qlt_not_le|left; exact H]
    end.
Defined.

#[global] Instance equal_keys_dec (key : SortField) (a b : EstimateItem.t) :
  Decision (equal_keys key a b).
Proof. unfold equal_keys. apply _. Defined.

(** "for two items with equal keys, their relative order matches the pre-sort
    order": the items that have the key of [k] come in [r] as they come in
    [l]. *)
Definition stable (key : SortField) (l r : list EstimateItem.t) : Prop :=
  forall k, filter (equal_keys key k) r = filter (equal_keys key k) l.

End Keys.
End SortSpec.

(** ** The lifecycle properties as the specification states them (sections
    3, 5 and 8), over the traces of the page *)
Module Stated.
Import Upload.
Local Open Scope Z_scope.

(** "exactly one of {resultSummary, failureReason} is set once state is
    terminal; neither is set otherwise" *)
Definition outcome_slots (l : Lifecycle.t) (s : State) : Prop :=
  if Lifecycle.terminal l
  then (is_Some (result s) /\ error s = None) \/ (result s = None /\ is_Some (error s))
  else result s = None /\ error s = None.

Definition outcome_slots_invariant : Prop :=
  forall trace w, run world0 trace = Some w ->
    outcome_slots (Lifecycle.follow Lifecycle.Idle trace) (state w).

(** "Progress is monotonic non-decreasing for the lifetime of a single
    UploadTask": no progress event lowers the percentage of the upload on
    display. *)
Definition progress_monotonic : Prop :=
  forall trace w i ev w', run world0 trace = Some w ->
    uploading (state w) = true ->
    step w (Progress i ev) = Some w' ->
    progress (state w) <= progress (state w').

(** "a late progress event for the same task arriving afterward must not
    alter" what the page shows: a progress event of an upload that was reset
    leaves the rendered page as it is. *)
Definition late_progress_ignored : Prop :=
  forall trace w i t ev w', run world0 trace = Some w ->
    tasks w !! i = Some t -> abandoned t = true ->
    step w (Progress i ev) = Some w' ->
    render (state w') = render (state w).

End Stated.

(** ** What the page keeps of the lifecycle *)
Module Observed.
Import Upload.
Local Open Scope Z_scope.

(** [error] holds nothing, or the message with which a file was turned down. *)
Definition unset_or_rejection (e : option string) : Prop :=
  e = None \/ exists f, validateFile f = e.

(** The two outcome slots, by lifecycle state. *)
Definition outcome_slots (l : Lifecycle.t) (s : State) : Prop :=
  match l with
  | Lifecycle.Succeeded => is_Some (result s) /\ error s = None
  | Lifecycle.Failed => result s = None /\ is_Some (error s)
  | Lifecycle.Transferring | Lifecycle.ServerProcessing =>
      result s = None /\ error s = None
  | Lifecycle.Idle | Lifecycle.Selected =>
      result s = None /\ unset_or_rejection (error s)
  end.

(** The file and the [uploading] flag, by lifecycle state. *)
Definition file_and_flag (l : Lifecycle.t) (s : State) : Prop :=
  match l with
  | Lifecycle.Idle => file s = None /\ uploading s = false
  | Lifecycle.Selected | Lifecycle.Failed => is_Some (file s) /\ uploading s = false
  | Lifecycle.Transferring | Lifecycle.ServerProcessing =>
      is_Some (file s) /\ uploading s = true
  | Lifecycle.Succeeded => uploading s = false
  end.

(** The uploads in flight: the one the page shows as uploading, and no other. *)
Definition one_in_flight (w : World) : Prop :=
  if uploading (state w)
  then exists settled t, tasks w = settled ++ [t] /\
         Forall (fun t => in_flight t = false) settled /\ in_flight t = true
  else Forall (fun t => in_flight t = false) (tasks w).

(** What holds of the page along a trace on which no file is dropped during
    an upload. *)
Definition consistent (l : Lifecycle.t) (w : World) : Prop :=
  (forall f, file (state w) = Some f -> validateFile f = None) /\
  Forall (fun t => validateFile (task_file t) = None) (tasks w) /\
  one_in_flight w /\
  file_and_flag l (state w) /\
  outcome_slots l (state w).

End Observed.

(** ** Binary64 rounding: the notions used to follow [SpecFloat] *)
Module Binary64.
Local Open Scope Z_scope.

(** [mrs] is what is left of [M] after shifting it right by [log2 P] bits:
    quotient, round bit and sticky bit. *)
Definition shifted (P M : Z) (mrs : shr_record) : Prop :=
  exists rem, 0 <= rem < P /\ 0 <= shr_m mrs /\
    M = shr_m mrs * P + rem /\
    (shr_r mrs = true <-> P <= 2 * rem) /\
    (shr_s mrs = true <-> rem <> 0 /\ 2 * rem <> P).

(** [25 * m / 32] rounded to the nearest integer, a tie to the even one: the
    mantissa of [m * 2^-53 * 100] in the binade of 64. *)
Definition round_25_32 (m : Z) : Z :=
  let q := 25 * m / 32 in
  let rho := (25 * m) mod 32 in
  if rho <? 16 then q
  else if rho =? 16 then (if Z.even q then q else q + 1)
  else q + 1.

(** The double that holds the integer [v], [0 <= v < 2^53]: 53 bits of
    mantissa, the exponent to match. *)
Definition canonical (v : Z) : spec_float :=
  match v with
  | Z.pos p => S754_finite false (Z.to_pos (v * 2 ^ (53 - Z.pos (digits2_pos p))))
                           (Z.pos (digits2_pos p) - 53)
  | _ => S754_zero false
  end.

(** [confidence * 100] on the specification side of a double. *)
Definition times_100 (x : spec_float) : spec_float :=
  SFmul prec emax x (S754_finite false 7036874417766400 (-46)).

(** The badge as a function of the product (against 95 and 80), and as a
    function of the confidence (against the double nearest to 0.95 and the
    double just below the one nearest to 0.80). *)
Definition badge_of_percent (percent : spec_float) : Results.Badge :=
  if SFleb (S754_finite false 6685030696878080 (-46)) percent then Results.HighConfidence
  else if SFleb (S754_finite false 5629499534213120 (-46)) percent then Results.Medium
  else Results.ReviewNeeded.

Definition badge_of_confidence (x : spec_float) : Results.Badge :=
  if SFleb (S754_finite false 8556839292003942 (-53)) x then Results.HighConfidence
  else if SFleb (S754_finite false 7205759403792793 (-53)) x then Results.Medium
  else Results.ReviewNeeded.

End Binary64.

(** ** Projections of effect lists, and the data used in the examples *)
Module Examples.
Import Js Client.
Local Open Scope Z_scope.



(** The requests among the effects of the upload page. *)
Definition uploads (fx : list Upload.Effect) : list Request :=
  omap (fun e => match e with Upload.Transfer req => Some req | _ => None end) fx.

(** The routes among the effects of the upload page. *)
Definition navigations (fx : list Upload.Effect) : list string :=
  omap (fun e => match e with Upload.Navigate path => Some path | _ => None end) fx.

(** The responses with which the uploads of a trace succeeded. *)
Definition responses (trace : list Upload.Event) : list EstimateResponse.t :=
  omap (fun e => match e with
                 | Upload.Settled _ (Returns response) => Some response
                 | _ => None
                 end) trace.

Definition not_found_envelope : ApiError.t :=
  ApiError.mk true 404 "Estimate abc123 not found" None (Some "/api/estimate/abc123").

Definition not_found : AxiosError.t :=
  AxiosError.mk (Some (AxiosError.mkr 404 (Some (AxiosError.Envelope not_found_envelope)))) true
                "Request failed with status code 404".

(** A 30 MB PDF, a text file, a 2 MB PDF and a PDF of exactly 25 MiB. *)
Definition big_pdf : File.t := File.mk "audit-full.pdf" (30 * 1024 * 1024) "application/pdf".
Definition notes_txt : File.t := File.mk "notes.txt" 1200 "text/plain".
Definition report_pdf : File.t := File.mk "report.pdf" (2 * 1024 * 1024) "application/pdf".
Definition second_pdf : File.t := File.mk "second.pdf" (3 * 1024 * 1024) "application/pdf".
Definition limit_pdf : File.t := File.mk "limit.pdf" 26214400 "application/pdf".

Definition at_percent (loaded : Z) : AxiosProgressEvent.t :=
  AxiosProgressEvent.mk loaded (Some 100).

Definition summary : EstimateResponse.t :=
  EstimateResponse.mk true "abc123" "report.pdf" "completed" "text" 1 3 (125000 # 1)
    (93 # 100) 1840 (Verification.mk "passed" 3 0 0) JNull [].

(** An upload is started and, at 40%, reset (a dropped text file brings up the
    error box and its Retry button); a second upload is started and reaches
    10%. *)
Definition reset_at_40 : list Upload.Event :=
  [Upload.User (Upload.DropFile (Some report_pdf)); Upload.User Upload.ClickUpload; Upload.Progress 0 (at_percent 40);
   Upload.User (Upload.DropFile (Some notes_txt)); Upload.User Upload.ClickReset;
   Upload.User (Upload.DropFile (Some second_pdf)); Upload.User Upload.ClickUpload; Upload.Progress 1 (at_percent 10)].

(** A valid 2 MB PDF is submitted, progress events at 0, 25, 50 and 100 arrive,
    then a success response with three interventions. *)
Definition scenario : list Upload.Event :=
  [Upload.User (Upload.DropFile (Some report_pdf)); Upload.User Upload.ClickUpload;
   Upload.Progress 0 (at_percent 0); Upload.Progress 0 (at_percent 25);
   Upload.Progress 0 (at_percent 50); Upload.Progress 0 (at_percent 100);
   Upload.Settled 0 (Returns summary)].

(** A text file is dropped on the page while the upload is in flight. *)
Definition dropped_during_upload : list Upload.Event :=
  [Upload.User (Upload.DropFile (Some report_pdf)); Upload.User Upload.ClickUpload;
   Upload.Progress 0 (at_percent 40);
   Upload.User (Upload.DropFile (Some notes_txt));
   Upload.Settled 0 (Returns summary)].

(** Code-point order, a collation to run the sort with. *)
Definition codepoint_compare (a b : string) : Z :=
  match String.compare a b with
  | Lt => -1
  | Eq => 0
  | Gt => 1
  end.

(** An item without materials and assumptions, its audit trail an empty
    object. *)
Definition item (type : string) (quantity cost confidence : Q) : EstimateItem.t :=
  EstimateItem.mk (Intervention.mk type quantity "nos" "km 4+200" confidence "text")
                  [] cost (JCompound "{}") [].

(** Five items, two of them at the same cost. *)
Definition five_items : list EstimateItem.t :=
  [item "Speed Hump" 2 (50000 # 1) (90 # 100);
   item "Guard Rail" 120 (340000 # 1) (97 # 100);
   item "Sign Board" 4 (50000 # 1) (80 # 100);
   item "Road Stud" 200 (18000 # 1) (99 # 100);
   item "Delineator" 36 (27000 # 1) (75 # 100)].

Definition abc123 : Estimate.t :=
  Estimate.mk "abc123" "report.pdf" "2025-01-01T00:00:00" "completed" 1
              (485000 # 1) (93 # 100) JNull.

Definition store_abc123 : gmap positive (list EstimateItem.t) := {[1%positive := five_items]}.

(** A collation that ignores the case of the letters A to Z: code-point order
    of the two strings in lower case. *)
Definition lower (c : ascii) : ascii :=
  let n := nat_of_ascii c in
  if ((65 <=? n) && (n <=? 90))%nat then ascii_of_nat (n + 32) else c.

Fixpoint toLowerCase (s : string) : string :=
  match s with
  | EmptyString => EmptyString
  | String c s' => String (lower c) (toLowerCase s')
  end.

Definition caseless_compare (a b : string) : Z :=
  codepoint_compare (toLowerCase a) (toLowerCase b).

(** Three items, the first and the last of types that differ in case only. *)
Definition tied_items : list EstimateItem.t :=
  [item "speed hump" 2 (50000 # 1) (90 # 100);
   item "Guard Rail" 120 (340000 # 1) (97 # 100);
   item "Speed Hump" 4 (61000 # 1) (80 # 100)].

Definition store_tied : gmap positive (list EstimateItem.t) := {[1%positive := tied_items]}.

End Examples.

(** ** The name of an export as the specification states it ("Export
    dispatch" and section 8) *)
Module ExportSpec.
Import Js Client Results Examples.



End ExportSpec.

(** ** [src/pages/Results.tsx]: what is rendered, and the export in two parts *)
Module ResultsView.
Import Js.
Import Client.
Import Results.

(** *** Render sort icon *)
Inductive SortIcon : Type := SortAsc | SortDesc.

Definition renderSortIcon (field : SortField) (s : State) : option SortIcon :=
  if negb (SortField_eqb (sortField s) field) then None
  else Some match sortDirection s with
            | asc => SortAsc
            | desc => SortDesc
            end.

(** *** [type.replace(/_/g, ' ')], the label of an intervention type *)
Fixpoint replace_underscores (s : string) : string :=
  match s with
  | EmptyString => EmptyString
  | String c s' =>
      String (if Ascii.eqb c "_" then " "%char else c) (replace_underscores s')
  end.



(** *** The export buttons of the main screen *)
Record ExportButton : Type := mkButton { label : string; disabled : bool }.

Definition export_button (format : ExportFormat) (s : State) : ExportButton :=
  mkButton
    (if bool_decide (exporting s = Some (format_string format))
     then "Exporting..." else toUpperCase format)
    (bool_decide (exporting s <> None)).

(** *** [handleExport], in the two parts its [await] cuts it into *)

(** Up to the [await]: the third component tells whether the request was
    handed to the transport. *)
Definition handleExport_start (id : option string) (format : ExportFormat)
    (s : State) : State * list Effect * bool :=
  match id, estimate s with
  | Some id, Some _ =>
      if truthy id then
        (setExporting (Some (format_string format)) s,
         [Toast toast_loading ("Exporting as " +:+ toUpperCase format +:+ "...");
          Transfer (apiClient_get ("/api/estimate/" +:+ id +:+ "/export")
                                  {["format" := PStr (format_string format)]}
                                  (Some "blob"))],
         true)
      else (s, [], false)
  | _, _ => (s, [], false)
  end.

(** After the [await]: [estimate] is the estimate the handler closed over,
    [settled] what [exportEstimate] settled to. *)
Definition handleExport_settled (estimate : Estimate.t) (format : ExportFormat)
    (settled : Promise Blob) (s : State) : State * list Effect :=
  match settled with
  | Returns blob =>
      let filename :=
        "estimate_" +:+ Estimate.estimate_id estimate +:+ "." +:+
        format_string format in
      (setExporting None s,
       [Download blob filename; Toast toast_success ("Downloaded " +:+ filename)])
  | Throws err =>
      let errorMessage :=
        match err with
        | ThrownAxios e => AxiosError.message e
        | ThrownError message => message
        | ThrownOther _ => "Export failed"
        end in
      (setExporting None s, [Toast toast_error errorMessage])
  end.

(** *** The rows of the table

    [sortedItems.map((item, index) => ...)]: the callback is given each item
    of the sorted array with its position, and asks [expandedRows.has(index)]
    for the chevron of the row and for whether the audit trail of [item] is
    rendered under it.  This is the list of the items with the answer; what
    the row and the audit trail panel render of the item is not part of it. *)
Definition has_index (s : State) (index : nat) : bool :=
  bool_decide (Z.of_nat index ∈ expandedRows s).

Definition rows (localeCompare : string -> string -> Z) (s : State) (σ : Store) :
    list (EstimateItem.t * bool) :=
  let '(items, σ') :=
    sortedItems localeCompare (estimate s) (sortField s) (sortDirection s) σ in
  imap (fun index item => (item, has_index s index)) (elements_at σ' items).

End ResultsView.

(** * Properties *)

(** ** The service client *)
Section ClientFacts.
Import Js Client Examples.
Local Open Scope Z_scope.

Lemma truthy_nonempty (s : string) : truthy s = true <-> s <> EmptyString.
Proof. destruct s; simpl; split; intros H; try done. Qed.

Lemma append_nonempty (a b : string) : a <> EmptyString -> a +:+ b <> EmptyString.
Proof. by destruct a. Qed.

(** The message [handleApiError] throws is never the empty string. *)
Lemma handleApiError_message_nonempty (error : Thrown) :
  handleApiError_message error <> EmptyString.
Proof.
  destruct error as [ax|m|v]; simpl; try discriminate.
  destruct (AxiosError.response ax) as [r|].
  - destruct (AxiosError.data r) as [[env|]|].
    + destruct (truthy (ApiError.message env)) eqn:E.
      * by apply truthy_nonempty.
      * apply append_nonempty; discriminate.
    + apply append_nonempty; discriminate.
    + apply append_nonempty; discriminate.
  - destruct (AxiosError.request ax); [discriminate|].
    apply append_nonempty; discriminate.
Qed.

(** When the response carries an envelope with a message, that message is the
    one thrown. *)
Lemma handleApiError_message_envelope (ax : AxiosError.t)
    (r : AxiosError.response_t) (env : ApiError.t) :
  AxiosError.response ax = Some r ->
  AxiosError.data r = Some (AxiosError.Envelope env) ->
  truthy (ApiError.message env) = true ->
  handleApiError_message (ThrownAxios ax) = ApiError.message env.
Proof. intros Hr Hd Ht. simpl. by rewrite Hr, Hd, Ht. Qed.

Lemma try_catch_throws {A : Type} (e : Thrown) :
  try_catch (A := A) (Throws e) = Throws (ThrownError (handleApiError_message e)).
Proof. reflexivity. Qed.

(** A request that does not ask for a blob gets the error as the server sent
    it. *)
Lemma received_parsed (req : Request) (e : Thrown) :
  responseType req <> Some "blob" -> received req e = e.
Proof.
  intros H. unfold received. destruct e; try done.
  by rewrite bool_decide_eq_false_2.
Qed.

(** A request that asks for a blob finds no message in an error response. *)
Lemma received_blob (req : Request) (ax : AxiosError.t) (r : AxiosError.response_t) :
  responseType req = Some "blob" -> AxiosError.response ax = Some r ->
  handleApiError_message (received req (ThrownAxios ax)) =
  "API Error: " +:+ show (AxiosError.status r).
Proof.
  intros H Hr. unfold received. rewrite bool_decide_eq_true_2 by done.
  simpl. by rewrite Hr.
Qed.

Lemma awaiting_settles {A B : Type} (req : Request) (reply : Promise A) (f : A -> B) :
  awaiting req reply f =
  ([req], match reply with
          | Returns data => Returns (f data)
          | Throws e => Throws (ThrownError (handleApiError_message (received req e)))
          end).
Proof. by destruct reply. Qed.

(** An operation hands at most one request to the transport; when it hands
    one, it settles as [awaiting] does. *)
Lemma perform_shape (op : Operation) (reply : Promise (body_of op)) :
  (fst (perform op reply) = [] /\
   exists e, snd (perform op reply) = Throws (ThrownError (handleApiError_message e))) \/
  (exists req, fst (perform op reply) = [req] /\
     (responseType req = Some "blob" <-> exists id format, op = OpExportEstimate id format) /\
     match reply with
     | Returns _ => exists v, snd (perform op reply) = Returns v
     | Throws e =>
         snd (perform op reply) =
         Throws (ThrownError (handleApiError_message (received req e)))
     end).
Proof.
  destruct op; cbn [perform body_of value_of] in *;
    [ unfold uploadPDF; destruct (uploadPDF_begin file) as [req|e] eqn:Hb;
      [ | left; split; [reflexivity|by exists e] ]
    | unfold getEstimate | unfold listEstimates | unfold deleteEstimate
    | unfold exportEstimate | unfold getEstimateSummary
    | unfold searchMaterialPrices | unfold getMaterialPrice
    | unfold getMaterialCategories | unfold getPricingStatistics
    | unfold checkHealthStatus ];
    cbv zeta; rewrite awaiting_settles; right; eexists; (split; [reflexivity|]);
    (split; [|destruct reply; simpl; eauto]).
  - unfold uploadPDF_begin in Hb.
    destruct (negb _); [done|]. destruct (_ <? _); [done|]. injection Hb as <-.
    split; [done|]. by intros (? & ? & ?).
  - split; [done|]. by intros (? & ? & ?).
  - split; [done|]. by intros (? & ? & ?).
  - split; [done|]. by intros (? & ? & ?).
  - split; [eauto|done].
  - split; [done|]. by intros (? & ? & ?).
  - split; [done|]. by intros (? & ? & ?).
  - split; [done|]. by intros (? & ? & ?).
  - split; [done|]. by intros (? & ? & ?).
  - split; [done|]. by intros (? & ? & ?).
  - split; [done|]. by intros (? & ? & ?).
Qed.

(** X22.  Every operation of the service client, whatever the transport settles its
    request to, either returns a value or throws one [Error] that carries a
    non-empty message: an axios error or any other thrown value never escapes.
    When the transport failed, the operation throws.  When the failure is a
    response whose body is an envelope with a (non-empty) message, the message
    thrown is that message, unchanged, for every operation but
    [exportEstimate]; [exportEstimate], which asks for a blob, throws
    "API Error: " followed by the status, whatever the body was. *)
Theorem client_failures_are_normalized (op : Operation)
    (reply : Promise (body_of op)) :
  (forall t, snd (perform op reply) = Throws t ->
     exists message, t = ThrownError message /\ message <> EmptyString) /\
  (forall e, reply = Throws e ->
     exists message, snd (perform op reply) = Throws (ThrownError message)) /\
  (forall ax r env,
     reply = Throws (ThrownAxios ax) ->
     fst (perform op reply) <> [] ->
     (forall id format, op <> OpExportEstimate id format) ->
     AxiosError.response ax = Some r ->
     AxiosError.data r = Some (AxiosError.Envelope env) ->
     truthy (ApiError.message env) = true ->
     snd (perform op reply) = Throws (ThrownError (ApiError.message env))) /\
  (forall ax r id format,
     reply = Throws (ThrownAxios ax) ->
     op = OpExportEstimate id format ->
     AxiosError.response ax = Some r ->
     snd (perform op reply) =
       Throws (ThrownError ("API Error: " +:+ show (AxiosError.status r)))).
Proof.
  destruct (perform_shape op reply) as [[Hq [e He]]|[req [Hq [Hblob Hs]]]].
  - split_and!.
    + intros t Ht. rewrite He in Ht. inversion Ht; subst.
      eexists; split; [reflexivity|apply handleApiError_message_nonempty].
    + intros e' _. eauto.
    + intros ax r env _ Hne. by rewrite Hq in Hne.
    + intros ax r id format _ ->. cbn [perform] in Hq.
      unfold exportEstimate in Hq. by rewrite awaiting_settles in Hq.
  - split_and!.
    + intros t Ht. destruct reply as [d|e].
      * destruct Hs as [v Hv]. congruence.
      * rewrite Hs in Ht. inversion Ht; subst.
        eexists; split; [reflexivity|apply handleApiError_message_nonempty].
    + intros e ->. eauto.
    + intros ax r env -> _ Hop Hr Hd Ht. rewrite Hs.
      rewrite received_parsed.
      * by rewrite (handleApiError_message_envelope ax r env).
      * intros Hb. apply Hblob in Hb as (id & format & ->). by apply (Hop id format).
    + intros ax r id format -> Hop Hr. rewrite Hs.
      rewrite (received_blob req ax r); [done| |done].
      apply Hblob. eauto.
Qed.

Lemma client_failures_are_normalized_witness :
  snd (getEstimate "abc123" (Throws (ThrownAxios not_found))) =
    Throws (ThrownError "Estimate abc123 not found") /\
  snd (exportEstimate "abc123" csv (Throws (ThrownAxios not_found))) =
    Throws (ThrownError "API Error: 404").
Proof.
  split.
  - refine (proj1 (proj2 (proj2 (client_failures_are_normalized
                            (OpGetEstimate "abc123") (Throws (ThrownAxios not_found)))))
              not_found _ not_found_envelope eq_refl _ _ eq_refl eq_refl eq_refl);
      discriminate.
  - exact (proj2 (proj2 (proj2 (client_failures_are_normalized
                            (OpExportEstimate "abc123" csv)
                            (Throws (ThrownAxios not_found)))))
             not_found _ "abc123" csv eq_refl eq_refl eq_refl).
Defined.

(** C5.  The envelope message does not reach the caller of [exportEstimate]:
    for the estimate [abc123], answered with status 404 and the envelope whose
    message is "Estimate abc123 not found", [getEstimate] throws that message
    and [exportEstimate] throws "API Error: 404". *)
Lemma exportEstimate_loses_the_envelope_message :
  AxiosError.data <$> AxiosError.response not_found =
    Some (Some (AxiosError.Envelope not_found_envelope)) /\
  ApiError.message not_found_envelope = "Estimate abc123 not found" /\
  snd (perform (OpGetEstimate "abc123") (Throws (ThrownAxios not_found))) =
    Throws (ThrownError "Estimate abc123 not found") /\
  snd (perform (OpExportEstimate "abc123" csv) (Throws (ThrownAxios not_found))) =
    Throws (ThrownError "API Error: 404").
Proof. by vm_compute. Qed.

(** C10.  [listEstimates] sends [limit] (20 when not given) and [offset] (0
    when not given), and [status_filter] exactly when [statusFilter] is a
    non-empty string: listing with the empty string is listing with no filter. *)
Theorem listEstimates_status_filter (limit offset : option Z)
    (statusFilter : option string) (reply : Promise EstimatesListResponse.t) :
  (exists params : gmap string Param,
     fst (listEstimates limit offset statusFilter reply) =
       [apiClient_get "/api/estimates" params None] /\
     params !! "limit" = Some (PNum (default 20 limit)) /\
     params !! "offset" = Some (PNum (default 0 offset)) /\
     (forall s, params !! "status_filter" = Some (PStr s) <->
                statusFilter = Some s /\ s <> EmptyString) /\
     (is_Some (params !! "status_filter") <->
        exists s, statusFilter = Some s /\ s <> EmptyString) /\
     dom params ⊆ {["limit"; "offset"; "status_filter"]}) /\
  listEstimates limit offset (Some EmptyString) reply =
    listEstimates limit offset None reply.
Proof.
  split; [|reflexivity].
  unfold listEstimates. cbv zeta. rewrite awaiting_settles. cbn [fst].
  destruct statusFilter as [s|]; [destruct (truthy s) eqn:E|].
  - apply truthy_nonempty in E.
    eexists; split; [reflexivity|].
    rewrite lookup_insert_eq.
    rewrite !lookup_insert_ne by done. rewrite !lookup_insert_eq.
    split_and!; try done.
    + intros s'; split; [intros [= ->]; done | intros [[= ->] _]; done].
    + split; [intros _; eauto | eauto].
  - assert (s = EmptyString) as -> by (by destruct s).
    eexists; split; [reflexivity|].
    rewrite !lookup_insert_ne by done. rewrite !lookup_insert_eq.
    split_and!; try done.
    + intros s'; split; [done | intros [[= <-] ?]; done].
    + split; [intros [? ?]; done | intros (s' & [= <-] & ?); done].
    + rewrite !dom_insert_L. set_solver.
  - eexists; split; [reflexivity|].
    rewrite !lookup_insert_ne by done. rewrite !lookup_insert_eq.
    split_and!; try done.
    + intros s'; split; [done | intros [? ?]; done].
    + split; [intros [? ?]; done | intros (s' & ? & ?); done].
    + rewrite !dom_insert_L. set_solver.
Qed.
End ClientFacts.

(** ** The upload page *)
Section UploadFacts.
Import Js Client Upload Examples.
Local Open Scope Z_scope.

Lemma validateFile_None (f : File.t) :
  validateFile f = None <->
  File.type f = "application/pdf" /\ File.size f <= 26214400.
Proof.
  unfold validateFile, ACCEPTED_TYPE, MAX_FILE_SIZE.
  destruct (String.eqb_spec (File.type f) "application/pdf") as [->|Hne]; simpl.
  - destruct (Z.ltb_spec (25 * 1024 * 1024) (File.size f)); split;
      try done; intros; try split; try done; lia.
  - split; [done|]. by intros [? _].
Qed.

Lemma uploadPDF_begin_Returns (f : File.t) :
  validateFile f = None <->
  uploadPDF_begin f = Returns (apiClient_post_form "/api/upload" f).
Proof.
  rewrite validateFile_None. unfold uploadPDF_begin, MAX_SIZE.
  destruct (String.eqb_spec (File.type f) "application/pdf") as [->|Hne]; simpl.
  - destruct (Z.ltb_spec (25 * 1024 * 1024) (File.size f)); split;
      try done; intros; try split; try done; lia.
  - split; [by intros [? _]|done].
Qed.

Lemma acceptable_validateFile (f : File.t) :
  Lifecycle.acceptable f = true <-> validateFile f = None.
Proof.
  rewrite validateFile_None. unfold Lifecycle.acceptable.
  rewrite andb_true_iff, String.eqb_eq, Z.leb_le. done.
Qed.

(** A file of the wrong type or above the limit is turned down by both
    validators, each with a message of its own. *)
Lemma validateFile_Some (f : File.t) :
  File.type f <> "application/pdf" \/ 26214400 < File.size f ->
  exists message, message <> EmptyString /\ validateFile f = Some message.
Proof.
  intros H. destruct (validateFile f) as [m|] eqn:E.
  - exists m. split; [|done]. unfold validateFile in E.
    destruct (negb _); [by injection E as <-|].
    destruct (_ <? _); [by injection E as <-|done].
  - apply validateFile_None in E. destruct E, H; [done|lia].
Qed.

Lemma uploadPDF_begin_Throws (f : File.t) :
  File.type f <> "application/pdf" \/ 26214400 < File.size f ->
  exists message, message <> EmptyString /\
    uploadPDF_begin f = Throws (ThrownError message).
Proof.
  intros H. unfold uploadPDF_begin, MAX_SIZE.
  destruct (String.eqb_spec (File.type f) "application/pdf") as [Heq|Hne]; simpl.
  - destruct (Z.ltb_spec (25 * 1024 * 1024) (File.size f)).
    + eexists; split; [|reflexivity]; done.
    + destruct H; [done|lia].
  - eexists; split; [|reflexivity]; done.
Qed.

Lemma uploads_app (fx fx' : list Effect) :
  uploads (fx ++ fx') = uploads fx ++ uploads fx'.
Proof. apply omap_app. Qed.

(** C2.  A file whose media type is not [application/pdf] or whose size is
    above 26,214,400 bytes fails validation with a message: choosing or
    dropping it only records the message (the chosen file, the uploads and the
    requests handed to the transport stay as they were), and [uploadPDF] throws
    before it hands any request to the transport.  A PDF of exactly 26,214,400
    bytes passes both validations. *)
Theorem invalid_file_is_never_transferred (f : File.t) :
  (File.type f <> "application/pdf" \/ 26214400 < File.size f ->
     (exists message, message <> EmptyString /\
        validateFile f = Some message /\
        forall s,
          handleFileSelect (Some f) s =
            (setError (Some message) s, [Toast toast_error message]) /\
          handleDrop (Some f) s =
            (setError (Some message) (setDragActive false s),
             [Toast toast_error message])) /\
     (forall w w',
        step w (User (SelectFile (Some f))) = Some w' \/
        step w (User (DropFile (Some f))) = Some w' ->
        tasks w' = tasks w /\ uploads (effects w') = uploads (effects w) /\
        file (state w') = file (state w) /\
        uploading (state w') = uploading (state w)) /\
     (forall reply, exists message, message <> EmptyString /\
        uploadPDF f reply = ([], Throws (ThrownError message)))) /\
  (File.type f = "application/pdf" /\ File.size f = 26214400 ->
     validateFile f = None /\
     forall reply,
       fst (uploadPDF f reply) = [apiClient_post_form "/api/upload" f]).
Proof.
  split.
  - intros H. destruct (validateFile_Some f H) as (m & Hm & Hv).
    split; [|split].
    + exists m. split; [done|]. split; [done|]. intros s.
      unfold handleFileSelect, handleDrop, choose. by rewrite Hv.
    + intros w w' [Hs|Hs]; simpl in Hs;
        destruct (offered _ _); try done; injection Hs as <-;
        unfold handleFileSelect, handleDrop, choose; rewrite Hv; simpl;
        rewrite uploads_app, app_nil_r; done.
    + intros reply. destruct (uploadPDF_begin_Throws f H) as (m' & Hm' & Hb).
      unfold uploadPDF. rewrite Hb. simpl.
      eexists; split; [|reflexivity]. done.
  - intros [Ht Hs].
    assert (validateFile f = None) as Hv by (apply validateFile_None; split; [done|lia]).
    split; [done|]. intros reply. unfold uploadPDF.
    apply uploadPDF_begin_Returns in Hv. rewrite Hv. by destruct reply.
Qed.

Lemma invalid_file_is_never_transferred_witness :
  (exists message, validateFile big_pdf = Some message) /\
  (forall reply, fst (uploadPDF big_pdf reply) = []) /\
  validateFile notes_txt <> None /\
  validateFile limit_pdf = None.
Proof.
  assert (File.type big_pdf <> "application/pdf" \/ 26214400 < File.size big_pdf)
    as Hbig by (right; vm_compute; reflexivity).
  assert (File.type notes_txt <> "application/pdf" \/ 26214400 < File.size notes_txt)
    as Htxt by (left; vm_compute; discriminate).
  destruct (proj1 (invalid_file_is_never_transferred big_pdf) Hbig)
    as ((m & _ & Hv & _) & _ & Hu).
  destruct (proj1 (invalid_file_is_never_transferred notes_txt) Htxt)
    as ((m' & _ & Hv' & _) & _).
  split; [by exists m|]. split.
  - intros reply. destruct (Hu reply) as (? & _ & ->). reflexivity.
  - split; [by rewrite Hv'|].
    exact (proj1 (proj2 (invalid_file_is_never_transferred limit_pdf)
                    (conj eq_refl eq_refl))).
Defined.

(** *** Progress *)

Lemma round_half_up_mono (n m d : Z) :
  0 < d -> n <= m -> round_half_up n d <= round_half_up m d.
Proof.
  intros Hd Hnm. unfold round_half_up. apply Z.div_le_mono; lia.
Qed.

Lemma round_half_up_0 (d : Z) : 0 < d -> round_half_up 0 d = 0.
Proof.
  intros Hd. unfold round_half_up. apply Z.div_small. lia.
Qed.

Lemma round_half_up_100 (d : Z) : 0 < d -> round_half_up (d * 100) d = 100.
Proof.
  intros Hd. unfold round_half_up.
  symmetry. apply (Z.div_unique _ _ 100 d); lia.
Qed.

(** A progress event changes nothing but [progress], and only when it carries
    a total that is not zero. *)
Lemma progress_event_state (ev : AxiosProgressEvent.t) (s : State) :
  fst (progress_event ev s) =
  match onUploadProgress ev true with
  | Some p => setProgress p s
  | None => s
  end.
Proof. unfold progress_event. by destruct (onUploadProgress ev true). Qed.

Lemma onUploadProgress_total (loaded t : Z) :
  t <> 0 ->
  onUploadProgress (AxiosProgressEvent.mk loaded (Some t)) true =
  Some (percentCompleted loaded t).
Proof.
  intros Ht. unfold onUploadProgress. simpl.
  destruct (Z.eqb_spec t 0); done.
Qed.

(** While nothing is uploading the page renders no percentage. *)
Lemma render_setProgress (p : Z) (s : State) :
  uploading s = false -> render (setProgress p s) = render s.
Proof. intros H. unfold render. simpl. by rewrite H. Qed.

(** C4 (as stated) fails.  After [reset_at_40] the page shows the second
    upload at 10%.  A late event of the first upload, which was reset, moves
    the bar to 90%; the next event of the second upload moves it back to
    20%. *)
Lemma late_progress_is_displayed :
  ~ Stated.late_progress_ignored /\ ~ Stated.progress_monotonic.
Proof.
  split.
  - intros H.
    destruct (run world0 reset_at_40) as [w|] eqn:Hw; [|by vm_compute in Hw].
    destruct (step w (Progress 0 (at_percent 90))) as [w'|] eqn:Hw';
      [|vm_compute in Hw; injection Hw as <-; by vm_compute in Hw'].
    destruct (tasks w !! 0%nat) as [t|] eqn:Ht;
      [|vm_compute in Hw; injection Hw as <-; by vm_compute in Ht].
    assert (abandoned t = true) as Ha
      by (vm_compute in Hw; injection Hw as <-; vm_compute in Ht; by injection Ht as <-).
    specialize (H reset_at_40 w 0%nat t (at_percent 90) w' Hw Ht Ha Hw').
    vm_compute in Hw; injection Hw as <-. vm_compute in Hw'; injection Hw' as <-.
    vm_compute in H. discriminate.
  - intros H.
    destruct (run world0 (reset_at_40 ++ [Progress 0 (at_percent 90)])) as [w|] eqn:Hw;
      [|by vm_compute in Hw].
    destruct (step w (Progress 1 (at_percent 20))) as [w'|] eqn:Hw';
      [|vm_compute in Hw; injection Hw as <-; by vm_compute in Hw'].
    assert (uploading (state w) = true) as Hu
      by (vm_compute in Hw; by injection Hw as <-).
    specialize (H _ w 1%nat (at_percent 20) w' Hw Hu Hw').
    vm_compute in Hw; injection Hw as <-. vm_compute in Hw'; injection Hw' as <-.
    vm_compute in H. by apply H.
Qed.

(** C6 (as stated) fails.  A 30 MB PDF is selected on the fresh page: the
    lifecycle stays [Idle], and the page holds the validation message in
    [error]. *)
Lemma rejected_selection_sets_error :
  ~ Stated.outcome_slots_invariant.
Proof.
  intros H.
  specialize (H [User (SelectFile (Some big_pdf))] _ eq_refl).
  vm_compute in H. by destruct H.
Qed.
(** *** The outcome slots along the lifecycle *)

Lemma in_flight_is_last (settled : list Task) (t t' : Task) (i : nat) :
  Forall (fun t => in_flight t = false) settled ->
  (settled ++ [t]) !! i = Some t' -> in_flight t' = true ->
  i = length settled /\ t' = t.
Proof.
  intros Hs Hi Ht'.
  destruct (decide (i < length settled)%nat) as [Hlt|Hge].
  - rewrite lookup_app_l in Hi by done.
    rewrite Forall_lookup in Hs. apply Hs in Hi. congruence.
  - rewrite lookup_app_r in Hi by lia.
    destruct (i - length settled)%nat as [|n] eqn:E; simpl in Hi; [|done].
    injection Hi as <-. split; [lia|done].
Qed.

Lemma acceptable_false (f : File.t) (m : string) :
  validateFile f = Some m -> Lifecycle.acceptable f = false.
Proof.
  intros H. destruct (Lifecycle.acceptable f) eqn:E; [|done].
  apply acceptable_validateFile in E. congruence.
Qed.

Lemma acceptable_true (f : File.t) :
  validateFile f = None -> Lifecycle.acceptable f = true.
Proof. apply acceptable_validateFile. Qed.

(** Choosing a file, by selection or by drop, while nothing is uploading. *)
Lemma consistent_choose (l : Lifecycle.t) (s s' : State) (ts : list Task)
    (fx fx' fx'' : list Effect) (files : option File.t) :
  Observed.consistent l (mkWorld s ts fx) ->
  uploading s = false -> result s = None ->
  choose files s = (s', fx') ->
  Observed.consistent (Lifecycle.chosen files l) (mkWorld s' ts fx'').
Proof.
  intros (Hfv & Htv & Hfl & Hph & Hslots) Hu Hr Hc.
  destruct s as [f u p r err drag]. simpl in *. subst u r.
  unfold Observed.consistent, Observed.one_in_flight in *. simpl in *.
  unfold choose in Hc. destruct files as [sel|]; simpl.
  - destruct (validateFile sel) as [m|] eqn:Hv; injection Hc as <- <-; simpl.
    + rewrite (acceptable_false sel m Hv).
      split_and!; try done.
      destruct l; simpl in *; destruct_and?; try done;
        try (split; [done|]; first [right; by exists sel | by eexists]).
    + rewrite (acceptable_true sel Hv).
      split_and!; try done; simpl.
      * by intros ? [= <-].
      * split; [done|by left].
  - injection Hc as <- <-. simpl. done.
Qed.

Lemma consistent_setDragActive (l : Lifecycle.t) (b : bool) (s : State)
    (ts : list Task) (fx fx' : list Effect) :
  Observed.consistent l (mkWorld s ts fx) ->
  Observed.consistent l (mkWorld (setDragActive b s) ts fx').
Proof.
  intros (? & ? & ? & ? & ?). unfold Observed.consistent, Observed.one_in_flight in *.
  destruct s, l; simpl in *; done.
Qed.

(** While the page shows an upload in progress, the lifecycle is in one of
    the two transfer states. *)
Lemma uploading_lifecycle (l : Lifecycle.t) (s : State) :
  Observed.file_and_flag l s -> uploading s = true ->
  l = Lifecycle.Transferring \/ l = Lifecycle.ServerProcessing.
Proof. destruct l; simpl; intros H Hu; try (destruct H; congruence); auto; congruence. Qed.

Lemma consistent_step (l : Lifecycle.t) (w w' : World) (e : Event) :
  Observed.consistent l w ->
  is_drop e && uploading (state w) = false ->
  step w e = Some w' ->
  Observed.consistent (Lifecycle.next l e) w'.
Proof.
  intros Hc Hcalm Hstep.
  destruct w as [s ts fx].
  destruct e as [a|i ev|i reply]; simpl in Hstep.
  - destruct (offered _ a) eqn:Hoff; [|done]. injection Hstep as <-.
    destruct a as [files|files|ty| | |]; simpl in *.
    + (* a file is selected *)
      unfold handleFileSelect.
      destruct (choose files s) as [s' fx'] eqn:Hch.
      apply (consistent_choose l s s' ts fx fx' _ files Hc); [| |done];
        destruct s as [f u p r err drag]; simpl in *;
        unfold render in Hoff; simpl in Hoff; destruct r, f, u; done.
    + (* a file is dropped *)
      unfold handleDrop.
      destruct (choose files (setDragActive false s)) as [s' fx'] eqn:Hch.
      apply (consistent_choose l (setDragActive false s) s' ts fx fx' _ files);
        [by apply consistent_setDragActive with (fx := fx)|by destruct s| |done].
      destruct s as [f u p r err drag]; simpl in *.
      unfold render in Hoff; simpl in Hoff. by destruct r.
    + (* dragging over the drop zone *)
      destruct ty; simpl; by apply consistent_setDragActive with (fx := fx).
    + (* Upload & Process *)
      destruct Hc as (Hfv & Htv & Hfl & Hph & Hslots).
      unfold Observed.consistent, Observed.one_in_flight in *.
      destruct s as [f u p r err drag]; simpl in *.
      unfold render in Hoff; simpl in Hoff.
      destruct r; [done|]. destruct f as [f|]; [|done]. destruct u; [done|].
      unfold handleUpload_start. simpl.
      destruct l; simpl in Hph; try (by destruct Hph);
        simpl; split_and!; try done;
        first [ by exists ts, (mkTask f true false)
              | apply Forall_app; split; [done|]; constructor; [|done];
                simpl; by apply Hfv ].
    + (* Cancel, Retry, Upload Another File *)
      destruct Hc as (Hfv & Htv & Hfl & Hph & Hslots).
      unfold Observed.consistent, Observed.one_in_flight in *.
      destruct s as [f u p r err drag]; simpl in *.
      assert (u = false) as ->.
      { destruct u; [|done]. exfalso.
        destruct (uploading_lifecycle l _ Hph eq_refl) as [-> | ->];
          simpl in *; destruct Hslots as [-> ->]; unfold render in Hoff;
          simpl in Hoff; by destruct f. }
      split_and!; try done.
      * rewrite Forall_map. exact Htv.
      * rewrite Forall_map. exact Hfl.
      * by left.
    + (* View Detailed Estimate *)
      destruct Hc as (Hfv & Htv & Hfl & Hph & Hslots).
      unfold Observed.consistent, Observed.one_in_flight in *.
      unfold handleViewDetails.
      destruct (result s); [destruct (truthy _)|]; done.
  - (* a progress event *)
    destruct (ts !! i) as [t|] eqn:Ht; [|done].
    destruct (in_flight t) eqn:Hin; [|done].
    destruct (Client.uploadPDF_begin (task_file t)); [|done].
    destruct (progress_event ev s) as [s' fx'] eqn:Hp. injection Hstep as <-.
    pose proof (progress_event_state ev s) as Hs'. rewrite Hp in Hs'. simpl in Hs'.
    destruct Hc as (Hfv & Htv & Hfl & Hph & Hslots).
    assert (exists p, s' = setProgress p s) as [p ->].
    { destruct (onUploadProgress ev true) as [p|]; [by exists p|].
      exists (progress s). subst s'. by destruct s. }
    unfold Observed.consistent, Observed.one_in_flight in *. simpl in *.
    split_and!; try done;
      destruct l; simpl in *; try done;
      destruct (onUploadProgress ev true) as [q|]; try done;
      destruct (100 <=? q); done.
  - (* the upload settles *)
    destruct (ts !! i) as [t|] eqn:Ht; [|done].
    destruct (in_flight t) eqn:Hin; [|done].
    destruct (handleUpload_settled _ s) as [s' fx'] eqn:Hset. injection Hstep as <-.
    destruct Hc as (Hfv & Htv & Hfl & Hph & Hslots).
    unfold Observed.consistent, Observed.one_in_flight in *. simpl in *.
    destruct (uploading s) eqn:Hu; cycle 1.
    { rewrite Forall_lookup in Hfl. apply Hfl in Ht. congruence. }
    destruct Hfl as (settled & t0 & -> & Hsettled & Ht0).
    destruct (in_flight_is_last settled t0 t i Hsettled Ht Hin) as [-> ->].
    assert (validateFile (task_file t0) = None) as Hv.
    { apply Forall_app in Htv as [_ Htv]. by apply Forall_inv in Htv. }
    apply uploadPDF_begin_Returns in Hv.
    unfold uploadPDF in Hset. rewrite Hv in Hset. rewrite awaiting_settles in Hset.
    simpl in Hset.
    assert (<[length settled := mkTask (task_file t0) false (abandoned t0)]> (settled ++ [t0])
            = settled ++ [mkTask (task_file t0) false (abandoned t0)]) as ->.
    { rewrite insert_app_r_alt by lia. by rewrite Nat.sub_diag. }
    destruct (uploading_lifecycle l s Hph Hu) as [-> | ->];
      destruct reply as [response|err]; simpl in *; injection Hset as <- <-;
      destruct s as [f u p r e drag]; simpl in *; destruct Hslots as [-> ->];
      split_and!; try done;
      first [ by destruct Hph
            | rewrite Forall_app; split; [done|by constructor]
            | rewrite Forall_app; split; [by apply Forall_app in Htv as [? _]|];
              constructor; [|done]; simpl; by apply uploadPDF_begin_Returns ].
Qed.

Lemma consistent_world0 : Observed.consistent Lifecycle.Idle world0.
Proof.
  unfold Observed.consistent, Observed.one_in_flight. simpl.
  split_and!; try done. by left.
Qed.

Lemma consistent_run (trace : list Event) :
  forall l w w',
    Observed.consistent l w ->
    undisturbed w trace = true ->
    run w trace = Some w' ->
    Observed.consistent (Lifecycle.follow l trace) w'.
Proof.
  induction trace as [|e trace IH]; intros l w w' Hc Hu Hr; simpl in *.
  - by injection Hr as <-.
  - apply andb_true_iff in Hu as [Hcalm Hu].
    apply negb_true_iff in Hcalm.
    destruct (step w e) as [w1|] eqn:Hstep; [|done].
    apply (IH (Lifecycle.next l e) w1 w'); [|done|done].
    by apply (consistent_step l w w1 e).
Qed.

(** C6 (as the page has it).  Along every trace of the page on which no file
    is dropped while an upload is shown in progress: [result] is set and
    [error] is not once the lifecycle is [Succeeded]; [error] is set and
    [result] is not once it is [Failed]; neither is set while it is
    [Transferring] or [ServerProcessing]; and in [Idle] and [Selected]
    [result] is not set, while [error] is unset or holds the message with
    which a file was turned down. *)
Theorem outcome_slots_follow_the_lifecycle (trace : list Event) (w : World) :
  run world0 trace = Some w ->
  undisturbed world0 trace = true ->
  Observed.outcome_slots (Lifecycle.follow Lifecycle.Idle trace) (state w).
Proof.
  intros Hr Hu.
  by destruct (consistent_run trace _ _ _ consistent_world0 Hu Hr) as (_ & _ & _ & _ & ?).
Qed.

Lemma outcome_slots_follow_the_lifecycle_witness :
  exists w, run world0 scenario = Some w /\
    Lifecycle.follow Lifecycle.Idle scenario = Lifecycle.Succeeded /\
    is_Some (result (state w)) /\ error (state w) = None.
Proof.
  eexists. split; [vm_compute; reflexivity|]. split; [reflexivity|].
  exact (outcome_slots_follow_the_lifecycle scenario _ eq_refl eq_refl).
Defined.

(** The hypothesis is needed: a text file dropped during the upload leaves
    its message in [error], and the success that follows sets [result] next
    to it. *)
Example drop_during_upload_fills_both_slots :
  exists w, run world0 dropped_during_upload = Some w /\
    Lifecycle.follow Lifecycle.Idle dropped_during_upload = Lifecycle.Succeeded /\
    is_Some (result (state w)) /\ is_Some (error (state w)).
Proof.
  eexists. split; [vm_compute; reflexivity|]. split; [reflexivity|].
  split; eexists; reflexivity.
Qed.

End UploadFacts.

(** ** The results page *)

(** *** [Array_sort] under a consistent comparator *)
Section SortFacts.
Import Results.
Context {A : Type} (c : A -> A -> Q).

Lemma insert_perm (x : A) (l : list A) : Permutation (insert c x l) (x :: l).
Proof.
  induction l as [|y l IH]; simpl; [done|].
  destruct (c x y ?= 0)%Q; try done.
  rewrite IH. apply perm_swap.
Qed.

Lemma Array_sort_perm (l : list A) : Permutation (Array_sort c l) l.
Proof.
  induction l as [|x l IH]; simpl; [done|].
  rewrite insert_perm. by constructor.
Qed.

(** Insertion moves [x] only past elements that the comparator puts strictly
    before it, so a class of elements that the comparator does not separate
    keeps its order. *)
Lemma insert_filter (P : A -> Prop) `{!forall a, Decision (P a)} (x : A) (l : list A) :
  (forall a b, P a -> P b -> (c a b <= 0)%Q) ->
  filter P (insert c x l) = filter P (x :: l).
Proof.
  intros HP. induction l as [|y l IH]; simpl; [done|].
  destruct (c x y ?= 0)%Q eqn:E; try done.
  rewrite filter_cons, IH, !filter_cons.
  destruct (decide (P y)) as [Hy|Hy], (decide (P x)) as [Hx|Hx]; try done.
  apply Qgt_alt in E. specialize (HP x y Hx Hy). lra.
Qed.

Lemma Array_sort_filter (P : A -> Prop) `{!forall a, Decision (P a)} (l : list A) :
  (forall a b, P a -> P b -> (c a b <= 0)%Q) ->
  filter P (Array_sort c l) = filter P l.
Proof.
  intros HP. induction l as [|x l IH]; simpl; [done|].
  rewrite insert_filter by done. by rewrite !filter_cons, IH.
Qed.

Hypothesis c_total : forall a b, (0 < c a b)%Q -> (c b a <= 0)%Q.

Lemma insert_sorted (x : A) (l : list A) :
  Sorted (fun a b => (c a b <= 0)%Q) l ->
  Sorted (fun a b => (c a b <= 0)%Q) (insert c x l).
Proof.
  induction 1 as [|y l Hs IH Hhd]; simpl; [by repeat constructor|].
  destruct (c x y ?= 0)%Q eqn:E.
  - constructor; [by constructor|]. constructor. apply Qeq_alt in E. lra.
  - constructor; [by constructor|]. constructor. apply Qlt_alt in E. lra.
  - apply Qgt_alt in E. constructor; [done|].
    destruct Hhd as [|z l Hyz]; simpl.
    + constructor. by apply c_total.
    + destruct (c x z ?= 0)%Q; constructor; try done; by apply c_total.
Qed.

Lemma Array_sort_sorted (l : list A) :
  Sorted (fun a b => (c a b <= 0)%Q) (Array_sort c l).
Proof.
  induction l as [|x l IH]; simpl; [constructor|]. by apply insert_sorted.
Qed.

Hypothesis c_trans : forall a b d, (c a b <= 0)%Q -> (c b d <= 0)%Q -> (c a d <= 0)%Q.

Lemma Array_sort_strongly_sorted (l : list A) :
  StronglySorted (fun a b => (c a b <= 0)%Q) (Array_sort c l).
Proof.
  apply Sorted_StronglySorted; [|apply Array_sort_sorted].
  intros a b d. apply c_trans.
Qed.

End SortFacts.

(** *** Sorting the items *)
Section ResultsSortFacts.
Import Js Client Results Examples.

Variable localeCompare : string -> string -> Z.

(** The collation is a consistent comparator: swapping the arguments flips
    the sign, and "not after" is transitive. *)
Hypothesis localeCompare_antisym :
  forall a b, Z.sgn (localeCompare b a) = (- Z.sgn (localeCompare a b))%Z.
Hypothesis localeCompare_trans :
  forall a b d, (localeCompare a b <= 0)%Z -> (localeCompare b d <= 0)%Z ->
                (localeCompare a d <= 0)%Z.

Lemma localeCompare_refl (a : string) : localeCompare a a = 0%Z.
Proof. pose proof (localeCompare_antisym a a). lia. Qed.

Lemma inject_Z_nonpos (z : Z) : (inject_Z z <= 0)%Q <-> (z <= 0)%Z.
Proof. unfold Qle, inject_Z. simpl. lia. Qed.

Lemma inject_Z_pos (z : Z) : (0 < inject_Z z)%Q <-> (0 < z)%Z.
Proof. unfold Qlt, inject_Z. simpl. lia. Qed.

Lemma StronglySorted_weaken {A : Type} (R S : A -> A -> Prop) (l : list A) :
  (forall a b, R a b -> S a b) -> StronglySorted R l -> StronglySorted S l.
Proof.
  intros HRS. induction 1 as [|x l Hs IH Hall]; constructor; [done|].
  eapply Forall_impl; [exact Hall|]. intros y. apply HRS.
Qed.

(** The comparator is not positive exactly when its arguments are in order. *)
Lemma comparefn_in_order (f : SortField) (d : SortDirection) (a b : EstimateItem.t) :
  (comparefn localeCompare f d a b <= 0)%Q <-> in_order localeCompare f d a b.
Proof.
  unfold comparefn, in_order, key_le.
  destruct f, d; simpl; rewrite ?inject_Z_nonpos; try done; split; intros; lra.
Qed.

Lemma comparefn_total (f : SortField) (d : SortDirection) (a b : EstimateItem.t) :
  (0 < comparefn localeCompare f d a b)%Q ->
  (comparefn localeCompare f d b a <= 0)%Q.
Proof.
  unfold comparefn.
  destruct f, d; simpl; rewrite ?inject_Z_nonpos, ?inject_Z_pos; try (intros; lra);
    intros H;
    match goal with
    | |- (localeCompare ?x ?y <= 0)%Z => pose proof (localeCompare_antisym x y)
    end; lia.
Qed.

Lemma comparefn_trans (f : SortField) (d : SortDirection) (a b e : EstimateItem.t) :
  (comparefn localeCompare f d a b <= 0)%Q ->
  (comparefn localeCompare f d b e <= 0)%Q ->
  (comparefn localeCompare f d a e <= 0)%Q.
Proof.
  unfold comparefn.
  destruct f, d; simpl; rewrite ?inject_Z_nonpos; try (intros; lra);
    intros; eapply localeCompare_trans; eassumption.
Qed.

(** The comparator is not positive exactly when its arguments are in the
    order that the specification names for the key and the direction. *)
Lemma comparefn_ordered (f : SortField) (d : SortDirection) (a b : EstimateItem.t) :
  (comparefn localeCompare f d a b <= 0)%Q <-> SortSpec.ordered localeCompare f d a b.
Proof.
  unfold comparefn, SortSpec.ordered, SortSpec.not_after.
  destruct f, d; simpl; rewrite ?inject_Z_nonpos; try done; split; intros; lra.
Qed.

(** Items with equal keys are not separated by the comparator, in either
    direction. *)
Lemma comparefn_equal_keys (f : SortField) (d : SortDirection) (k a b : EstimateItem.t) :
  SortSpec.equal_keys localeCompare f k a -> SortSpec.equal_keys localeCompare f k b ->
  (comparefn localeCompare f d a b <= 0)%Q.
Proof.
  intros [Hka Hak] [Hkb Hbk]. apply comparefn_ordered.
  unfold SortSpec.ordered, SortSpec.not_after in *.
  destruct f, d; simpl in *;
    first [ by eapply localeCompare_trans | by eapply Qle_trans ].
Qed.

(** C3.  For an estimate whose items are the array [l], every sort key and
    both directions: the array that [sortedItems] returns holds the items of
    [l], ordered by the key as the specification names it (the type by the
    collation, the quantity, the cost and the confidence of the item
    numerically; ascending or descending), and items with equal keys (for the
    type: that the collation does not tell apart) stand in it in the order
    they have in [l]. *)
Theorem sortedItems_ordered_and_stable (estimate : Estimate.t)
    (sortField : SortField) (sortDirection : SortDirection) (σ : Store)
    (l : list EstimateItem.t) :
  σ !! Estimate.items estimate = Some l ->
  exists items σ' r,
    sortedItems localeCompare (Some estimate) sortField sortDirection σ = (items, σ') /\
    σ' !! items = Some r /\
    Permutation r l /\
    StronglySorted (SortSpec.ordered localeCompare sortField sortDirection) r /\
    SortSpec.stable localeCompare sortField l r.
Proof.
  intros Hl. unfold sortedItems, alloc, elements_at. rewrite Hl. simpl.
  do 3 eexists. split; [reflexivity|].
  rewrite !lookup_insert_eq. simpl. split; [reflexivity|].
  split; [apply Array_sort_perm|]. split.
  - eapply StronglySorted_weaken.
    + intros a b. apply comparefn_ordered.
    + apply Array_sort_strongly_sorted.
      * apply comparefn_total.
      * apply comparefn_trans.
  - intros k. apply Array_sort_filter. apply comparefn_equal_keys.
Qed.

End ResultsSortFacts.

Section ResultsFacts.
Import Js Client Results Examples.

Lemma codepoint_compare_antisym (a b : string) :
  Z.sgn (codepoint_compare b a) = (- Z.sgn (codepoint_compare a b))%Z.
Proof.
  unfold codepoint_compare. rewrite (String.compare_antisym b a).
  by destruct (String.compare a b).
Qed.

Lemma codepoint_compare_nonpos (a b : string) :
  (codepoint_compare a b <= 0)%Z <-> a = b \/ String_as_OT.lt a b.
Proof.
  unfold codepoint_compare.
  rewrite <- String_as_OT.cmp_eq, <- String_as_OT.cmp_lt. unfold String_as_OT.cmp.
  destruct (String.compare a b); split; intros H; try done; try lia; auto.
  - by destruct H.
Qed.

Lemma codepoint_compare_trans (a b d : string) :
  (codepoint_compare a b <= 0)%Z -> (codepoint_compare b d <= 0)%Z ->
  (codepoint_compare a d <= 0)%Z.
Proof.
  rewrite !codepoint_compare_nonpos. intros [->|Hab] [->|Hbd]; auto.
  right. by eapply String_as_OT.lt_trans.
Qed.

Lemma caseless_compare_antisym (a b : string) :
  Z.sgn (caseless_compare b a) = (- Z.sgn (caseless_compare a b))%Z.
Proof. apply codepoint_compare_antisym. Qed.

Lemma caseless_compare_trans (a b d : string) :
  (caseless_compare a b <= 0)%Z -> (caseless_compare b d <= 0)%Z ->
  (caseless_compare a d <= 0)%Z.
Proof. apply codepoint_compare_trans. Qed.

Lemma sortedItems_ordered_and_stable_witness :
  (exists items σ' r,
     sortedItems codepoint_compare (Some abc123) by_cost desc store_abc123 = (items, σ') /\
     σ' !! items = Some r /\
     Permutation r five_items /\
     StronglySorted (SortSpec.ordered codepoint_compare by_cost desc) r /\
     SortSpec.stable codepoint_compare by_cost five_items r) /\
  (exists items σ' r,
     sortedItems caseless_compare (Some abc123) by_type asc store_tied = (items, σ') /\
     σ' !! items = Some r /\
     Permutation r tied_items /\
     StronglySorted (SortSpec.ordered caseless_compare by_type asc) r /\
     SortSpec.stable caseless_compare by_type tied_items r).
Proof.
  split.
  - exact (sortedItems_ordered_and_stable codepoint_compare
             codepoint_compare_antisym codepoint_compare_trans
             abc123 by_cost desc store_abc123 five_items eq_refl).
  - exact (sortedItems_ordered_and_stable caseless_compare
             caseless_compare_antisym caseless_compare_trans
             abc123 by_type asc store_tied tied_items eq_refl).
Defined.

(** Under a collation that ignores case, "speed hump" and "Speed Hump" have
    equal keys though they are different strings: they stay in the order of
    the estimate, in both directions. *)
Example tied_items_by_type :
  caseless_compare "speed hump" "Speed Hump" = 0%Z /\
  map (fun i => Intervention.type (EstimateItem.intervention i))
      (Array_sort (comparefn caseless_compare by_type asc) tied_items) =
    ["Guard Rail"; "speed hump"; "Speed Hump"] /\
  map (fun i => Intervention.type (EstimateItem.intervention i))
      (Array_sort (comparefn caseless_compare by_type desc) tied_items) =
    ["speed hump"; "Speed Hump"; "Guard Rail"].
Proof. by vm_compute. Qed.

(** By cost, descending: from the highest cost to the lowest, the two items at
    50000 in the order they came in. *)
Example five_items_by_cost_desc :
  map (fun i => Intervention.type (EstimateItem.intervention i))
      (Array_sort (comparefn codepoint_compare by_cost desc) five_items) =
  ["Guard Rail"; "Speed Hump"; "Sign Board"; "Delineator"; "Road Stud"].
Proof. reflexivity. Qed.

Example five_items_by_type_asc :
  map (fun i => Intervention.type (EstimateItem.intervention i))
      (Array_sort (comparefn codepoint_compare by_type asc) five_items) =
  ["Delineator"; "Guard Rail"; "Road Stud"; "Sign Board"; "Speed Hump"].
Proof. reflexivity. Qed.

(** C8.  Computing the sorted view changes no array that was in the store:
    the array it sorts is a fresh one, so the items of the fetched estimate are
    what they were, in the order they were. *)
Theorem sortedItems_mutates_no_array (localeCompare : string -> string -> Z)
    (estimate : option Estimate.t) (sortField : SortField)
    (sortDirection : SortDirection) (σ : Store) :
  let '(items, σ') := sortedItems localeCompare estimate sortField sortDirection σ in
  (items ∉ dom σ) /\
  (forall a l, σ !! a = Some l -> σ' !! a = Some l) /\
  (forall e l, estimate = Some e -> σ !! Estimate.items e = Some l ->
     elements_at σ' (Estimate.items e) = l).
Proof.
  assert (forall a l, σ !! a = Some l -> a <> fresh (dom σ)) as Hfresh.
  { intros a l Ha ->. apply (is_fresh (dom σ)). apply elem_of_dom. by eexists. }
  unfold sortedItems, alloc.
  destruct estimate as [e|]; simpl.
  - split; [apply is_fresh|]. split.
    + intros a l Ha. rewrite !lookup_insert_ne by (symmetry; by eapply Hfresh). done.
    + intros e' l [= <-] Ha. unfold elements_at at 1.
      rewrite !lookup_insert_ne by (symmetry; by eapply Hfresh). by rewrite Ha.
  - split; [apply is_fresh|]. split.
    + intros a l Ha. rewrite lookup_insert_ne by (symmetry; by eapply Hfresh). done.
    + intros e' l [=].
Qed.

Lemma sortedItems_mutates_no_array_witness :
  elements_at (snd (sortedItems codepoint_compare (Some abc123) by_cost desc store_abc123))
              (Estimate.items abc123) = five_items.
Proof.
  exact (proj2 (proj2 (sortedItems_mutates_no_array codepoint_compare (Some abc123)
                         by_cost desc store_abc123))
           abc123 five_items eq_refl eq_refl).
Defined.

(** Without the copy the sort would have changed the estimate's own array. *)
Example sort_in_place_would_mutate :
  Array_sort (comparefn codepoint_compare by_cost desc) five_items <> five_items.
Proof. discriminate. Qed.

(** C9.  Toggling a row flips the membership of that index and of no other,
    toggling it twice gives back the set (and the state) one started from, and
    the toggle has no effect outside the state: no request, nothing else. *)
Theorem toggleRow_flips_one_row (index : Z) (s : State) :
  fst (toggleRow index (fst (toggleRow index s))) = s /\
  expandedRows (fst (toggleRow index (fst (toggleRow index s)))) = expandedRows s /\
  (index ∈ expandedRows (fst (toggleRow index s)) <-> index ∉ expandedRows s) /\
  (forall j, j <> index ->
     (j ∈ expandedRows (fst (toggleRow index s)) <-> j ∈ expandedRows s)) /\
  snd (toggleRow index s) = [].
Proof.
  assert (expandedRows (fst (toggleRow index (fst (toggleRow index s)))) = expandedRows s) as H.
  { destruct s as [e l err rows f d ex]. simpl.
    destruct (decide (index ∈ rows)) as [Hin|Hout].
    - destruct (decide (index ∈ rows ∖ {[index]})); [set_solver|].
      apply set_eq. intros j. destruct (decide (j = index)); set_solver.
    - destruct (decide (index ∈ rows ∪ {[index]})); [|set_solver].
      apply set_eq. intros j. destruct (decide (j = index)); set_solver. }
  split; [|split; [done|]].
  - destruct s as [e l err rows f d ex]. simpl in *.
    unfold setExpandedRows. simpl. by f_equal.
  - destruct s as [e l err rows f d ex]. simpl.
    destruct (decide (index ∈ rows)); split_and!; try done; set_solver.
Qed.

Lemma toggleRow_flips_one_row_witness :
  (3%Z ∈ expandedRows (fst (toggleRow 2 (setExpandedRows (fun _ => {[1%Z; 3%Z]}) initial)))) <->
  (3%Z ∈ expandedRows (setExpandedRows (fun _ => {[1%Z; 3%Z]}) initial)).
Proof.
  refine (proj1 (proj2 (proj2 (proj2 (toggleRow_flips_one_row 2
            (setExpandedRows (fun _ => {[1%Z; 3%Z]}) initial))))) 3%Z _).
  discriminate.
Defined.





(** Without a route parameter or without an estimate nothing is requested. *)
Lemma handleExport_guard (id : option string) (format : ExportFormat)
    (reply : Promise Blob) (s : State) :
  id = None \/ id = Some EmptyString \/ estimate s = None ->
  handleExport id format reply s = (s, []).
Proof.
  unfold handleExport. intros [-> | [-> | ->]]; try done.
  - by destruct (estimate s).
  - by destruct id.
Qed.

(** *** The confidence badge *)

(** A decimal literal denotes the double nearest to it, as in JavaScript. *)
Local Set Warnings "-inexact-float".

(** The doubles nearest to 0.80 and 0.95, and the double just below the
    former. *)
Example thresholds_as_doubles :
  (0x1.999999999999ap-1 =? 0.8)%float = true /\
  (0x1.e666666666666p-1 =? 0.95)%float = true /\
  next_down 0x1.999999999999ap-1 = 0x1.9999999999999p-1%float.
Proof. by vm_compute. Qed.

(** The values of the specification's table. *)
Example getConfidenceBadge_table :
  getConfidenceBadge 0 = ReviewNeeded /\
  getConfidenceBadge 0.79999 = ReviewNeeded /\
  getConfidenceBadge 0.8 = Medium /\
  getConfidenceBadge 0.94999 = Medium /\
  getConfidenceBadge 0.95 = HighConfidence /\
  getConfidenceBadge 1 = HighConfidence.
Proof. by vm_compute. Qed.

(** C1 (as stated) fails.  The double just below 0.80 is a confidence below
    0.80, and its badge is Medium: its product with 100 rounds to 80. *)
Lemma below_80_is_medium :
  (0x1.9999999999999p-1 <? 0.8)%float = true /\
  (0x1.9999999999999p-1 * 100 =? 80)%float = true /\
  getConfidenceBadge 0x1.9999999999999p-1 = Medium.
Proof. by vm_compute. Qed.

End ResultsFacts.

(** *** Binary64 rounding, from its specification in [SpecFloat] *)
Section Binary64Facts.
Import Binary64.
Local Open Scope Z_scope.

Lemma shifted_0 (M : Z) : 0 <= M -> shifted 1 M (Build_shr_record M false false).
Proof. intros HM. exists 0. simpl. repeat split; try lia; try done. Qed.

Lemma shr_1_shifted (P M : Z) (mrs : shr_record) :
  0 < P -> shifted P M mrs -> shifted (2 * P) M (shr_1 mrs).
Proof.
  intros HP (rem & Hrem & Hq & HM & Hr & Hs).
  destruct mrs as [q r s]. simpl in *.
  assert (r || s = true <-> rem <> 0) as Hrs.
  { rewrite orb_true_iff, Hr, Hs. lia. }
  destruct q as [|[p|p|]|p]; simpl; try lia;
    [ exists rem | exists (P + rem) | exists rem | exists (P + rem) ];
    simpl; rewrite Hrs; split_and!; try lia; split; intros; try lia; try done.
Qed.

Lemma iter_pos_shifted (n : positive) :
  forall P M mrs, 0 < P -> shifted P M mrs ->
    shifted (P * 2 ^ Z.pos n) M (SpecFloat.iter_pos shr_1 n mrs).
Proof.
  induction n as [n IH|n IH|]; intros P M mrs HP H; cbn [SpecFloat.iter_pos].
  - replace (P * 2 ^ Z.pos n~1) with (2 * P * 2 ^ Z.pos n * 2 ^ Z.pos n).
    + apply IH; [nia|]. apply IH; [lia|]. by apply shr_1_shifted.
    + replace (Z.pos n~1) with (Z.pos n + Z.pos n + 1) by lia.
      rewrite !Z.pow_add_r by lia. lia.
  - replace (P * 2 ^ Z.pos n~0) with (P * 2 ^ Z.pos n * 2 ^ Z.pos n).
    + apply IH; [nia|]. by apply IH.
    + replace (Z.pos n~0) with (Z.pos n + Z.pos n) by lia.
      rewrite !Z.pow_add_r by lia. lia.
  - replace (P * 2 ^ 1) with (2 * P) by lia. by apply shr_1_shifted.
Qed.

Lemma digits2_pos_bounds (p : positive) :
  2 ^ (Z.pos (digits2_pos p) - 1) <= Z.pos p < 2 ^ Z.pos (digits2_pos p).
Proof.
  induction p as [p IH|p IH|]; simpl; [| |lia].
  - rewrite Pos2Z.inj_succ, Z.pow_succ_r by lia.
    replace (Z.succ (Z.pos (digits2_pos p)) - 1) with (Z.succ (Z.pos (digits2_pos p) - 1)) by lia.
    rewrite Z.pow_succ_r by lia. lia.
  - rewrite Pos2Z.inj_succ, Z.pow_succ_r by lia.
    replace (Z.succ (Z.pos (digits2_pos p)) - 1) with (Z.succ (Z.pos (digits2_pos p) - 1)) by lia.
    rewrite Z.pow_succ_r by lia. lia.
Qed.

(** The number of binary digits of a positive number lying between two
    consecutive powers of two. *)
Lemma digits2_pos_unique (p : positive) (d : Z) :
  2 ^ (d - 1) <= Z.pos p < 2 ^ d -> Z.pos (digits2_pos p) = d.
Proof.
  intros [Hlo Hhi]. pose proof (digits2_pos_bounds p) as [Hlo' Hhi'].
  assert (0 < d) as Hd.
  { destruct (Z.lt_trichotomy d 0) as [Hneg|[->|Hpos]]; [|simpl in Hhi; lia|done].
    rewrite Z.pow_neg_r in Hhi by lia. lia. }
  destruct (Z.lt_trichotomy (Z.pos (digits2_pos p)) d) as [Hlt|[Heq|Hgt]]; [|done|].
  - assert (2 ^ Z.pos (digits2_pos p) <= 2 ^ (d - 1)) by (apply Z.pow_le_mono_r; lia). lia.
  - assert (2 ^ d <= 2 ^ (Z.pos (digits2_pos p) - 1)) by (apply Z.pow_le_mono_r; lia). lia.
Qed.

Lemma fexp_eq (e : Z) : fexp prec emax e = Z.max (e - 53) (-1074).
Proof. reflexivity. Qed.

(** A positive shift: the mantissa is cut down to the exponent [fexp]. *)
Lemma shr_fexp_shifts (M : positive) (E : Z) :
  let fe := fexp prec emax (Z.pos (digits2_pos M) + E) in
  E < fe ->
  exists mrs, shr_fexp prec emax (Z.pos M) E loc_Exact = (mrs, fe) /\
              shifted (2 ^ (fe - E)) (Z.pos M) mrs.
Proof.
  intros fe Hlt. unfold shr_fexp, shr. cbn [Zdigits2 shr_record_of_loc]. fold fe.
  destruct (fe - E) as [|n|n] eqn:Hn; try lia.
  eexists. split.
  - f_equal. lia.
  - replace (2 ^ Z.pos n) with (1 * 2 ^ Z.pos n) by lia.
    apply iter_pos_shifted; [lia|]. by apply shifted_0.
Qed.

(** No shift: the mantissa already fits. *)
Lemma shr_fexp_keeps (m E : Z) :
  fexp prec emax (Zdigits2 m + E) <= E ->
  shr_fexp prec emax m E loc_Exact = (Build_shr_record m false false, E).
Proof.
  intros Hle. unfold shr_fexp, shr. cbn [shr_record_of_loc].
  destruct (fexp prec emax (Zdigits2 m + E) - E) eqn:Hn; try done; lia.
Qed.

Lemma round_nearest_even_bounds (mrs : shr_record) :
  shr_m mrs <= round_nearest_even (shr_m mrs) (loc_of_shr_record mrs) <= shr_m mrs + 1.
Proof.
  destruct mrs as [q [] []]; simpl; try lia. destruct (Z.even q); lia.
Qed.

(** After a positive shift at most 53 bits are left. *)
Lemma shifted_quotient_bound (M : positive) (E : Z) (mrs : shr_record) :
  let fe := fexp prec emax (Z.pos (digits2_pos M) + E) in
  E < fe -> shifted (2 ^ (fe - E)) (Z.pos M) mrs ->
  0 <= shr_m mrs < 9007199254740992.
Proof.
  intros fe Hlt (rem & Hrem & Hq & HM & _).
  pose proof (digits2_pos_bounds M) as [_ Hhi].
  set (d := Z.pos (digits2_pos M)) in *.
  assert (0 < 2 ^ (fe - E)) as HP by (apply Z.pow_pos_nonneg; lia).
  set (P := 2 ^ (fe - E)) in *.
  split; [done|].
  destruct (Z_lt_le_dec (d + E - fe) 0) as [Hneg|Hpos].
  - assert (2 ^ d <= P) by (apply Z.pow_le_mono_r; lia). nia.
  - assert (2 ^ d = P * 2 ^ (d + E - fe)) as Hd.
    { unfold P. rewrite <- Z.pow_add_r by lia. f_equal. lia. }
    assert (2 ^ (d + E - fe) <= 2 ^ 53) as Hk.
    { apply Z.pow_le_mono_r; [lia|]. unfold fe. rewrite fexp_eq. lia. }
    change (2 ^ 53) with 9007199254740992 in Hk.
    assert (0 < 2 ^ (d + E - fe)) by (apply Z.pow_pos_nonneg; lia).
    nia.
Qed.

(** A product below 64 rounds to a double that no threshold above 64, with
    the exponent of the binade of 64, is below or equal to. *)
Lemma round_below_64 (M t : positive) (E : Z) :
  Z.pos (digits2_pos M) + E <= 6 ->
  E < fexp prec emax (Z.pos (digits2_pos M) + E) ->
  4503599627370496 < Z.pos t ->
  SFleb (S754_finite false t (-46))
        (binary_round_aux prec emax false (Z.pos M) E loc_Exact) = false.
Proof.
  intros Hd Hsh Ht.
  destruct (shr_fexp_shifts M E Hsh) as (mrs & Hshr & Hmrs).
  pose proof (shifted_quotient_bound M E mrs Hsh Hmrs) as Hq.
  pose proof (round_nearest_even_bounds mrs) as Hrne.
  unfold binary_round_aux. rewrite Hshr.
  set (fe := fexp prec emax (Z.pos (digits2_pos M) + E)) in *.
  assert (-1074 <= fe <= -47) as Hfe by (unfold fe; rewrite fexp_eq; lia).
  set (m1 := round_nearest_even (shr_m mrs) (loc_of_shr_record mrs)) in *.
  destruct m1 as [|p1|p1] eqn:Hm1; [| |lia].
  - rewrite shr_fexp_keeps by (cbn [Zdigits2]; rewrite fexp_eq; lia). done.
  - destruct (Z_lt_le_dec (Z.pos p1) 9007199254740992) as [Hlt|Hge].
    + assert (Z.pos (digits2_pos p1) <= 53) as Hd1.
      { pose proof (digits2_pos_bounds p1) as [Hlo _].
        destruct (Z_lt_le_dec 53 (Z.pos (digits2_pos p1))) as [Hbig|]; [|done].
        assert (2 ^ 53 <= 2 ^ (Z.pos (digits2_pos p1) - 1)) by (apply Z.pow_le_mono_r; lia).
        change (2 ^ 53) with 9007199254740992 in *. lia. }
      rewrite shr_fexp_keeps by (cbn [Zdigits2]; rewrite fexp_eq; lia).
      cbn [shr_m]. destruct (fe <=? emax - prec) eqn:Hb;
        [|apply Z.leb_gt in Hb; change (emax - prec) with 971 in Hb; lia].
      unfold SFleb, SFcompare.
      destruct (Z.compare_spec (-46) fe); first [lia | done].
    + assert (p1 = 9007199254740992%positive) as -> by lia.
      unfold shr_fexp. change (Zdigits2 9007199254740992) with 54.
      cbn [shr_record_of_loc]. rewrite fexp_eq.
      replace (Z.max (54 + fe - 53) (-1074) - fe) with 1 by lia.
      cbn [shr SpecFloat.iter_pos shr_1 shr_m].
      destruct (fe + 1 <=? emax - prec) eqn:Hb;
        [|apply Z.leb_gt in Hb; change (emax - prec) with 971 in Hb; lia].
      unfold SFleb, SFcompare.
      destruct (Z.compare_spec (-46) (fe + 1)) as [Heq|Hlt'|Hgt]; [|lia|done].
      rewrite Pos.compare_cont_spec. cbn [Pos.switch_Eq].
      rewrite Pos2Z.inj_compare.
      destruct (Z.compare_spec (Z.pos t) 4503599627370496) as [Heq'|Hlt'|Hgt'];
        [lia|lia|reflexivity].
Qed.

(** The mantissa of [100] is [25 * 2^48]. *)
Lemma round_in_binade_of_64 (m : positive) :
  144115188075855872 <= 25 * Z.pos m -> Z.pos m < 9007199254740992 ->
  binary_round_aux prec emax false (Z.pos (m * 7036874417766400)) (-99) loc_Exact =
  S754_finite false (Z.to_pos (round_25_32 (Z.pos m))) (-46).
Proof.
  intros Hlo Hhi.
  set (M := (m * 7036874417766400)%positive).
  assert (Z.pos M = Z.pos m * 7036874417766400) as HM by (unfold M; lia).
  assert (Z.pos (digits2_pos M) = 106) as Hd.
  { apply digits2_pos_unique.
    change (2 ^ (106 - 1)) with 40564819207303340847894502572032.
    change (2 ^ 106) with 81129638414606681695789005144064. lia. }
  assert (fexp prec emax (Z.pos (digits2_pos M) + -99) = -46) as Hfe
    by (rewrite Hd; reflexivity).
  destruct (shr_fexp_shifts M (-99)) as (mrs & Hshr & Hmrs); [rewrite Hfe; lia|].
  rewrite Hfe in Hshr, Hmrs. change (2 ^ (-46 - -99)) with 9007199254740992 in Hmrs.
  unfold binary_round_aux. rewrite Hshr.
  destruct Hmrs as (rem & Hrem & Hq & Hsplit & Hr & Hs).
  destruct mrs as [q r s]. cbn [shr_m shr_r shr_s] in *.
  assert (q = 25 * Z.pos m / 32) as Hqdiv.
  { apply (Z.div_unique_pos _ _ q (25 * Z.pos m - 32 * q)); lia. }
  assert (25 * Z.pos m - 32 * q = (25 * Z.pos m) mod 32) as Hrho.
  { apply (Z.mod_unique_pos _ _ q); lia. }
  assert (round_nearest_even q (loc_of_shr_record (Build_shr_record q r s)) =
          round_25_32 (Z.pos m)) as ->.
  { unfold round_25_32. rewrite <- Hqdiv, <- Hrho.
    destruct (Z.ltb_spec (25 * Z.pos m - 32 * q) 16) as [Hlt|Hge].
    - assert (r = false) as -> by (destruct r; [|done]; lia).
      by destruct s.
    - assert (r = true) as -> by (apply Hr; lia).
      destruct (Z.eqb_spec (25 * Z.pos m - 32 * q) 16) as [Heq|Hne].
      + assert (s = false) as -> by (destruct s; [|done]; lia). done.
      + assert (s = true) as -> by (apply Hs; lia). done. }
  assert (4503599627370496 <= round_25_32 (Z.pos m) < 9007199254740992) as Hm1.
  { unfold round_25_32. rewrite <- Hqdiv.
    destruct (_ <? _); [lia|]. destruct (_ =? _); [destruct (Z.even q)|]; lia. }
  destruct (round_25_32 (Z.pos m)) as [|p1|p1]; [lia| |lia].
  assert (Z.pos (digits2_pos p1) = 53) as Hd1.
  { apply digits2_pos_unique.
    change (2 ^ (53 - 1)) with 4503599627370496.
    change (2 ^ 53) with 9007199254740992. lia. }
  rewrite shr_fexp_keeps by (cbn [Zdigits2]; rewrite Hd1; done).
  done.
Qed.

Lemma round_25_32_ge_80 (m : Z) :
  5629499534213120 <= round_25_32 m <-> 7205759403792793 <= m.
Proof.
  unfold round_25_32.
  pose proof (Z.div_mod (25 * m) 32 ltac:(lia)) as Hdm.
  pose proof (Z.mod_pos_bound (25 * m) 32 ltac:(lia)) as Hb.
  set (q := 25 * m / 32) in *. set (rho := (25 * m) mod 32) in *.
  destruct (Z.ltb_spec rho 16); [lia|].
  destruct (Z.eqb_spec rho 16); [|lia].
  destruct (Z.even q) eqn:He.
  - apply Z.even_spec in He as [k Hk]. lia.
  - rewrite <- Z.negb_odd in He. apply negb_false_iff, Z.odd_spec in He as [k Hk]. lia.
Qed.

Lemma round_25_32_ge_95 (m : Z) :
  6685030696878080 <= round_25_32 m <-> 8556839292003942 <= m.
Proof.
  unfold round_25_32.
  pose proof (Z.div_mod (25 * m) 32 ltac:(lia)) as Hdm.
  pose proof (Z.mod_pos_bound (25 * m) 32 ltac:(lia)) as Hb.
  set (q := 25 * m / 32) in *. set (rho := (25 * m) mod 32) in *.
  destruct (Z.ltb_spec rho 16); [lia|].
  destruct (Z.eqb_spec rho 16); [|lia].
  destruct (Z.even q) eqn:He.
  - apply Z.even_spec in He as [k Hk]. lia.
  - rewrite <- Z.negb_odd in He. apply negb_false_iff, Z.odd_spec in He as [k Hk]. lia.
Qed.

Lemma SFleb_finite (m1 m2 : positive) (e1 e2 : Z) :
  SFleb (S754_finite false m1 e1) (S754_finite false m2 e2) =
  (e1 <? e2) || ((e1 =? e2) && (Z.pos m1 <=? Z.pos m2)).
Proof.
  unfold SFleb, SFcompare. rewrite Pos.compare_cont_spec. cbn [Pos.switch_Eq].
  destruct (Z.compare_spec e1 e2) as [->|Hlt|Hgt].
  - rewrite Z.ltb_irrefl, Z.eqb_refl. simpl.
    destruct (Pos.compare_spec m1 m2), (Z.leb_spec (Z.pos m1) (Z.pos m2)); try done; lia.
  - by apply Z.ltb_lt in Hlt as ->.
  - destruct (Z.ltb_spec e1 e2), (Z.eqb_spec e1 e2); try done; lia.
Qed.

(** A valid finite double has a 53-bit mantissa, or fewer bits at the lowest
    exponent. *)
Lemma bounded_canonical (m : positive) (e : Z) :
  bounded prec emax m e = true ->
  -1074 <= e /\ Z.pos (digits2_pos m) <= 53 /\
  (Z.pos (digits2_pos m) = 53 \/ e = -1074).
Proof.
  unfold bounded, canonical_mantissa. rewrite andb_true_iff, Z.eqb_eq, fexp_eq. lia.
Qed.

(** The number of digits of a mantissa times the mantissa of 100. *)
Lemma digits_times_100 (m : positive) :
  Z.pos (digits2_pos m) + 52 <= Z.pos (digits2_pos (m * 7036874417766400)) <=
  Z.pos (digits2_pos m) + 53.
Proof.
  pose proof (digits2_pos_bounds m) as [Hlo Hhi].
  pose proof (digits2_pos_bounds (m * 7036874417766400)) as [Hlo' Hhi'].
  set (d := Z.pos (digits2_pos m)) in *.
  set (D := Z.pos (digits2_pos (m * 7036874417766400))) in *.
  assert (Z.pos (m * 7036874417766400) = Z.pos m * 7036874417766400) as HM by lia.
  rewrite HM in *. clear HM.
  assert (0 < d) by (unfold d; lia). assert (0 < D) by (unfold D; lia).
  split.
  - destruct (Z_lt_le_dec D (d + 52)) as [Hlt|]; [|done]. exfalso.
    assert (2 ^ D <= 2 ^ (d + 51)) as Hp by (apply Z.pow_le_mono_r; lia).
    replace (d + 51) with ((d - 1) + 52) in Hp by lia.
    rewrite Z.pow_add_r in Hp by lia.
    change (2 ^ 52) with 4503599627370496 in Hp. nia.
  - destruct (Z_lt_le_dec (d + 53) D) as [Hlt|]; [|lia]. exfalso.
    assert (2 ^ (d + 53) <= 2 ^ (D - 1)) as Hp by (apply Z.pow_le_mono_r; lia).
    rewrite Z.pow_add_r in Hp by lia.
    change (2 ^ 53) with 9007199254740992 in Hp. nia.
Qed.

(** Below one half: the product is below 64. *)
Lemma badge_below_half (m : positive) (e : Z) :
  bounded prec emax m e = true -> e < -53 ->
  badge_of_percent (times_100 (S754_finite false m e)) =
  badge_of_confidence (S754_finite false m e).
Proof.
  intros Hvalid Hlow.
  apply bounded_canonical in Hvalid as (Hemin & Hd53 & Hcanon).
  pose proof (digits_times_100 m) as [HDlo HDhi].
  unfold badge_of_percent, badge_of_confidence, times_100. cbn [SFmul xorb].
  rewrite !round_below_64; try (rewrite fexp_eq); try lia.
  rewrite !SFleb_finite.
  destruct (Z.ltb_spec (-53) e), (Z.eqb_spec (-53) e); try lia. reflexivity.
Qed.

(** Between one half and one. *)
Lemma badge_in_upper_half (m : positive) :
  4503599627370496 <= Z.pos m < 9007199254740992 ->
  badge_of_percent (times_100 (S754_finite false m (-53))) =
  badge_of_confidence (S754_finite false m (-53)).
Proof.
  intros [Hmlo Hmhi].
  unfold badge_of_percent, badge_of_confidence, times_100. cbn [SFmul xorb].
  change (-53 + -46) with (-99).
  rewrite !(SFleb_finite _ m), Z.ltb_irrefl, Z.eqb_refl. cbn [orb andb].
  destruct (Z_lt_le_dec (25 * Z.pos m) 144115188075855872) as [Hsmall|Hbig].
  - assert (Z.pos (digits2_pos (m * 7036874417766400)) = 105) as HD.
    { apply digits2_pos_unique.
      change (2 ^ (105 - 1)) with 20282409603651670423947251286016.
      change (2 ^ 105) with 40564819207303340847894502572032. lia. }
    rewrite !round_below_64; try (rewrite HD); try (rewrite fexp_eq); try lia.
    destruct (Z.leb_spec 8556839292003942 (Z.pos m)),
             (Z.leb_spec 7205759403792793 (Z.pos m)); try lia. reflexivity.
  - rewrite round_in_binade_of_64 by lia.
    rewrite !SFleb_finite, Z.ltb_irrefl, Z.eqb_refl. cbn [orb andb].
    assert (0 < round_25_32 (Z.pos m)) as Hpos.
    { unfold round_25_32.
      pose proof (Z.div_mod (25 * Z.pos m) 32 ltac:(lia)) as Hdm.
      pose proof (Z.mod_pos_bound (25 * Z.pos m) 32 ltac:(lia)) as Hb.
      set (q := 25 * Z.pos m / 32) in *. set (rho := (25 * Z.pos m) mod 32) in *.
      destruct (rho <? 16); [lia|].
      destruct (rho =? 16); [destruct (Z.even q)|]; lia. }
    rewrite !Z2Pos.id by exact Hpos.
    pose proof (round_25_32_ge_80 (Z.pos m)) as H80.
    pose proof (round_25_32_ge_95 (Z.pos m)) as H95.
    destruct (Z.leb_spec 6685030696878080 (round_25_32 (Z.pos m))),
             (Z.leb_spec 5629499534213120 (round_25_32 (Z.pos m))),
             (Z.leb_spec 8556839292003942 (Z.pos m)),
             (Z.leb_spec 7205759403792793 (Z.pos m)); try lia; reflexivity.
Qed.

(** The badge of a valid double between 0 and 1, from its mantissa and
    exponent. *)
Lemma badge_at_one :
  badge_of_percent (times_100 (S754_finite false 4503599627370496 (-52))) =
  badge_of_confidence (S754_finite false 4503599627370496 (-52)).
Proof. by vm_compute. Qed.

Lemma badge_of_unit_interval (x : spec_float) :
  SpecFloat.valid_binary prec emax x = true ->
  SFleb (S754_zero false) x = true ->
  SFleb x (S754_finite false 4503599627370496 (-52)) = true ->
  badge_of_percent (times_100 x) = badge_of_confidence x.
Proof.
  intros Hvalid H0 H1.
  destruct x as [s|s| |s m e].
  - by destruct s.
  - by destruct s.
  - done.
  - destruct s; [done|]. clear H0.
    pose proof (bounded_canonical m e Hvalid) as (Hemin & Hd53 & Hcanon).
    pose proof (digits2_pos_bounds m) as [Hmlo Hmhi].
    rewrite SFleb_finite in H1.
    destruct (Z.lt_trichotomy e (-53)) as [Hlow|[->|Hhigh]].
    + by apply badge_below_half.
    + apply badge_in_upper_half.
      destruct Hcanon as [Hd|]; [|lia]. rewrite Hd in Hmlo, Hmhi.
      change (2 ^ (53 - 1)) with 4503599627370496 in Hmlo.
      change (2 ^ 53) with 9007199254740992 in Hmhi. lia.
    + apply orb_true_iff in H1 as [H1|H1]; [apply Z.ltb_lt in H1; lia|].
      apply andb_true_iff in H1 as [He Hm].
      apply Z.eqb_eq in He. apply Z.leb_le in Hm. subst e.
      destruct Hcanon as [Hd|]; [|lia]. rewrite Hd in Hmlo.
      change (2 ^ (53 - 1)) with 4503599627370496 in Hmlo.
      assert (Z.pos m = 4503599627370496) as Hm' by lia.
      injection Hm' as ->. exact badge_at_one.
Qed.

Lemma getConfidenceBadge_spec (confidence : float) :
  Results.getConfidenceBadge confidence =
  badge_of_percent (times_100 (Prim2SF confidence)).
Proof.
  unfold Results.getConfidenceBadge, badge_of_percent, times_100. cbv zeta.
  rewrite !leb_spec, mul_spec. reflexivity.
Qed.

(** C1 (as the code has it).  On every double between 0 and 1 the badge is
    High Confidence from 0.95 on (the double nearest to 0.95), Medium from
    0.7999999999999999 on (the double just below the one nearest to 0.80) and
    below 0.95, and Review Needed below that: one tier for each confidence,
    the two bounds belonging to the higher tier. *)
Theorem getConfidenceBadge_thresholds (confidence : float) :
  (0 <=? confidence)%float = true ->
  (confidence <=? 1)%float = true ->
  Results.getConfidenceBadge confidence =
    if (0x1.e666666666666p-1 <=? confidence)%float then Results.HighConfidence
    else if (0x1.9999999999999p-1 <=? confidence)%float then Results.Medium
    else Results.ReviewNeeded.
Proof.
  intros H0 H1. rewrite getConfidenceBadge_spec. rewrite !leb_spec in *.
  apply badge_of_unit_interval; [apply Prim2SF_valid|exact H0|exact H1].
Qed.

Lemma getConfidenceBadge_thresholds_witness :
  Results.getConfidenceBadge 0x1.999999999999ap-1 = Results.Medium /\
  Results.getConfidenceBadge 0x1.e666666666666p-1 = Results.HighConfidence.
Proof.
  split.
  - exact (getConfidenceBadge_thresholds 0x1.999999999999ap-1 eq_refl eq_refl).
  - exact (getConfidenceBadge_thresholds 0x1.e666666666666p-1 eq_refl eq_refl).
Defined.

End Binary64Facts.

(** ** The percentage of an upload in binary64 *)
Section PercentFacts.
Import Js Client Binary64.
Local Open Scope Z_scope.

Lemma Pos_iter_xO (n p : positive) : Z.pos (Pos.iter xO p n) = Z.pos p * 2 ^ Z.pos n.
Proof.
  revert p. induction n as [|n IH] using Pos.peano_ind; intros p.
  - simpl. lia.
  - rewrite Pos.iter_succ. rewrite Pos2Z.inj_xO, IH, Pos2Z.inj_succ, Z.pow_succ_r by lia. lia.
Qed.

Lemma pow2_pos (a : Z) : 0 <= a -> 0 < 2 ^ a.
Proof. intros. apply Z.pow_pos_nonneg; lia. Qed.

Lemma digits_below_2_53 (p : positive) :
  Z.pos p < 9007199254740992 ->
  1 <= Z.pos (digits2_pos p) <= 53 /\
  4503599627370496 <= Z.pos p * 2 ^ (53 - Z.pos (digits2_pos p)) < 9007199254740992.
Proof.
  intros Hp. pose proof (digits2_pos_bounds p) as [Hlo Hhi].
  set (d := Z.pos (digits2_pos p)) in *.
  assert (1 <= d) as Hd1 by (unfold d; lia).
  assert (d <= 53) as Hd53.
  { destruct (Z_lt_le_dec 53 d) as [Hbig|]; [|done].
    assert (2 ^ 53 <= 2 ^ (d - 1)) by (apply Z.pow_le_mono_r; lia).
    change (2 ^ 53) with 9007199254740992 in *. lia. }
  split; [done|].
  assert (2 ^ (d - 1) * 2 ^ (53 - d) = 4503599627370496) as H52
    by (rewrite <- Z.pow_add_r by lia; replace (d - 1 + (53 - d)) with 52 by lia; done).
  assert (2 ^ d * 2 ^ (53 - d) = 9007199254740992) as H53
    by (rewrite <- Z.pow_add_r by lia; replace (d + (53 - d)) with 53 by lia; done).
  pose proof (pow2_pos (53 - d) ltac:(lia)). nia.
Qed.

(** An integer below 2^53, written with [k] extra binary places, rounds to
    itself. *)
Lemma round_canonical (v : positive) (k : Z) :
  Z.pos v < 9007199254740992 -> 53 - Z.pos (digits2_pos v) <= k ->
  binary_round_aux prec emax false (Z.pos v * 2 ^ k) (- k) loc_Exact = canonical (Z.pos v).
Proof.
  intros Hv Hk. destruct (digits_below_2_53 v Hv) as [Hd Hm].
  set (d := Z.pos (digits2_pos v)) in *.
  set (m := Z.pos v * 2 ^ (53 - d)) in *.
  assert (0 <= k) as Hk0 by lia.
  assert (Z.pos v * 2 ^ k = m * 2 ^ (k - (53 - d))) as HM.
  { unfold m. rewrite <- Z.mul_assoc, <- Z.pow_add_r by lia. f_equal. f_equal. lia. }
  assert (canonical (Z.pos v) = S754_finite false (Z.to_pos m) (d - 53)) as -> by done.
  destruct m as [|pm|pm] eqn:Em; [lia| |lia].
  assert (Z.pos (digits2_pos pm) = 53) as Hdm.
  { apply digits2_pos_unique.
    change (2 ^ (53 - 1)) with 4503599627370496.
    change (2 ^ 53) with 9007199254740992. lia. }
  assert (forall E, -1074 <= E <= 971 -> E = d - 53 ->
            (let '(mrs, e) := shr_fexp prec emax (Z.pos pm) E loc_Exact in
             match shr_m mrs with
             | 0 => S754_zero false
             | Z.pos m0 => if e <=? emax - prec then S754_finite false m0 e
                           else S754_infinity false
             | Z.neg _ => S754_nan
             end) = S754_finite false pm (d - 53)) as Hfin.
  { intros E HE ->. rewrite shr_fexp_keeps by (cbn [Zdigits2]; rewrite Hdm, fexp_eq; lia).
    cbn [shr_m]. destruct (Z.leb_spec (d - 53) (emax - prec)) as [|Hbad]; [done|].
    change (emax - prec) with 971 in Hbad. lia. }
  unfold binary_round_aux.
  destruct (Z.eq_dec k (53 - d)) as [->|Hne].
  - rewrite HM. replace (53 - d - (53 - d)) with 0 by lia. rewrite Z.mul_1_r.
    rewrite shr_fexp_keeps by (cbn [Zdigits2]; rewrite Hdm, fexp_eq; lia).
    cbn [shr_m loc_of_shr_record round_nearest_even].
    replace (- (53 - d)) with (d - 53) by lia. cbn [Z.to_pos]. apply Hfin; lia.
  - set (t := k - (53 - d)) in *. assert (0 < t) as Ht by lia.
    pose proof (pow2_pos t ltac:(lia)) as HP.
    destruct (Z.pos v * 2 ^ k) as [|M|M] eqn:EM; [lia| |lia].
    assert (Z.pos (digits2_pos M) = 53 + t) as HD.
    { apply digits2_pos_unique. rewrite HM.
      replace (53 + t - 1) with (52 + t) by lia. rewrite !Z.pow_add_r by lia.
      change (2 ^ 52) with 4503599627370496. change (2 ^ 53) with 9007199254740992. nia. }
    assert (fexp prec emax (Z.pos (digits2_pos M) + - k) = d - 53) as Hfe
      by (rewrite HD, fexp_eq; lia).
    destruct (shr_fexp_shifts M (- k)) as (mrs & Hshr & Hmrs); [rewrite Hfe; lia|].
    rewrite Hfe in Hshr, Hmrs. replace (d - 53 - - k) with t in Hmrs by lia.
    rewrite Hshr. destruct Hmrs as (rem & Hrem & Hq & Hsplit & Hr & Hs).
    destruct mrs as [q r s]. cbn [shr_m shr_r shr_s] in *.
    assert (q = Z.pos pm /\ rem = 0) as [-> ->].
    { rewrite HM in Hsplit. set (P := 2 ^ t) in *. clearbody P.
      assert (rem = (Z.pos pm - q) * P) as Hrem' by lia.
      assert (Z.pos pm - q = 0) by nia. lia. }
    assert (r = false) as -> by (destruct r; [|done]; lia).
    assert (s = false) as -> by (destruct s; [|done]; lia).
    cbn [loc_of_shr_record round_nearest_even Z.to_pos]. apply Hfin; lia.
Qed.

Lemma Number_canonical (z : Z) :
  0 <= z < 9007199254740992 -> Number z = canonical z.
Proof.
  intros Hz. destruct z as [|p|p]; [done| |lia].
  destruct (digits_below_2_53 p ltac:(lia)) as [Hd Hm].
  unfold Number, binary_normalize, binary_round, shl_align.
  rewrite fexp_eq. set (d := Z.pos (digits2_pos p)) in *.
  replace (Z.max (d + 0 - 53) (-1074) - 0) with (d - 53) by lia.
  destruct (d - 53) as [|t|t] eqn:Et; [| lia |].
  - replace (Z.pos p) with (Z.pos p * 2 ^ 0) at 1 by lia.
    change 0 with (- 0) at 2. apply round_canonical; [lia|fold d; lia].
  - rewrite Pos_iter_xO. replace (Z.max (d + 0 - 53) (-1074)) with (- Z.pos t) by lia.
    apply round_canonical; [lia|fold d; lia].
Qed.


Lemma digits_mono (p q : positive) :
  (p <= q)%positive -> Z.pos (digits2_pos p) <= Z.pos (digits2_pos q).
Proof.
  intros Hpq. pose proof (digits2_pos_bounds p) as [Hlo _].
  pose proof (digits2_pos_bounds q) as [_ Hhi].
  destruct (Z_lt_le_dec (Z.pos (digits2_pos q)) (Z.pos (digits2_pos p))) as [Hlt|]; [|done].
  assert (2 ^ Z.pos (digits2_pos q) <= 2 ^ (Z.pos (digits2_pos p) - 1))
    by (apply Z.pow_le_mono_r; lia).
  lia.
Qed.

Lemma times_100_canonical (n : Z) :
  0 <= n -> n * 100 < 9007199254740992 ->
  SFmul prec emax (canonical n) (Number 100) = canonical (n * 100).
Proof.
  intros Hn Hv. destruct n as [|p|p]; [done| |lia].
  destruct (digits_below_2_53 p ltac:(lia)) as [Hd Hm].
  change (Number 100) with (S754_finite false 7036874417766400 (-46)).
  unfold canonical at 1. cbn [SFmul xorb].
  set (d := Z.pos (digits2_pos p)) in *.
  set (m := Z.pos p * 2 ^ (53 - d)) in *.
  destruct m as [|pm|pm] eqn:Em; [lia| |lia]. cbn [Z.to_pos].
  change (Z.pos p * 100) with (Z.pos (p * 100)).
  rewrite <- (round_canonical (p * 100) (99 - d)).
  - f_equal; [|lia]. rewrite Pos2Z.inj_mul, <- Em. unfold m.
    replace (99 - d) with (53 - d + 46) by lia. rewrite Z.pow_add_r by lia.
    change (2 ^ 46) with 70368744177664. lia.
  - lia.
  - pose proof (digits_mono p (p * 100) ltac:(lia)). fold d in H. lia.
Qed.

Lemma new_location_shifted (m2 q r : Z) :
  0 < m2 -> 0 <= r < m2 -> 0 <= q ->
  shifted m2 (q * m2 + r) (shr_record_of_loc q (new_location m2 r)).
Proof.
  intros Hm Hr Hq. exists r. unfold new_location.
  destruct (Z.even m2) eqn:Heven.
  - unfold new_location_even. destruct (Z.eqb_spec r 0) as [->|Hne].
    + cbn. split_and!; first [lia | done | split; intros; first [lia | done]].
    + destruct (Z.compare_spec (2 * r) m2); cbn;
        split_and!; first [lia | done | split; intros; first [lia | done]].
  - unfold new_location_odd. destruct (Z.eqb_spec r 0) as [->|Hne].
    + cbn. split_and!; first [lia | done | split; intros; first [lia | done]].
    + rewrite <- Z.negb_odd in Heven. apply negb_false_iff, Z.odd_spec in Heven as [j Hj].
      destruct (Z.compare_spec (2 * r + 1) m2); cbn;
        split_and!; first [lia | done | split; intros; first [lia | done]].
Qed.

Lemma rne_of_shifted (P N : Z) (mrs : shr_record) :
  shifted P N mrs ->
  exists rem, N = shr_m mrs * P + rem /\ 0 <= rem < P /\ 0 <= shr_m mrs /\
    (round_nearest_even (shr_m mrs) (loc_of_shr_record mrs) = shr_m mrs \/
     (round_nearest_even (shr_m mrs) (loc_of_shr_record mrs) = shr_m mrs + 1 /\
      P <= 2 * rem)).
Proof.
  intros (rem & Hrem & Hq & Hsplit & Hr & Hs).
  exists rem.
  split; [exact Hsplit|]. split; [exact Hrem|]. split; [exact Hq|].
  destruct mrs as [q r s]. cbn [shr_m shr_r shr_s] in *.
  destruct r.
  - assert (P <= 2 * rem) as Hhalf by (by apply Hr).
    destruct s; cbn [loc_of_shr_record round_nearest_even].
    + right. split; [reflexivity|exact Hhalf].
    + destruct (Z.even q); [left; reflexivity|right; split; [reflexivity|exact Hhalf]].
  - left. by destruct s.
Qed.

(** The arithmetic of the last step: a quotient rounded to the nearest
    multiple of [1/G], with [G] above the divisor, stays on its side of the
    half-integers. *)
Lemma rounded_quotient_half_integers (v d N P G' qs rem mr : Z) :
  0 <= v -> 0 < d -> 0 < P -> d < 2 * G' ->
  v * P * (2 * G') = N * d ->
  N = qs * P + rem -> 0 <= rem < P -> 0 <= qs ->
  (mr = qs \/ (mr = qs + 1 /\ P <= 2 * rem)) ->
  let k := (2 * v + d) / (2 * d) in
  (2 * k - 1) * G' <= mr < (2 * k + 1) * G'.
Proof.
  intros Hv Hd HP HG Hid HN Hrem Hqs Hmr k.
  assert (2 * d * k <= 2 * v + d < 2 * d * k + 2 * d) as [Hk1 Hk2].
  { unfold k. pose proof (Z.mul_div_le (2 * v + d) (2 * d) ltac:(lia)).
    pose proof (Z.mul_succ_div_gt (2 * v + d) (2 * d) ltac:(lia)). lia. }
  assert (0 < G') as HG' by lia.
  assert (0 <= k) as Hk0 by (unfold k; apply Z.div_pos; lia).
  (* 2 N d = 2 v P G, with G = 2 G' *)
  assert ((2 * k - 1) * G' * P * d <= N * d) as Hlow.
  { rewrite <- Hid. 
    assert ((2 * k - 1) * d <= 2 * v) by lia.
    assert (0 <= P * G') by nia.
    replace ((2 * k - 1) * G' * P * d) with (((2 * k - 1) * d) * (P * G')) by ring.
    replace (v * P * (2 * G')) with ((2 * v) * (P * G')) by ring.
    apply Z.mul_le_mono_nonneg_r; lia. }
  assert (N * d + P * G' <= (2 * k + 1) * G' * P * d) as Hup.
  { rewrite <- Hid.
    assert (2 * v + 1 <= (2 * k + 1) * d) by lia.
    assert (0 <= P * G') by nia.
    replace ((2 * k + 1) * G' * P * d) with (((2 * k + 1) * d) * (P * G')) by ring.
    replace (v * P * (2 * G') + P * G') with ((2 * v + 1) * (P * G')) by ring.
    apply Z.mul_le_mono_nonneg_r; lia. }
  assert ((2 * k - 1) * G' * P <= N) as Hlow' by nia.
  split.
  - (* (2k-1) G' P <= N < (qs + 1) P *)
    assert ((2 * k - 1) * G' < qs + 1) by nia.
    destruct Hmr as [->|[-> _]]; lia.
  - destruct (Z_lt_le_dec mr ((2 * k + 1) * G')) as [|Hge]; [done|exfalso].
    destruct Hmr as [->|[-> Hhalf]].
    + assert ((2 * k + 1) * G' * P <= N) by nia.
      assert ((2 * k + 1) * G' * P * d <= N * d) by nia.
      assert (0 < P * G') by nia. lia.
    + assert (((2 * k + 1) * G' - 1) * P <= qs * P) by nia.
      assert ((2 * ((2 * k + 1) * G') - 1) * P <= 2 * N) by lia.
      assert ((2 * ((2 * k + 1) * G') - 1) * P * d <= 2 * N * d) by nia.
      assert (P * d < 2 * (P * G')) by nia.
      lia.
Qed.


Lemma Math_round_value (m : positive) (e k : Z) :
  e <= 0 ->
  (2 * k - 1) * 2 ^ (- e) <= 2 * Z.pos m < (2 * k + 1) * 2 ^ (- e) ->
  Math_round (S754_finite false m e) = k.
Proof.
  intros He Hk. unfold Math_round.
  destruct (Z.leb_spec 0 e) as [H0|Hneg].
  - assert (e = 0) as -> by lia. change (2 ^ (- 0)) with 1 in Hk. change (2 ^ 0) with 1. lia.
  - replace (1 - e) with (- e + 1) by lia. rewrite Z.pow_add_r by lia.
    pose proof (pow2_pos (- e) ltac:(lia)) as HG. set (G := 2 ^ (- e)) in *.
    change (2 ^ 1) with 2. symmetry.
    apply (Z.div_unique _ _ k (2 * Z.pos m + G - G * 2 * k)); lia.
Qed.

(** The second half of [binary_round_aux], after the first shift left [mrs]
    at the exponent [er]. *)
Lemma rounded_quotient (v d N P G' er : Z) (mrs : shr_record) :
  0 <= v -> 0 < d -> 0 < P -> d < 2 * G' ->
  v * P * (2 * G') = N * d ->
  shifted P N mrs ->
  4503599627370496 <= shr_m mrs < 9007199254740992 ->
  -1074 <= er < 0 -> 2 ^ (- er) = 2 * G' ->
  Math_round
    (let '(mrs2, e2) :=
       shr_fexp prec emax (round_nearest_even (shr_m mrs) (loc_of_shr_record mrs))
                er loc_Exact in
     match shr_m mrs2 with
     | 0 => S754_zero false
     | Z.pos m => if e2 <=? emax - prec then S754_finite false m e2
                  else S754_infinity false
     | Z.neg _ => S754_nan
     end) = (2 * v + d) / (2 * d).
Proof.
  intros Hv Hd HP HG Hid Hsh Hq Her HGe.
  destruct (rne_of_shifted P N mrs Hsh) as (rem & HN & Hrem & Hqs & Hmr).
  pose proof (rounded_quotient_half_integers v d N P G' (shr_m mrs) rem _
                Hv Hd HP HG Hid HN Hrem Hqs Hmr) as Hk.
  cbv zeta in Hk.
  set (mr := round_nearest_even (shr_m mrs) (loc_of_shr_record mrs)) in *.
  set (k := (2 * v + d) / (2 * d)) in *.
  assert (4503599627370496 <= mr <= 9007199254740992) as Hmrb
    by (destruct Hmr as [->|[-> _]]; lia).
  destruct mr as [|pr|pr] eqn:Emr; [lia| |lia].
  destruct (Z_lt_le_dec (Z.pos pr) 9007199254740992) as [Hlt|Hge].
  - assert (Z.pos (digits2_pos pr) = 53) as Hd1.
    { apply digits2_pos_unique.
      change (2 ^ (53 - 1)) with 4503599627370496.
      change (2 ^ 53) with 9007199254740992. lia. }
    rewrite shr_fexp_keeps by (cbn [Zdigits2]; rewrite Hd1, fexp_eq; lia).
    cbn [shr_m]. destruct (Z.leb_spec er (emax - prec)) as [_|Hbad];
      [|change (emax - prec) with 971 in Hbad; lia].
    apply Math_round_value; [lia|]. rewrite HGe. lia.
  - assert (pr = 9007199254740992%positive) as -> by lia.
    unfold shr_fexp. change (Zdigits2 9007199254740992) with 54.
    cbn [shr_record_of_loc]. rewrite fexp_eq.
    replace (Z.max (54 + er - 53) (-1074) - er) with 1 by lia.
    cbn [shr SpecFloat.iter_pos shr_1 shr_m].
    destruct (Z.leb_spec (er + 1) (emax - prec)) as [_|Hbad];
      [|change (emax - prec) with 971 in Hbad; lia].
    apply Math_round_value; [lia|].
    assert (2 ^ (- (er + 1)) = G') as ->.
    { replace (- er) with (- (er + 1) + 1) in HGe by lia.
      rewrite Z.pow_add_r in HGe by lia. change (2 ^ 1) with 2 in HGe. lia. }
    lia.
Qed.


Lemma Math_round_quotient_canonical (v d : positive) :
  Z.pos v < 4503599627370496 -> Z.pos d < 9007199254740992 ->
  Math_round (SFdiv prec emax (canonical (Z.pos v)) (canonical (Z.pos d))) =
  (2 * Z.pos v + Z.pos d) / (2 * Z.pos d).
Proof.
  intros Hv Hd.
  destruct (digits_below_2_53 v ltac:(lia)) as [Hdv Hm1].
  destruct (digits_below_2_53 d Hd) as [Hdd Hm2].
  pose proof (digits2_pos_bounds v) as [Hvlo _].
  pose proof (digits2_pos_bounds d) as [_ Hdhi].
  set (dv := Z.pos (digits2_pos v)) in *. set (dd := Z.pos (digits2_pos d)) in *.
  assert (dv <= 52) as Hdv52.
  { destruct (Z_lt_le_dec 52 dv) as [Hbig|]; [|lia].
    assert (2 ^ 52 <= 2 ^ (dv - 1)) by (apply Z.pow_le_mono_r; lia).
    change (2 ^ 52) with 4503599627370496 in *. lia. }
  unfold canonical. fold dv dd.
  set (m1 := Z.pos v * 2 ^ (53 - dv)) in *. set (m2 := Z.pos d * 2 ^ (53 - dd)) in *.
  destruct m1 as [|p1|p1] eqn:Em1; [lia| |lia].
  destruct m2 as [|p2|p2] eqn:Em2; [lia| |lia].
  cbn [Z.to_pos SFdiv xorb].
  assert (Z.pos (digits2_pos p1) = 53 /\ Z.pos (digits2_pos p2) = 53) as [Hd1 Hd2].
  { split; apply digits2_pos_unique;
      change (2 ^ (53 - 1)) with 4503599627370496;
      change (2 ^ 53) with 9007199254740992; lia. }
  unfold SFdiv_core_binary. cbn [Zdigits2]. rewrite Hd1, Hd2, fexp_eq.
  replace (Z.min (Z.max (53 + (dv - 53) - (53 + (dd - 53)) - 53) (-1074))
                 (dv - 53 - (dd - 53))) with (dv - dd - 53) by lia.
  replace (dv - 53 - (dd - 53) - (dv - dd - 53)) with 53 by lia.
  cbv iota. rewrite Z.shiftl_mul_pow2 by lia.
  change (2 ^ 53) with 9007199254740992.
  set (N := Z.pos p1 * 9007199254740992).
  pose proof (Z_div_mod N (Z.pos p2) ltac:(lia)) as Hdiv.
  destruct (Z.div_eucl N (Z.pos p2)) as [q r]. destruct Hdiv as [HN Hr].
  assert (4503599627370496 <= q < 18014398509481984) as Hq by (unfold N in HN; nia).
  unfold binary_round_aux.
  pose proof (new_location_shifted (Z.pos p2) q r ltac:(lia) Hr ltac:(lia)) as Hsh.
  replace (q * Z.pos p2 + r) with N in Hsh by lia.
  destruct q as [|pq|pq] eqn:Eq; [lia| |lia].
  (* the exponents: with [sigma] the first shift, [2^(106 - dv)] splits into
     the scale of the divisor, the shift and [G] *)
  assert (forall sigma, 0 <= sigma <= 1 ->
            let G' := 2 ^ (52 + dd - dv - sigma) in
            Z.pos d < 2 * G' /\
            Z.pos v * (Z.pos p2 * 2 ^ sigma) * (2 * G') = N * Z.pos d /\
            2 ^ (- (dv - dd - 53 + sigma)) = 2 * G') as Hscale.
  { intros sigma Hs G'.
    assert (2 * G' = 2 ^ (53 + dd - dv - sigma)) as HG2.
    { unfold G'. replace (53 + dd - dv - sigma) with (52 + dd - dv - sigma + 1) by lia.
      rewrite Z.pow_add_r by lia. change (2 ^ 1) with 2. lia. }
    split_and!.
    - rewrite HG2.
      assert (2 ^ dd <= 2 ^ (53 + dd - dv - sigma)) by (apply Z.pow_le_mono_r; lia). lia.
    - rewrite HG2. unfold N. rewrite <- Em1, <- Em2. unfold m1, m2.
      change 9007199254740992 with (2 ^ 53).
      assert (2 ^ (53 - dd) * 2 ^ sigma * 2 ^ (53 + dd - dv - sigma) =
              2 ^ (53 - dv) * 2 ^ 53) as Hpow.
      { rewrite <- !Z.pow_add_r by lia. f_equal. lia. }
      set (A := 2 ^ (53 - dd)) in *. set (B := 2 ^ sigma) in *.
      set (C := 2 ^ (53 + dd - dv - sigma)) in *. set (D := 2 ^ (53 - dv)) in *.
      set (E := 2 ^ 53) in *. clearbody A B C D E.
      replace (Z.pos v * (Z.pos d * A * B) * C) with (Z.pos v * Z.pos d * (A * B * C)) by ring.
      rewrite Hpow. ring.
    - rewrite HG2. f_equal. lia. }
  destruct (Z_lt_le_dec (Z.pos pq) 9007199254740992) as [Hlt|Hge].
  - assert (Z.pos (digits2_pos pq) = 53) as Hdq.
    { apply digits2_pos_unique.
      change (2 ^ (53 - 1)) with 4503599627370496.
      change (2 ^ 53) with 9007199254740992. lia. }
    unfold shr_fexp at 1. cbn [Zdigits2]. rewrite Hdq, fexp_eq.
    replace (Z.max (53 + (dv - dd - 53) - 53) (-1074) - (dv - dd - 53)) with 0 by lia.
    cbn [shr].
    destruct (Hscale 0 ltac:(lia)) as (HG & Hid & HGe).
    rewrite Z.add_0_r in HGe. change (2 ^ 0) with 1 in Hid. rewrite Z.mul_1_r in Hid.
    apply (rounded_quotient (Z.pos v) (Z.pos d) N (Z.pos p2) (2 ^ (52 + dd - dv - 0))
                            (dv - dd - 53)); try done; try lia.
    destruct (new_location (Z.pos p2) r) as [|[]]; cbn; lia.
  - assert (Z.pos (digits2_pos pq) = 54) as Hdq.
    { apply digits2_pos_unique.
      change (2 ^ (54 - 1)) with 9007199254740992.
      change (2 ^ 54) with 18014398509481984. lia. }
    unfold shr_fexp at 1. cbn [Zdigits2]. rewrite Hdq, fexp_eq.
    replace (Z.max (54 + (dv - dd - 53) - 53) (-1074) - (dv - dd - 53)) with 1 by lia.
    cbn [shr SpecFloat.iter_pos].
    destruct (Hscale 1 ltac:(lia)) as (HG & Hid & HGe).
    change (2 ^ 1) with 2 in Hid.
    apply (shr_1_shifted (Z.pos p2) N _ ltac:(lia)) in Hsh.
    replace (Z.pos p2 * 2) with (2 * Z.pos p2) in Hid by lia.
    apply (rounded_quotient (Z.pos v) (Z.pos d) N (2 * Z.pos p2) (2 ^ (52 + dd - dv - 1))
                            (dv - dd - 53 + 1)); try done; try lia.
    destruct (new_location (Z.pos p2) r) as [|[]]; destruct pq; cbn; lia.
Qed.

(** While [loaded * 100] is below 2^52 the binary64 computation gives the
    integer nearest to the exact quotient, a half upwards. *)
Lemma percentCompleted_exact (loaded total : Z) :
  0 <= loaded -> loaded * 100 < 4503599627370496 ->
  0 < total < 9007199254740992 ->
  percentCompleted loaded total = round_half_up (loaded * 100) total.
Proof.
  intros Hl Hv Ht. unfold percentCompleted, round_half_up.
  rewrite (Number_canonical loaded) by lia.
  rewrite times_100_canonical by lia.
  rewrite (Number_canonical total) by lia.
  destruct total as [|d|d]; [lia| |lia].
  destruct (loaded * 100) as [|v|v] eqn:Ev; [|apply Math_round_quotient_canonical; lia|lia].
  cbn. symmetry. apply Z.div_small. lia.
Qed.

End PercentFacts.

(** * Further properties of the code *)

(** ** The service client *)
Section ClientMore.
Import Js Client Upload Examples.
Local Open Scope Z_scope.

(** X1.  When [uploadPDF] turns a file down itself (not a PDF, or above the
    limit), its own message does not reach the caller: the [Error] it throws
    inside its [try] is not an axios error, so [handleApiError] replaces it,
    and the caller gets "An unexpected error occurred" with no request sent. *)
Theorem uploadPDF_masks_its_validation_message (f : File.t)
    (reply : Promise EstimateResponse.t) :
  File.type f <> "application/pdf" \/ 26214400 < File.size f ->
  uploadPDF f reply = ([], Throws (ThrownError "An unexpected error occurred")).
Proof.
  intros H. destruct (uploadPDF_begin_Throws f H) as (m & _ & Hb).
  unfold uploadPDF. by rewrite Hb.
Qed.

Lemma uploadPDF_masks_its_validation_message_witness :
  uploadPDF big_pdf (Returns summary) =
  ([], Throws (ThrownError "An unexpected error occurred")).
Proof.
  apply uploadPDF_masks_its_validation_message. right. vm_compute. reflexivity.
Defined.

(** X2.  Every operation hands the transport exactly one request, except
    [uploadPDF] on a file it turns down, which hands none.  The request is a
    POST with the file as form data for [uploadPDF], a DELETE for
    [deleteEstimate] and a GET for every other operation, and only the upload
    carries a file. *)
Theorem operations_send_one_request (op : Operation) (reply : Promise (body_of op)) :
  (fst (perform op reply) = [] <->
     exists f, op = OpUploadPDF f /\
       (File.type f <> "application/pdf" \/ 26214400 < File.size f)) /\
  (forall req, req ∈ fst (perform op reply) ->
     fst (perform op reply) = [req] /\
     (method req = POST <-> exists f, op = OpUploadPDF f) /\
     (method req = DELETE <-> exists id, op = OpDeleteEstimate id) /\
     (form_file req = match op with OpUploadPDF f => Some f | _ => None end)).
Proof.
  destruct op as [f| | | | | | | | | | ]; cbn [perform body_of value_of] in *.
  2-11: unfold getEstimate, listEstimates, deleteEstimate, exportEstimate,
           getEstimateSummary, searchMaterialPrices, getMaterialPrice,
           getMaterialCategories, getPricingStatistics, checkHealthStatus;
         cbv zeta; rewrite awaiting_settles; cbn [fst]; (split;
         [ split; [done|intros (? & ? & _); done]
         | intros req Hreq; apply list_elem_of_singleton in Hreq as ->;
           split; [done|]; cbn;
           repeat split; try done; try (intros [? ?]; done); eauto ]).
  destruct (validateFile f) as [m|] eqn:Hv.
  - assert (File.type f <> "application/pdf" \/ 26214400 < File.size f) as Hbad.
    { destruct (decide (File.type f = "application/pdf")) as [Ht|]; [|by left].
      right. destruct (Z_lt_le_dec 26214400 (File.size f)); [done|].
      assert (validateFile f = None) by (by apply validateFile_None). congruence. }
    destruct (uploadPDF_begin_Throws f Hbad) as (m' & _ & Hb).
    unfold uploadPDF. rewrite Hb. cbn [fst].
    split; [split; [by exists f|done]|]. intros req Hreq. by apply elem_of_nil in Hreq.
  - pose proof Hv as Hv'. apply uploadPDF_begin_Returns in Hv'.
    unfold uploadPDF. rewrite Hv'. rewrite awaiting_settles. cbn [fst].
    apply validateFile_None in Hv as [Ht Hs].
    split.
    + split; [done|]. intros (f' & [= <-] & [?|?]); [done|lia].
    + intros req Hreq. apply list_elem_of_singleton in Hreq as ->.
      split; [done|]. cbn. split_and!; try done.
      * split; [by exists f|done].
      * split; [done|]. intros [? ?]; done.
Qed.

Lemma operations_send_one_request_witness :
  fst (perform (OpDeleteEstimate "abc123") (Throws (ThrownOther JNull))) =
  [apiClient_delete "/api/estimate/abc123"].
Proof.
  refine (proj1 (proj2 (operations_send_one_request (OpDeleteEstimate "abc123")
                          (Throws (ThrownOther JNull)))
                   (apiClient_delete "/api/estimate/abc123") _)).
  apply list_elem_of_singleton. reflexivity.
Defined.

End ClientMore.

(** ** The upload page *)
Section UploadMore.
Import Js Client Upload Examples.
Local Open Scope Z_scope.

Lemma round_half_up_nearest (n d : Z) :
  0 < d ->
  2 * d * round_half_up n d - d <= 2 * n < 2 * d * round_half_up n d + d.
Proof.
  intros Hd. unfold round_half_up.
  pose proof (Z.mul_div_le (2 * n + d) (2 * d) ltac:(lia)).
  pose proof (Z.mul_succ_div_gt (2 * n + d) (2 * d) ltac:(lia)).
  lia.
Qed.

(** X3.  A progress event for [loaded] of [total] bytes, [0 <= loaded <= total],
    [0 < total] and [total * 100 < 2^52] (where the binary64 quotient rounds as
    the exact one does), sets the percentage nearest to [100 * loaded / total]
    (a half upwards), between 0 and 100.  On a page that shows an upload, the
    bar reads "Processing..." with its note, and the "Processing document..."
    toast is raised, from 99.5% of the bytes on, before the transfer is
    complete; below that the bar reads "Uploading..." and nothing is raised. *)
Theorem processing_is_shown_from_995_permille (s : State) (loaded total : Z) :
  uploading s = true -> result s = None ->
  0 < total -> total * 100 < 4503599627370496 -> 0 <= loaded <= total ->
  exists p highlight zone errorBox,
    let done := bool_decide (199 * total <= 200 * loaded) in
    0 <= p <= 100 /\
    2 * total * p - total <= 200 * loaded < 2 * total * p + total /\
    (p = 100 <-> 199 * total <= 200 * loaded) /\
    onUploadProgress (AxiosProgressEvent.mk loaded (Some total)) true = Some p /\
    progress_event (AxiosProgressEvent.mk loaded (Some total)) s =
      (setProgress p s,
       if done then [Toast toast_loading "Processing document..."] else []) /\
    render (setProgress p s) =
      UploadSection highlight zone
        (Some (mkBar (if done then "Processing..." else "Uploading...") p done))
        errorBox.
Proof.
  intros Hu Hr Ht Hbound Hl.
  pose proof (percentCompleted_exact loaded total ltac:(lia) ltac:(lia) ltac:(lia)) as Hexact.
  pose proof (round_half_up_nearest (loaded * 100) total Ht) as Hn.
  rewrite <- Hexact in Hn.
  set (p := percentCompleted loaded total) in *.
  assert (0 <= p <= 100) as Hp by nia.
  assert (p = 100 <-> 199 * total <= 200 * loaded) as H100 by nia.
  exists p. do 3 eexists. cbv zeta.
  split; [done|]. split; [lia|]. split; [done|].
  split; [by apply onUploadProgress_total; lia|].
  unfold progress_event. rewrite onUploadProgress_total by lia. fold p.
  unfold handleUpload_onProgress, render. cbn [result setProgress uploading progress].
  rewrite Hr, Hu.
  destruct (bool_decide_reflect (199 * total <= 200 * loaded)) as [Hd|Hd].
  - apply H100 in Hd. rewrite Hd. split; reflexivity.
  - assert (p <> 100) as Hne by (intros ?; by apply Hd, H100).
    destruct (Z.eqb_spec p 100); [done|].
    destruct (Z.ltb_spec p 100); [|lia]. split; reflexivity.
Qed.

Lemma processing_is_shown_from_995_permille_witness :
  exists p highlight zone errorBox,
    let done := bool_decide (199 * 1000 <= 200 * 996) in
    0 <= p <= 100 /\
    2 * 1000 * p - 1000 <= 200 * 996 < 2 * 1000 * p + 1000 /\
    (p = 100 <-> 199 * 1000 <= 200 * 996) /\
    onUploadProgress (AxiosProgressEvent.mk 996 (Some 1000)) true = Some p /\
    progress_event (AxiosProgressEvent.mk 996 (Some 1000))
        (setUploading true (setFile (Some report_pdf) initial)) =
      (setProgress p (setUploading true (setFile (Some report_pdf) initial)),
       if done then [Toast toast_loading "Processing document..."] else []) /\
    render (setProgress p (setUploading true (setFile (Some report_pdf) initial))) =
      UploadSection highlight zone
        (Some (mkBar (if done then "Processing..." else "Uploading...") p done))
        errorBox.
Proof.
  apply (processing_is_shown_from_995_permille
           (setUploading true (setFile (Some report_pdf) initial)) 996 1000);
    [reflexivity|reflexivity|lia|lia|lia].
Defined.

(** Above the bound the binary64 quotient can round to the other side: of
    2^50 bytes, 377,176,468,792,279 are 33.4999...% of the total and are shown
    as 34%. *)
Example percentCompleted_above_the_bound :
  percentCompleted 377176468792279 (2 ^ 50) = 34 /\
  round_half_up (377176468792279 * 100) (2 ^ 50) = 33.
Proof. split; by vm_compute. Qed.

(** X4.  An event without a total, or with the total 0, never reaches the
    page: the callback is not called, and the page, its uploads and what it
    raised stay as they are. *)
Theorem progress_without_total_is_dropped (ev : AxiosProgressEvent.t) :
  AxiosProgressEvent.total ev = None \/ AxiosProgressEvent.total ev = Some 0 ->
  onUploadProgress ev true = None /\
  (forall s, progress_event ev s = (s, [])) /\
  (forall w i w', step w (Progress i ev) = Some w' -> w' = w).
Proof.
  intros H.
  assert (onUploadProgress ev true = None) as Hn
    by (unfold onUploadProgress; destruct H as [-> | ->]; done).
  assert (forall s, progress_event ev s = (s, [])) as Hp
    by (intros s; unfold progress_event; by rewrite Hn).
  split; [done|]. split; [done|].
  intros w i w' Hstep. simpl in Hstep.
  destruct (tasks w !! i) as [t|]; [|done].
  destruct (in_flight t); [|done].
  destruct (uploadPDF_begin (task_file t)); [|done].
  rewrite Hp in Hstep. injection Hstep as <-.
  rewrite app_nil_r. by destruct w.
Qed.

Lemma progress_without_total_is_dropped_witness :
  progress_event (AxiosProgressEvent.mk 512 None) initial = (initial, []).
Proof.
  apply (progress_without_total_is_dropped (AxiosProgressEvent.mk 512 None)).
  left. reflexivity.
Defined.

(** X5.  A PDF of 26,214,401 to 26,219,642 bytes is turned down with a message
    that shows the size as the limit itself: "File size (25.00 MB) exceeds the
    25 MB limit." *)
Theorem barely_oversized_reads_as_25_00 (f : File.t) :
  File.type f = "application/pdf" ->
  26214400 < File.size f <= 26219642 ->
  validateFile f = Some "File size (25.00 MB) exceeds the 25 MB limit.".
Proof.
  intros Ht Hs. unfold validateFile, ACCEPTED_TYPE, MAX_FILE_SIZE.
  rewrite Ht. cbn [String.eqb negb Ascii.eqb Bool.eqb andb].
  destruct (Z.ltb_spec (25 * 1024 * 1024) (File.size f)) as [_|?]; [|lia].
  cbv zeta. unfold sizeMB_toFixed2. cbv zeta.
  pose proof (round_half_up_nearest (File.size f * 100) (1024 * 1024) ltac:(lia)) as Hn.
  set (h := round_half_up (File.size f * 100) (1024 * 1024)) in *.
  assert (h = 2500) as -> by lia. reflexivity.
Qed.

Lemma barely_oversized_reads_as_25_00_witness :
  validateFile (File.mk "survey.pdf" 26214401 "application/pdf") =
  Some "File size (25.00 MB) exceeds the 25 MB limit.".
Proof.
  apply barely_oversized_reads_as_25_00; [reflexivity|simpl; lia].
Defined.

(** The page's own check runs before every transfer: what holds of every
    reachable page, whatever is dropped on it. *)
Lemma validated_posts_step (w w' : World) (e : Event) :
  (forall f, file (state w) = Some f -> validateFile f = None) ->
  Forall (fun t => validateFile (task_file t) = None) (tasks w) ->
  uploads (effects w) =
    (fun t => apiClient_post_form "/api/upload" (task_file t)) <$> tasks w ->
  step w e = Some w' ->
  (forall f, file (state w') = Some f -> validateFile f = None) /\
  Forall (fun t => validateFile (task_file t) = None) (tasks w') /\
  uploads (effects w') =
    (fun t => apiClient_post_form "/api/upload" (task_file t)) <$> tasks w'.
Proof.
  intros Hf Ht Hfx Hstep. destruct w as [s ts fx].
  destruct e as [a|i ev|i reply]; simpl in Hstep.
  - destruct (offered _ a); [|done]. injection Hstep as <-.
    destruct a as [files|files|ty| | |]; simpl in *.
    + unfold handleFileSelect, choose. destruct files as [sel|]; simpl; [|by rewrite app_nil_r].
      destruct (validateFile sel) eqn:Hv; simpl; rewrite uploads_app, app_nil_r;
        split_and!; try done. by intros ? [= <-].
    + unfold handleDrop, choose. destruct files as [sel|]; simpl; [|by rewrite app_nil_r].
      destruct (validateFile sel) eqn:Hv; simpl; rewrite uploads_app, app_nil_r;
        split_and!; try done. by intros ? [= <-].
    + destruct ty; simpl; by rewrite app_nil_r.
    + unfold handleUpload_start. destruct (file s) as [f|] eqn:Hfile; simpl.
      * assert (validateFile f = None) as Hv by (by apply Hf).
        pose proof Hv as Hb. apply uploadPDF_begin_Returns in Hb. rewrite Hb.
        rewrite uploads_app, fmap_app, Hfx. simpl.
        split_and!; [intros f0 Hf0; rewrite Hfile in Hf0; by apply Hf| |done].
        apply Forall_app. split; [done|]. by constructor.
      * rewrite uploads_app, !app_nil_r. by rewrite Hfile.
    + rewrite app_nil_r. split_and!; try done.
      * by rewrite Forall_map.
      * rewrite Hfx. change (map ?g ts) with (g <$> ts).
        by rewrite <- list_fmap_compose.
    + unfold handleViewDetails.
      destruct (result s); [destruct (truthy _)|]; simpl;
        rewrite ?uploads_app, ?app_nil_r; done.
  - destruct (ts !! i) as [t|]; [|done]. destruct (in_flight t); [|done].
    destruct (uploadPDF_begin (task_file t)); [|done].
    destruct (progress_event ev s) as [s' fx'] eqn:Hp. injection Hstep as <-.
    pose proof (progress_event_state ev s) as Hs'. rewrite Hp in Hs'. simpl in *.
    assert (uploads fx' = []) as Hfx'.
    { unfold progress_event, handleUpload_onProgress in Hp.
      destruct (onUploadProgress ev true) as [q|]; injection Hp as <- <-; [|done].
      by destruct (q =? 100). }
    rewrite uploads_app, Hfx', app_nil_r. split_and!; try done.
    intros f. subst s'. by destruct (onUploadProgress ev true); simpl; apply Hf.
  - destruct (ts !! i) as [t|] eqn:Hi; [|done]. destruct (in_flight t); [|done].
    destruct (handleUpload_settled _ s) as [s' fx'] eqn:Hset. injection Hstep as <-.
    simpl in *. unfold handleUpload_settled in Hset.
    destruct (snd (uploadPDF (task_file t) reply)); injection Hset as <- <-; simpl;
      rewrite uploads_app, app_nil_r, list_fmap_insert; simpl;
      (split_and!; [done| |]);
      try (rewrite list_insert_id; [done|by rewrite list_lookup_fmap, Hi]);
      apply Forall_insert; try done; simpl;
      rewrite Forall_lookup in Ht; by apply (Ht i).
Qed.

(** X6.  Along every trace of the page, each upload that was started handed
    exactly one request to the transport, a POST of its file to [/api/upload],
    in the order the uploads were started; every such file, and the file the
    page holds, passed [validateFile] (a PDF of at most 26,214,400 bytes), so
    the client's own check in [uploadPDF] never turns one down. *)
Theorem every_upload_posts_a_validated_file (trace : list Event) (w : World) :
  run world0 trace = Some w ->
  uploads (effects w) =
    (fun t => apiClient_post_form "/api/upload" (task_file t)) <$> tasks w /\
  Forall (fun t => File.type (task_file t) = "application/pdf" /\
                   File.size (task_file t) <= 26214400 /\
                   uploadPDF_begin (task_file t) =
                     Returns (apiClient_post_form "/api/upload" (task_file t)))
         (tasks w) /\
  (forall f, file (state w) = Some f -> validateFile f = None).
Proof.
  assert (forall w0,
    (forall f, file (state w0) = Some f -> validateFile f = None) ->
    Forall (fun t => validateFile (task_file t) = None) (tasks w0) ->
    uploads (effects w0) =
      (fun t => apiClient_post_form "/api/upload" (task_file t)) <$> tasks w0 ->
    run w0 trace = Some w ->
    (forall f, file (state w) = Some f -> validateFile f = None) /\
    Forall (fun t => validateFile (task_file t) = None) (tasks w) /\
    uploads (effects w) =
      (fun t => apiClient_post_form "/api/upload" (task_file t)) <$> tasks w) as Hrun.
  { induction trace as [|e trace IH]; intros w0 H1 H2 H3 Hr; simpl in Hr.
    - by injection Hr as <-.
    - destruct (step w0 e) as [w1|] eqn:Hstep; [|done].
      destruct (validated_posts_step w0 w1 e H1 H2 H3 Hstep) as (? & ? & ?).
      by apply (IH w1). }
  intros Hr. destruct (Hrun world0) as (H1 & H2 & H3); try done.
  split; [done|]. split; [|done].
  eapply Forall_impl; [exact H2|]. intros t Hv. simpl in Hv.
  pose proof Hv as Hb. apply uploadPDF_begin_Returns in Hb.
  apply validateFile_None in Hv as [? ?]. done.
Qed.

Lemma every_upload_posts_a_validated_file_witness :
  exists w, run world0 reset_at_40 = Some w /\
    uploads (effects w) =
      [apiClient_post_form "/api/upload" report_pdf;
       apiClient_post_form "/api/upload" second_pdf].
Proof.
  destruct (run world0 reset_at_40) as [w|] eqn:Hw; [|by vm_compute in Hw].
  exists w. split; [reflexivity|].
  rewrite (proj1 (every_upload_posts_a_validated_file reset_at_40 w Hw)).
  vm_compute in Hw. injection Hw as <-. reflexivity.
Defined.

(** X7.  Along a trace on which no file is dropped while an upload is shown in
    progress, the uploads in flight are the one the page shows and no other:
    one while [uploading] is set, none otherwise. *)
Theorem one_upload_in_flight (trace : list Event) (w : World) :
  run world0 trace = Some w ->
  undisturbed world0 trace = true ->
  length (List.filter in_flight (tasks w)) = if uploading (state w) then 1%nat else 0%nat.
Proof.
  intros Hr Hu.
  destruct (consistent_run trace _ _ _ consistent_world0 Hu Hr) as (_ & _ & H & _ & _).
  unfold Observed.one_in_flight in H.
  assert (forall ts, Forall (fun t => in_flight t = false) ts ->
                     List.filter in_flight ts = []) as Hnone.
  { induction 1 as [|t ts Ht _ IH]; simpl; [done|]. by rewrite Ht. }
  destruct (uploading (state w)).
  - destruct H as (settled & t & -> & Hs & Ht).
    rewrite List.filter_app, (Hnone settled Hs). simpl. by rewrite Ht.
  - by rewrite (Hnone _ H).
Qed.

Lemma one_upload_in_flight_witness :
  exists w, run world0 scenario = Some w /\
    length (List.filter in_flight (tasks w)) = 0%nat.
Proof.
  eexists. split; [vm_compute; reflexivity|].
  exact (one_upload_in_flight scenario _ eq_refl eq_refl).
Defined.

(** The hypothesis is needed: after [reset_at_40], where a text file dropped
    during the first upload brought up Retry, two uploads are in flight. *)
Example two_uploads_in_flight_after_reset :
  exists w, run world0 reset_at_40 = Some w /\
    length (List.filter in_flight (tasks w)) = 2%nat.
Proof. eexists. split; [vm_compute; reflexivity|reflexivity]. Qed.

(** X8.  What the page shows once the upload of a validated file settles.
    On success it shows the results section for the response, at 100%, and
    offers exactly "Upload Another File" and "View Detailed Estimate".  On
    failure it shows the upload section without a progress bar and with the
    normalized message of the client in the error box and in the toast; the
    fallback text 'Upload failed' is not used; the file is kept, so "Upload &
    Process" is offered again, and Retry is offered. *)
Theorem upload_outcome_on_the_page (s : State) (f : File.t)
    (reply : Promise EstimateResponse.t) :
  validateFile f = None -> file s = Some f -> result s = None ->
  let s' := fst (handleUpload_settled (snd (uploadPDF f reply)) s) in
  let fx := snd (handleUpload_settled (snd (uploadPDF f reply)) s) in
  uploading s' = false /\ file s' = Some f /\
  match reply with
  | Returns response =>
      render s' = ResultsSection response /\ progress s' = 100 /\
      (forall a, offered (render s') a = true <-> a = ClickReset \/ a = ClickViewDetails) /\
      fx = [Toast toast_success
              ("Successfully processed " +:+
               show (EstimateResponse.interventions_found response) +:+
               " interventions!")]
  | Throws e =>
      render s' =
        UploadSection (dragActive s)
          (ZoneFile (File.name f) (sizeMB_toFixed2 (File.size f)) true) None
          (Some (handleApiError_message e)) /\
      offered (render s') ClickUpload = true /\
      offered (render s') ClickReset = true /\
      fx = [Toast toast_error (handleApiError_message e)]
  end.
Proof.
  intros Hv Hf Hr. apply uploadPDF_begin_Returns in Hv.
  unfold uploadPDF. rewrite Hv, awaiting_settles. cbn [snd].
  destruct reply as [response|e]; rewrite ?received_parsed by done;
    cbn [handleUpload_settled fst snd errorMessage].
  - split; [done|]. split; [by destruct s|]. split_and!; try done.
    intros a. unfold render. cbn.
    destruct a; cbn; (split; [intros H; try done; auto|intros [H|H]; done]).
  - split; [done|]. split; [by destruct s|].
    assert (truthy (handleApiError_message e) = true) as Ht
      by apply truthy_nonempty, handleApiError_message_nonempty.
    unfold render. destruct s as [f0 u p r err drag]. cbn in *. subst f0 r.
    rewrite Ht. done.
Qed.

Lemma upload_outcome_on_the_page_witness :
  render (fst (handleUpload_settled
                 (snd (uploadPDF report_pdf (Throws (ThrownAxios not_found))))
                 (setUploading true (setFile (Some report_pdf) initial)))) =
  UploadSection false (ZoneFile "report.pdf" "2.00" true) None
                (Some "Estimate abc123 not found").
Proof.
  exact (proj1 (proj2 (proj2
    (upload_outcome_on_the_page (setUploading true (setFile (Some report_pdf) initial))
       report_pdf (Throws (ThrownAxios not_found)) eq_refl eq_refl eq_refl)))).
Defined.

(** X9.  A reset does not cancel the upload in flight.  When the page offers
    a reset while the upload of a validated file is in flight, the reset
    brings back the empty upload section; the success of that upload, arriving
    afterwards, still brings up its results. *)
Theorem reset_does_not_cancel (w : World) (i : nat) (t : Task)
    (response : EstimateResponse.t) :
  tasks w !! i = Some t -> in_flight t = true ->
  validateFile (task_file t) = None ->
  offered (render (state w)) ClickReset = true ->
  exists w1 w2,
    step w (User ClickReset) = Some w1 /\
    render (state w1) = UploadSection (dragActive (state w)) (ZoneEmpty false) None None /\
    uploads (effects w1) = uploads (effects w) /\
    step w1 (Settled i (Returns response)) = Some w2 /\
    render (state w2) = ResultsSection response.
Proof.
  intros Hi Hin Hv Hoff. apply uploadPDF_begin_Returns in Hv.
  eexists. eexists. split; [simpl; by rewrite Hoff|].
  split; [reflexivity|]. split; [simpl; by rewrite app_nil_r|].
  simpl. rewrite list_lookup_fmap, Hi. simpl. rewrite Hin.
  unfold uploadPDF. rewrite Hv, awaiting_settles. simpl. done.
Qed.

Lemma reset_does_not_cancel_witness :
  exists w1 w2,
    step (mkWorld (setError (Some "Invalid file type. Please select a PDF file.")
                     (setProgress 40 (setUploading true (setFile (Some report_pdf) initial))))
                  [mkTask report_pdf true false] [])
         (User ClickReset) = Some w1 /\
    step w1 (Settled 0 (Returns summary)) = Some w2 /\
    render (state w2) = ResultsSection summary.
Proof.
  destruct (reset_does_not_cancel
              (mkWorld (setError (Some "Invalid file type. Please select a PDF file.")
                          (setProgress 40 (setUploading true (setFile (Some report_pdf) initial))))
                       [mkTask report_pdf true false] [])
              0 (mkTask report_pdf true false) summary
              eq_refl eq_refl eq_refl eq_refl)
    as (w1 & w2 & H1 & _ & _ & H2 & H3).
  by exists w1, w2.
Defined.

End UploadMore.

(** ** Progress on the page *)
Section ProgressFacts.
Import Js Client Upload Examples.
Local Open Scope Z_scope.

Lemma Sorted_between (lo hi : Z) (l : list Z) :
  lo <= hi -> Sorted Z.le l -> Forall (fun p => lo <= p <= hi) l ->
  Sorted Z.le (lo :: l ++ [hi]).
Proof.
  intros Hlh Hs Hb. constructor.
  - induction Hs as [|x l Hs IH Hhd]; simpl.
    + repeat constructor.
    + apply Forall_cons in Hb as [Hx Hb]. constructor; [by apply IH|].
      destruct Hhd as [|y l' Hxy]; simpl; constructor; lia.
  - destruct Hb; simpl; constructor; lia.
Qed.

Lemma displayed_app (trace trace' : list Event) :
  forall w w1, run w trace = Some w1 ->
    displayed w (trace ++ trace') = displayed w trace ++ displayed w1 trace'.
Proof.
  induction trace as [|e trace IH]; intros w w1 Hr; simpl in *.
  - by injection Hr as <-.
  - destruct (step w e) as [w'|]; [|done]. simpl. f_equal. by apply IH.
Qed.

Lemma run_app (trace trace' : list Event) :
  forall w w1, run w trace = Some w1 -> run w (trace ++ trace') = run w1 trace'.
Proof.
  induction trace as [|e trace IH]; intros w w1 Hr; simpl in *.
  - by injection Hr as <-.
  - destruct (step w e) as [w'|]; [|done]. by apply IH.
Qed.

(** The file that a reachable page holds was validated. *)
Lemma reachable_file_validated (trace : list Event) (w : World) (f : File.t) :
  run world0 trace = Some w -> file (state w) = Some f -> validateFile f = None.
Proof.
  assert (forall w0,
    (forall f, file (state w0) = Some f -> validateFile f = None) ->
    Forall (fun t => validateFile (task_file t) = None) (tasks w0) ->
    uploads (effects w0) =
      (fun t => apiClient_post_form "/api/upload" (task_file t)) <$> tasks w0 ->
    run w0 trace = Some w ->
    forall f, file (state w) = Some f -> validateFile f = None) as Hrun.
  { induction trace as [|e trace IH]; intros w0 H1 H2 H3 Hr; simpl in Hr.
    - by injection Hr as <-.
    - destruct (step w0 e) as [w1|] eqn:Hstep; [|done].
      destruct (validated_posts_step w0 w1 e H1 H2 H3 Hstep) as (? & ? & ?).
      by apply (IH w1). }
  intros Hr. by apply (Hrun world0).
Qed.

(** A click on "Upload & Process" that the page takes. *)
Lemma click_upload_world (w w0 : World) :
  step w (User ClickUpload) = Some w0 ->
  exists f, file (state w) = Some f /\
            tasks w0 = tasks w ++ [mkTask f true false] /\
            progress (state w0) = 0.
Proof.
  intros Hstep. destruct w as [[f u p r err drag] ts fx]. simpl in Hstep.
  unfold render in Hstep. simpl in Hstep.
  destruct r; [done|]. destruct f as [f|]; [|done]. simpl in Hstep.
  destruct u; [done|]. simpl in Hstep. injection Hstep as <-.
  by exists f.
Qed.

(** The progress events [evs] of the upload [i], arriving one after the other
    while that upload is in flight: each is taken, and the page holds its
    percentage. *)
Lemma progress_events_displayed (i : nat) (task : Task) (t : Z)
    (evs : list AxiosProgressEvent.t) :
  in_flight task = true -> validateFile (task_file task) = None ->
  0 < t -> t * 100 < 4503599627370496 -> Forall (of_total t) evs ->
  forall w, tasks w !! i = Some task ->
    exists w1, run w (Progress i <$> evs) = Some w1 /\
      tasks w1 = tasks w /\
      displayed w (Progress i <$> evs) =
        (fun ev => round_half_up (AxiosProgressEvent.loaded ev * 100) t) <$> evs.
Proof.
  intros Hin Hv Ht Hb Hevs. apply uploadPDF_begin_Returns in Hv.
  induction Hevs as [|[l tot] evs [Htot Hl] _ IH]; intros w Hi.
  - by exists w.
  - simpl in Htot, Hl. subst tot. cbn [fmap list_fmap run displayed step].
    rewrite Hi, Hin, Hv.
    unfold progress_event. rewrite onUploadProgress_total by lia.
    rewrite percentCompleted_exact by lia.
    cbn [handleUpload_onProgress].
    set (w' := mkWorld _ _ _).
    destruct (IH w') as (w1 & Hr & Htasks & Hd); [done|].
    exists w1. split; [done|]. split; [done|].
    cbn [state progress setProgress]. by rewrite Hd.
Qed.

(** C4 (as the page has it).  The page holds the percentage of the latest
    progress event, whatever it held before, whatever upload the event is of
    and whatever the lifecycle state: an event with a non-zero total sets
    [progress] to [Math.round(loaded * 100 / total)], computed in binary64,
    and touches nothing else of the state.  So, on every reachable page, from
    the click that starts an upload until its success, when the events that
    arrive in between are progress events of that upload with non-decreasing
    byte counts between 0 and a total with [total * 100 < 2^52], every event
    is taken and the percentages do not decrease, from the 0 set at the start
    to the 100 set on success.  And an event that arrives while the page shows
    no upload in progress (after a reset or a terminal state) leaves the
    rendered page as it is: it changes the stored percentage, and at 100% it
    raises the "Processing document..." toast. *)
Theorem progress_shows_the_latest_event :
  (forall loaded t, t <> 0 ->
     onUploadProgress (AxiosProgressEvent.mk loaded (Some t)) true =
       Some (percentCompleted loaded t)) /\
  (forall w i ev w', step w (Progress i ev) = Some w' ->
     tasks w' = tasks w /\
     state w' = match onUploadProgress ev true with
                | Some p => setProgress p (state w)
                | None => state w
                end /\
     effects w' = effects w ++
                  match onUploadProgress ev true with
                  | Some p => if p =? 100
                              then [Toast toast_loading "Processing document..."]
                              else []
                  | None => []
                  end) /\
  (forall trace w w0 t evs response,
     run world0 trace = Some w -> step w (User ClickUpload) = Some w0 ->
     0 < t -> t * 100 < 4503599627370496 -> Forall (of_total t) evs ->
     Sorted Z.le (AxiosProgressEvent.loaded <$> evs) ->
     let i := length (tasks w) in
     let upload := (Progress i <$> evs) ++ [Settled i (Returns response)] in
     exists w2, run w0 upload = Some w2 /\
       length (displayed w0 upload) = length upload /\
       progress (state w0) = 0 /\ progress (state w2) = 100 /\
       Sorted Z.le (progress (state w0) :: displayed w0 upload)) /\
  (forall w i ev w', uploading (state w) = false ->
     step w (Progress i ev) = Some w' ->
     render (state w') = render (state w)).
Proof.
  assert (forall w i ev w', step w (Progress i ev) = Some w' ->
     tasks w' = tasks w /\
     state w' = match onUploadProgress ev true with
                | Some p => setProgress p (state w)
                | None => state w
                end /\
     effects w' = effects w ++
                  match onUploadProgress ev true with
                  | Some p => if p =? 100
                              then [Toast toast_loading "Processing document..."]
                              else []
                  | None => []
                  end) as Hstep.
  { intros w i ev w' H. simpl in H.
    destruct (tasks w !! i) as [task|]; [|done].
    destruct (in_flight task); [|done].
    destruct (uploadPDF_begin (task_file task)); [|done].
    unfold progress_event, handleUpload_onProgress in H.
    destruct (onUploadProgress ev true) as [p|]; injection H as <-; done. }
  split; [intros loaded t Ht; by apply onUploadProgress_total|].
  split; [exact Hstep|]. split.
  - intros trace w w0 t evs response Hreach Hclick Ht Hb Hevs Hsorted i upload.
    destruct (click_upload_world w w0 Hclick) as (f & Hf & Htasks0 & Hp0).
    assert (validateFile f = None) as Hv
      by (by apply (reachable_file_validated trace w f Hreach)).
    assert (forall ts, ts = tasks w -> (ts ++ [mkTask f true false]) !! i =
                                       Some (mkTask f true false)) as Hlast.
    { intros ts ->. rewrite lookup_app_r by (unfold i; lia).
      unfold i. by rewrite Nat.sub_diag. }
    destruct (progress_events_displayed i (mkTask f true false) t evs eq_refl Hv Ht Hb Hevs w0)
      as (w1 & Hr1 & Htasks & Hd).
    { rewrite Htasks0. by apply Hlast. }
    assert (tasks w1 !! i = Some (mkTask f true false)) as Hi
      by (rewrite Htasks, Htasks0; by apply Hlast).
    pose proof Hv as Hbegin. apply uploadPDF_begin_Returns in Hbegin.
    assert (exists w2, step w1 (Settled i (Returns response)) = Some w2 /\
                       progress (state w2) = 100) as (w2 & Hs2 & Hp2).
    { cbn [step]. rewrite Hi. cbn [in_flight task_file].
      unfold uploadPDF. rewrite Hbegin, awaiting_settles. cbn [snd handleUpload_settled].
      eexists. split; [reflexivity|]. reflexivity. }
    exists w2. unfold upload.
    rewrite (run_app _ _ w0 w1 Hr1), (displayed_app _ _ w0 w1 Hr1).
    cbn [run displayed]. rewrite Hs2. split; [done|].
    rewrite Hd, Hp2. split; [by rewrite !length_app, !length_fmap|].
    split; [done|]. split; [done|].
    rewrite Hp0.
    apply Sorted_between; [lia| |].
    + clear -Ht Hevs Hsorted.
      induction Hevs as [|[l tot] evs [Htot Hl] Hevs' IH]; [constructor|].
      cbn [fmap list_fmap] in *. apply Sorted_inv in Hsorted as [Hs Hhd].
      constructor; [by apply IH|].
      destruct Hevs' as [|[l' tot'] evs' _ _]; cbn [fmap list_fmap] in *; [constructor|].
      constructor. apply HdRel_inv in Hhd. simpl in *.
      apply round_half_up_mono; lia.
    + clear -Ht Hevs. apply Forall_fmap.
      eapply Forall_impl; [exact Hevs|]. intros [l tot] [Htot Hl]. simpl in *.
      pose proof (round_half_up_mono 0 (l * 100) t Ht ltac:(lia)) as H0.
      pose proof (round_half_up_mono (l * 100) (t * 100) t Ht ltac:(lia)) as H1.
      rewrite round_half_up_0 in H0 by done.
      rewrite round_half_up_100 in H1 by done. lia.
  - intros w i ev w' Hu H. destruct (Hstep w i ev w' H) as (_ & -> & _).
    destruct (onUploadProgress ev true); [by apply render_setProgress|done].
Qed.

Lemma progress_shows_the_latest_event_witness :
  exists w w0 w2,
    run world0 [User (DropFile (Some report_pdf))] = Some w /\
    step w (User ClickUpload) = Some w0 /\
    run w0 ((Progress 0 <$> [at_percent 0; at_percent 25; at_percent 50; at_percent 100])
              ++ [Settled 0 (Returns summary)]) = Some w2 /\
    progress (state w2) = 100 /\
    Sorted Z.le
      (0 :: displayed w0
              ((Progress 0 <$> [at_percent 0; at_percent 25; at_percent 50; at_percent 100])
                 ++ [Settled 0 (Returns summary)])).
Proof.
  destruct (run world0 [User (DropFile (Some report_pdf))]) as [w|] eqn:Hw;
    [|by vm_compute in Hw].
  destruct (step w (User ClickUpload)) as [w0|] eqn:Hw0;
    [|vm_compute in Hw; injection Hw as <-; by vm_compute in Hw0].
  destruct (proj1 (proj2 (proj2 progress_shows_the_latest_event))
              [User (DropFile (Some report_pdf))] w w0 100
              [at_percent 0; at_percent 25; at_percent 50; at_percent 100] summary
              Hw Hw0 ltac:(lia) ltac:(lia)
              ltac:(repeat constructor; simpl; lia)
              ltac:(repeat constructor; simpl; lia))
    as (w2 & Hr2 & _ & H0 & H100 & Hs).
  assert (length (tasks w) = 0%nat) as Hlen
    by (vm_compute in Hw; by injection Hw as <-).
  rewrite Hlen in Hr2, Hs. rewrite H0 in Hs.
  exists w, w0, w2. done.
Defined.

End ProgressFacts.

(** ** The results page *)
Section ResultsMore.
Import Js Client Results ResultsView Examples.
Local Open Scope Z_scope.

Lemma SortField_eqb_eq (a b : SortField) : SortField_eqb a b = true <-> a = b.
Proof. destruct a, b; simpl; split; intros H; done. Qed.

(** X10.  A click on a column header sorts by that column: ascending when the
    table was sorted by another column, in the opposite direction when it was
    sorted by this one, so that two clicks on the active column bring the
    page back.  The sort icon is then on the clicked column and on no other,
    and shows the direction.  Nothing else of the page changes and nothing is
    requested. *)
Theorem handleSort_selects_the_column (field : SortField) (s : State) :
  let s' := fst (handleSort field s) in
  sortField s' = field /\
  sortDirection s' =
    (if SortField_eqb (sortField s) field
     then match sortDirection s with asc => desc | desc => asc end
     else asc) /\
  (sortField s = field -> fst (handleSort field s') = s) /\
  (forall g, renderSortIcon g s' =
     if SortField_eqb g field
     then Some match sortDirection s' with asc => SortAsc | desc => SortDesc end
     else None) /\
  estimate s' = estimate s /\ loading s' = loading s /\ error s' = error s /\
  expandedRows s' = expandedRows s /\ exporting s' = exporting s /\
  snd (handleSort field s) = [].
Proof.
  cbv zeta. unfold handleSort.
  destruct (SortField_eqb (sortField s) field) eqn:E.
  - apply SortField_eqb_eq in E. cbn [fst snd].
    split_and!; try done.
    + intros _. cbn. rewrite E, (proj2 (SortField_eqb_eq field field) eq_refl).
      destruct s as [? ? ? ? ? d ?]; cbn in *. subst. by destruct d.
    + intros g. unfold renderSortIcon. cbn. rewrite E. by destruct field, g.
  - cbn [fst snd]. split_and!; try done.
    + intros H. apply SortField_eqb_eq in H. congruence.
    + intros g. unfold renderSortIcon. cbn. by destruct field, g.
Qed.

Lemma handleSort_selects_the_column_witness :
  fst (handleSort by_type (fst (handleSort by_type initial))) = initial.
Proof.
  exact (proj1 (proj2 (proj2 (handleSort_selects_the_column by_type initial))) eq_refl).
Defined.


Lemma format_string_inj (f g : ExportFormat) :
  format_string f = format_string g -> f = g.
Proof. by destruct f, g. Qed.

(** X12.  [handleExport] is its two parts run one after the other, around the
    request of [exportEstimate].  Between the two, on a page that was not
    exporting, all three export buttons are disabled and the one of the
    running format reads "Exporting..."; once the export has settled, in
    success or in failure, the page is as it was before, with the three
    buttons enabled under their own labels. *)
Theorem handleExport_disables_the_buttons (id : string) (format : ExportFormat)
    (reply : Promise Blob) (s : State) (est : Estimate.t) :
  estimate s = Some est -> truthy id = true -> exporting s = None ->
  let '(s1, fx1, started) := handleExport_start (Some id) format s in
  let '(s2, fx2) :=
    handleExport_settled est format (snd (exportEstimate id format reply)) s1 in
  started = true /\
  handleExport (Some id) format reply s = (s2, fx1 ++ fx2) /\
  export_button format s1 = mkButton "Exporting..." true /\
  (forall g, g <> format -> export_button g s1 = mkButton (toUpperCase g) true) /\
  s2 = s /\
  (forall g, export_button g s2 = mkButton (toUpperCase g) false).
Proof.
  intros He Hid Hx. unfold handleExport_start, handleExport. rewrite He, Hid.
  unfold exportEstimate. rewrite awaiting_settles. cbn [snd].
  assert (setExporting None (setExporting (Some (format_string format)) s) = s) as Hback
    by (destruct s; cbn in *; by subst).
  assert (forall g, export_button g s = mkButton (toUpperCase g) false) as Hidle.
  { intros g. unfold export_button. rewrite Hx.
    rewrite bool_decide_eq_false_2 by done.
    by rewrite bool_decide_eq_false_2 by (intros H; by apply H). }
  assert (export_button format (setExporting (Some (format_string format)) s) =
            mkButton "Exporting..." true) as Hbusy.
  { unfold export_button. cbn [exporting setExporting].
    rewrite (bool_decide_eq_true_2 (Some (format_string format) <> None)) by done.
    by rewrite bool_decide_eq_true_2. }
  assert (forall g, g <> format ->
            export_button g (setExporting (Some (format_string format)) s) =
            mkButton (toUpperCase g) true) as Hother.
  { intros g Hne. unfold export_button. cbn [exporting setExporting].
    rewrite (bool_decide_eq_true_2 (Some (format_string format) <> None)) by done.
    rewrite bool_decide_eq_false_2; [done|].
    intros [= H]. apply format_string_inj in H. congruence. }
  destruct reply as [blob|err]; cbn [handleExport_settled];
    rewrite Hback; split_and!; try done.
Qed.

Lemma handleExport_disables_the_buttons_witness :
  export_button json (setExporting (Some "csv") (setEstimate (Some abc123) initial)) =
  mkButton "JSON" true.
Proof.
  pose proof (handleExport_disables_the_buttons "abc123" csv (Returns [])
                (setEstimate (Some abc123) initial) abc123 eq_refl eq_refl eq_refl) as H.
  cbn in H. exact (proj1 (proj2 (proj2 (proj2 H))) json ltac:(discriminate)).
Defined.

End ResultsMore.

(** ** The rows of the table *)
Section TableFacts.
Import Js Client Results ResultsView Examples.
Local Open Scope Z_scope.

Variable localeCompare : string -> string -> Z.

Lemma replace_underscores_length (s : string) :
  String.length (replace_underscores s) = String.length s.
Proof. induction s as [|c s IH]; simpl; [done|]. by rewrite IH. Qed.

Lemma replace_underscores_get (s : string) (n : nat) :
  String.get n (replace_underscores s) =
  (fun c => if Ascii.eqb c "_" then " "%char else c) <$> String.get n s.
Proof.
  revert n. induction s as [|c s IH]; intros n; simpl; [done|].
  destruct n; [done|]. apply IH.
Qed.

(** X13.  The label of an intervention type, [type.replace(/_/g, ' ')], has the
    characters of the type with every underscore turned into a space: the same
    length, no underscore left, every other character in place.  A type
    without underscores is its own label. *)
Theorem replace_underscores_replaces_all (s : string) :
  String.length (replace_underscores s) = String.length s /\
  (forall n c, String.get n s = Some c ->
     String.get n (replace_underscores s) =
       Some (if Ascii.eqb c "_" then " "%char else c)) /\
  (forall n, String.get n (replace_underscores s) <> Some "_"%char) /\
  replace_underscores (replace_underscores s) = replace_underscores s /\
  ((forall n, String.get n s <> Some "_"%char) -> replace_underscores s = s).
Proof.
  split; [apply replace_underscores_length|].
  split; [intros n c Hc; by rewrite replace_underscores_get, Hc|].
  split.
  - intros n. rewrite replace_underscores_get.
    destruct (String.get n s) as [c|]; [|done]. simpl.
    destruct (Ascii.eqb_spec c "_"); [done|]. by intros [= ->].
  - split.
    + induction s as [|c s IH]; simpl; [done|]. rewrite IH. f_equal.
      destruct (Ascii.eqb_spec c "_"); [done|].
      by destruct (Ascii.eqb_spec c "_").
    + induction s as [|c s IH]; intros H; simpl; [done|].
      rewrite IH by (intros n; apply (H (S n))). f_equal.
      destruct (Ascii.eqb_spec c "_") as [->|]; [|done]. by specialize (H 0%nat).
Qed.







(** The item at an open position does change: with the position 0 of
    [five_items] open, the page sorted by type asks for the audit trail of
    "Delineator"; after a click on the cost column, for that of "Road Stud". *)
Example open_position_changes_item :
  let s := setExpandedRows (fun _ => {[0]}) (setEstimate (Some abc123) initial) in
  Intervention.type ∘ EstimateItem.intervention ∘ fst <$>
    filter (fun r => snd r = true) (rows codepoint_compare s store_abc123) =
    ["Delineator"] /\
  Intervention.type ∘ EstimateItem.intervention ∘ fst <$>
    filter (fun r => snd r = true)
           (rows codepoint_compare (fst (handleSort by_cost s)) store_abc123) =
    ["Road Stud"].
Proof. split; by vm_compute. Qed.

End TableFacts.

(** ** More on the order of the rows *)
Section OrderFacts.
Import Js Client Results Examples.

Lemma Array_sort_of_sorted {A : Type} (c : A -> A -> Q) (l : list A) :
  Sorted (fun a b => (c a b <= 0)%Q) l -> Array_sort c l = l.
Proof.
  induction 1 as [|x l Hs IH Hhd]; simpl; [done|]. rewrite IH.
  destruct Hhd as [|y l Hxy]; simpl; [done|].
  destruct (c x y ?= 0)%Q eqn:E; try done.
Qed.

Lemma StronglySorted_snoc {A : Type} (R : A -> A -> Prop) (l : list A) (x : A) :
  StronglySorted R l -> Forall (fun y => R y x) l -> StronglySorted R (l ++ [x]).
Proof.
  induction 1 as [|y l Hs IH Hall]; intros Hx; simpl.
  - repeat constructor.
  - apply Forall_cons in Hx as [Hyx Hx]. constructor; [by apply IH|].
    apply Forall_app. split; [done|]. by constructor.
Qed.

Lemma StronglySorted_rev {A : Type} (R : A -> A -> Prop) (l : list A) :
  StronglySorted R l -> StronglySorted (fun a b => R b a) (rev l).
Proof.
  induction 1 as [|x l Hs IH Hall]; simpl; [constructor|].
  apply StronglySorted_snoc; [done|].
  by apply Forall_rev.
Qed.

Lemma StronglySorted_unique_on {A : Type} (R : A -> A -> Prop) (l1 : list A) :
  forall l2,
    (forall a b, a ∈ l1 -> b ∈ l1 -> R a b -> R b a -> a = b) ->
    StronglySorted R l1 -> StronglySorted R l2 -> Permutation l1 l2 -> l1 = l2.
Proof.
  induction l1 as [|x l1 IH]; intros l2 Hanti H1 H2 Hp.
  - symmetry. by apply Permutation_nil.
  - destruct l2 as [|y l2]; [by apply Permutation_sym, Permutation_nil in Hp|].
    apply StronglySorted_inv in H1 as [H1 Hx].
    apply StronglySorted_inv in H2 as [H2 Hy].
    rewrite Forall_forall in Hx, Hy.
    assert (x = y) as ->.
    { assert (y ∈ x :: l1) as Hyin by (rewrite Hp; left).
      assert (x ∈ y :: l2) as Hxin by (rewrite <- Hp; left).
      apply elem_of_cons in Hyin as [->|Hyin]; [done|].
      apply elem_of_cons in Hxin as [->|Hxin]; [done|].
      apply Hanti; [left|by right|by apply Hx|by apply Hy]. }
    f_equal. apply IH; [|done|done|by apply Permutation_cons_inv in Hp].
    intros a b Ha Hb. apply Hanti; by right.
Qed.

Variable localeCompare : string -> string -> Z.
Hypothesis localeCompare_antisym :
  forall a b, Z.sgn (localeCompare b a) = (- Z.sgn (localeCompare a b))%Z.
Hypothesis localeCompare_trans :
  forall a b d, (localeCompare a b <= 0)%Z -> (localeCompare b d <= 0)%Z ->
                (localeCompare a d <= 0)%Z.

Lemma sortedItems_elements (est : Estimate.t) (f : SortField) (d : SortDirection)
    (σ : Store) :
  elements_at (snd (sortedItems localeCompare (Some est) f d σ))
              (fst (sortedItems localeCompare (Some est) f d σ)) =
  Array_sort (comparefn localeCompare f d) (elements_at σ (Estimate.items est)).
Proof.
  unfold sortedItems, alloc. cbn [fst snd].
  unfold elements_at at 1 2. by rewrite !lookup_insert_eq.
Qed.

Lemma Array_sort_in_order (f : SortField) (d : SortDirection) (l : list EstimateItem.t) :
  StronglySorted (in_order localeCompare f d) (Array_sort (comparefn localeCompare f d) l).
Proof.
  eapply StronglySorted_weaken.
  - intros a b. apply comparefn_in_order.
  - apply Array_sort_strongly_sorted.
    + by apply comparefn_total.
    + by apply comparefn_trans.
Qed.

(** X15.  An array that is already in the order asked for is shown as it is,
    ties included; so sorting what [sortedItems] returned, by the same key and
    direction, changes nothing. *)
Theorem sortedItems_keeps_a_sorted_array (est : Estimate.t) (f : SortField)
    (d : SortDirection) (σ : Store) :
  let shown := elements_at (snd (sortedItems localeCompare (Some est) f d σ))
                           (fst (sortedItems localeCompare (Some est) f d σ)) in
  (Sorted (in_order localeCompare f d) (elements_at σ (Estimate.items est)) ->
   shown = elements_at σ (Estimate.items est)) /\
  Array_sort (comparefn localeCompare f d) shown = shown.
Proof.
  cbv zeta. rewrite sortedItems_elements. split.
  - intros Hs. apply Array_sort_of_sorted.
    induction Hs as [|x l Hs IH Hhd]; constructor; [done|].
    destruct Hhd; constructor. by apply comparefn_in_order.
  - apply Array_sort_of_sorted, StronglySorted_Sorted.
    eapply StronglySorted_weaken; [|apply Array_sort_in_order].
    intros a b. apply comparefn_in_order.
Qed.

(** X16.  When no two different items of the estimate tie on the sort key, the
    descending order is the ascending order reversed: the click that flips the
    direction turns the table upside down. *)
Theorem descending_reverses_ascending (est : Estimate.t) (f : SortField) (σ : Store) :
  (forall a b, a ∈ elements_at σ (Estimate.items est) ->
               b ∈ elements_at σ (Estimate.items est) ->
               key_le localeCompare f a b -> key_le localeCompare f b a -> a = b) ->
  elements_at (snd (sortedItems localeCompare (Some est) f desc σ))
              (fst (sortedItems localeCompare (Some est) f desc σ)) =
  rev (elements_at (snd (sortedItems localeCompare (Some est) f asc σ))
                   (fst (sortedItems localeCompare (Some est) f asc σ))).
Proof.
  intros Hties. rewrite !sortedItems_elements.
  set (l := elements_at σ (Estimate.items est)) in *.
  apply (StronglySorted_unique_on (in_order localeCompare f desc)).
  - intros a b Ha Hb Hab Hba.
    rewrite Array_sort_perm in Ha, Hb. symmetry. by apply Hties.
  - apply Array_sort_in_order.
  - apply (StronglySorted_rev (in_order localeCompare f asc)), Array_sort_in_order.
  - rewrite Array_sort_perm. rewrite <- Permutation_rev. by rewrite Array_sort_perm.
Qed.

End OrderFacts.

Section OrderExamples.
Import Js Client Results Examples.

Lemma sortedItems_keeps_a_sorted_array_witness :
  let σ : Store :=
    {[1%positive := [item "Delineator" 36 (27000 # 1) (75 # 100);
                     item "Sign Board" 4 (50000 # 1) (80 # 100)]]} in
  elements_at (snd (sortedItems codepoint_compare (Some abc123) by_confidence asc σ))
              (fst (sortedItems codepoint_compare (Some abc123) by_confidence asc σ)) =
  elements_at σ (Estimate.items abc123).
Proof.
  intros σ.
  apply (proj1 (sortedItems_keeps_a_sorted_array codepoint_compare
                  codepoint_compare_antisym codepoint_compare_trans
                  abc123 by_confidence asc σ)).
  repeat constructor. by vm_compute.
Defined.

Lemma descending_reverses_ascending_witness :
  elements_at (snd (sortedItems codepoint_compare (Some abc123) by_quantity desc store_abc123))
              (fst (sortedItems codepoint_compare (Some abc123) by_quantity desc store_abc123)) =
  rev (elements_at (snd (sortedItems codepoint_compare (Some abc123) by_quantity asc store_abc123))
                   (fst (sortedItems codepoint_compare (Some abc123) by_quantity asc store_abc123))).
Proof.
  apply (descending_reverses_ascending codepoint_compare
           codepoint_compare_antisym codepoint_compare_trans).
  intros a b Ha Hb.
  change (elements_at store_abc123 (Estimate.items abc123)) with five_items in Ha, Hb.
  unfold five_items in Ha, Hb.
  repeat (apply elem_of_cons in Ha as [->|Ha]);
    try (by apply elem_of_nil in Ha);
    repeat (apply elem_of_cons in Hb as [->|Hb]);
    try (by apply elem_of_nil in Hb);
    try reflexivity;
    unfold key_le, Qle; simpl; lia.
Defined.

(** With a tie it is not: by cost, the two items at 50000 come in the order of
    the estimate in both directions. *)
Example descending_with_ties :
  Array_sort (comparefn codepoint_compare by_cost desc) five_items <>
  rev (Array_sort (comparefn codepoint_compare by_cost asc) five_items).
Proof. by vm_compute. Qed.

End OrderExamples.

(** ** The confidence badge on every double *)
Section BadgeFacts.
Import Binary64.
Local Open Scope Z_scope.
Local Set Warnings "-inexact-float".

(** A product with a negative factor is below every positive threshold. *)
Lemma round_negative_below (t : positive) (et mx ex : Z) (lx : location) :
  SFleb (S754_finite false t et) (binary_round_aux prec emax true mx ex lx) = false.
Proof.
  unfold binary_round_aux.
  destruct (shr_fexp prec emax mx ex lx) as [mrs1 e1].
  destruct (shr_fexp prec emax _ e1 loc_Exact) as [mrs2 e2].
  destruct (shr_m mrs2); [done| |done]. by destruct (e2 <=? emax - prec).
Qed.

(** From one on, the product is at least 100, or overflows to infinity. *)
Lemma round_from_100 (m t : positive) (e : Z) :
  4503599627370496 <= Z.pos m < 9007199254740992 -> -52 <= e ->
  Z.pos t <= 7036874417766400 ->
  SFleb (S754_finite false t (-46))
        (binary_round_aux prec emax false (Z.pos (m * 7036874417766400)) (e + -46)
                          loc_Exact) = true.
Proof.
  intros Hm He Ht.
  set (M := (m * 7036874417766400)%positive).
  assert (Z.pos M = Z.pos m * 7036874417766400) as HM by (unfold M; lia).
  assert (Z.pos (digits2_pos m) = 53) as Hdm.
  { apply digits2_pos_unique.
    change (2 ^ (53 - 1)) with 4503599627370496.
    change (2 ^ 53) with 9007199254740992. lia. }
  pose proof (digits_times_100 m) as HD. fold M in HD. rewrite Hdm in HD.
  pose proof (digits2_pos_bounds M) as [HMlo _].
  set (D := Z.pos (digits2_pos M)) in *.
  assert (fexp prec emax (D + (e + -46)) = D + e - 99) as Hfe
    by (rewrite fexp_eq; lia).
  destruct (shr_fexp_shifts M (e + -46)) as (mrs & Hshr & Hmrs);
    [fold D; rewrite Hfe; lia|].
  pose proof (shifted_quotient_bound M (e + -46) mrs) as Hq. cbv zeta in Hq.
  fold D in Hshr, Hmrs, Hq. rewrite Hfe in Hshr, Hmrs, Hq.
  specialize (Hq ltac:(lia) Hmrs).
  replace (D + e - 99 - (e + -46)) with (D - 53) in Hmrs by lia.
  assert (4503599627370496 <= shr_m mrs /\
          (D = 105 -> 7036874417766400 <= shr_m mrs)) as [Hqlo Hq100].
  { destruct Hmrs as (rem & Hrem & _ & Hsplit & _).
    assert (D = 105 \/ D = 106) as [HD5|HD6] by lia.
    - rewrite HD5 in *. change (2 ^ (105 - 53)) with 4503599627370496 in *.
      change (2 ^ (105 - 1)) with 20282409603651670423947251286016 in *. lia.
    - rewrite HD6 in *. change (2 ^ (106 - 53)) with 9007199254740992 in *.
      change (2 ^ (106 - 1)) with 40564819207303340847894502572032 in *. lia. }
  pose proof (round_nearest_even_bounds mrs) as Hrne.
  unfold binary_round_aux. rewrite Hshr.
  set (fe := D + e - 99) in *.
  set (m1 := round_nearest_even (shr_m mrs) (loc_of_shr_record mrs)) in *.
  destruct m1 as [|p1|p1] eqn:Hm1; [lia| |lia].
  destruct (Z_lt_le_dec (Z.pos p1) 9007199254740992) as [Hlt|Hge].
  - assert (Z.pos (digits2_pos p1) = 53) as Hd1.
    { apply digits2_pos_unique.
      change (2 ^ (53 - 1)) with 4503599627370496.
      change (2 ^ 53) with 9007199254740992. lia. }
    rewrite shr_fexp_keeps by (cbn [Zdigits2]; rewrite Hd1, fexp_eq; lia).
    cbn [shr_m]. destruct (fe <=? emax - prec); [|done].
    rewrite SFleb_finite.
    destruct (Z.ltb_spec (-46) fe); [done|].
    destruct (Z.eqb_spec (-46) fe); [|lia]. cbn [orb andb].
    apply Z.leb_le. assert (D = 105) as HD5 by lia. specialize (Hq100 HD5). lia.
  - assert (p1 = 9007199254740992%positive) as -> by lia.
    unfold shr_fexp. change (Zdigits2 9007199254740992) with 54.
    cbn [shr_record_of_loc]. rewrite fexp_eq.
    replace (Z.max (54 + fe - 53) (-1074) - fe) with 1 by lia.
    cbn [shr SpecFloat.iter_pos shr_1 shr_m].
    replace (Z.max (54 + fe - 53) (-1074)) with (fe + 1) by lia.
    destruct (fe + 1 <=? emax - prec); [|done].
    rewrite SFleb_finite.
    destruct (Z.ltb_spec (-46) (fe + 1)); [done|lia].
Qed.

(** The badge of every valid double, from its sign, mantissa and exponent. *)
Lemma badge_of_every_double (x : spec_float) :
  SpecFloat.valid_binary prec emax x = true ->
  badge_of_percent (times_100 x) = badge_of_confidence x.
Proof.
  intros Hvalid.
  destruct x as [s|s| |s m e]; try (by destruct s); [done|].
  destruct s.
  - unfold badge_of_percent, badge_of_confidence, times_100. cbn [SFmul xorb].
    by rewrite !round_negative_below.
  - pose proof (bounded_canonical m e Hvalid) as (Hemin & Hd53 & Hcanon).
    pose proof (digits2_pos_bounds m) as [Hmlo Hmhi].
    destruct (Z.lt_trichotomy e (-53)) as [Hlow|[->|Hhigh]].
    + by apply badge_below_half.
    + apply badge_in_upper_half.
      destruct Hcanon as [Hd|]; [|lia]. rewrite Hd in Hmlo, Hmhi.
      change (2 ^ (53 - 1)) with 4503599627370496 in Hmlo.
      change (2 ^ 53) with 9007199254740992 in Hmhi. lia.
    + destruct Hcanon as [Hd|]; [|lia]. rewrite Hd in Hmlo, Hmhi.
      change (2 ^ (53 - 1)) with 4503599627370496 in Hmlo.
      change (2 ^ 53) with 9007199254740992 in Hmhi.
      unfold badge_of_percent, badge_of_confidence, times_100. cbn [SFmul xorb].
      rewrite !(round_from_100 m) by lia.
      rewrite !SFleb_finite.
      by destruct (Z.ltb_spec (-53) e); [|lia].
Qed.

(** Comparison with a positive threshold is passed on upwards. *)
Lemma SFleb_threshold_trans (t : positive) (et : Z) (x y : spec_float) :
  SFleb (S754_finite false t et) x = true -> SFleb x y = true ->
  SFleb (S754_finite false t et) y = true.
Proof.
  intros Hx Hxy.
  destruct x as [sx|sx| |sx mx ex]; try done; destruct sx; try done;
    destruct y as [sy|sy| |sy my ey]; try done; destruct sy; try done.
  rewrite SFleb_finite in *.
  apply orb_true_iff in Hx, Hxy. apply orb_true_iff.
  rewrite !andb_true_iff, !Z.ltb_lt, !Z.eqb_eq, !Z.leb_le in *. lia.
Qed.

(** X17.  The badge of every double, in or out of the range of a confidence:
    High Confidence from the double nearest to 0.95 on, Medium from
    0.7999999999999999 on and below that, Review Needed otherwise.  So a
    confidence above 1, infinity included, is High Confidence, and a negative
    one or one that is not a number is Review Needed. *)
Theorem getConfidenceBadge_on_every_double (confidence : float) :
  Results.getConfidenceBadge confidence =
    (if (0x1.e666666666666p-1 <=? confidence)%float then Results.HighConfidence
     else if (0x1.9999999999999p-1 <=? confidence)%float then Results.Medium
     else Results.ReviewNeeded) /\
  ((1 <=? confidence)%float = true ->
     Results.getConfidenceBadge confidence = Results.HighConfidence) /\
  ((0 <=? confidence)%float = false ->
     Results.getConfidenceBadge confidence = Results.ReviewNeeded).
Proof.
  assert (Results.getConfidenceBadge confidence =
          badge_of_confidence (Prim2SF confidence)) as Hb.
  { rewrite getConfidenceBadge_spec. apply badge_of_every_double, Prim2SF_valid. }
  rewrite Hb. split; [by rewrite !leb_spec|].
  rewrite !leb_spec. unfold badge_of_confidence. split.
  - intros H1.
    rewrite (SFleb_threshold_trans 8556839292003942 (-53) (Prim2SF 1) _ eq_refl H1).
    done.
  - intros H0.
    destruct (Prim2SF confidence) as [s|s| |s m e]; try done; by destruct s.
Qed.

Lemma getConfidenceBadge_on_every_double_witness :
  Results.getConfidenceBadge 1.5 = Results.HighConfidence /\
  Results.getConfidenceBadge (-0.5) = Results.ReviewNeeded /\
  Results.getConfidenceBadge nan = Results.ReviewNeeded.
Proof.
  split; [|split].
  - exact (proj1 (proj2 (getConfidenceBadge_on_every_double 1.5)) eq_refl).
  - exact (proj2 (proj2 (getConfidenceBadge_on_every_double (-0.5))) eq_refl).
  - exact (proj2 (proj2 (getConfidenceBadge_on_every_double nan)) eq_refl).
Defined.

(** X18.  The badge never gets worse as the confidence grows: of two doubles
    in order, when the lower is High Confidence so is the higher, and when the
    lower is Medium the higher is Medium or High Confidence. *)
Theorem getConfidenceBadge_is_monotone (c1 c2 : float) :
  (c1 <=? c2)%float = true ->
  (Results.getConfidenceBadge c1 = Results.HighConfidence ->
   Results.getConfidenceBadge c2 = Results.HighConfidence) /\
  (Results.getConfidenceBadge c1 = Results.Medium ->
   Results.getConfidenceBadge c2 <> Results.ReviewNeeded).
Proof.
  intros Hle. rewrite leb_spec in Hle.
  assert (forall c, Results.getConfidenceBadge c = badge_of_confidence (Prim2SF c)) as Hb.
  { intros c. rewrite getConfidenceBadge_spec.
    apply badge_of_every_double, Prim2SF_valid. }
  rewrite !Hb. unfold badge_of_confidence.
  pose proof (fun t et => SFleb_threshold_trans t et (Prim2SF c1) (Prim2SF c2)) as Htr.
  destruct (SFleb (S754_finite false 8556839292003942 (-53)) (Prim2SF c1)) eqn:H95.
  - rewrite (Htr _ _ H95 Hle). done.
  - destruct (SFleb (S754_finite false 7205759403792793 (-53)) (Prim2SF c1)) eqn:H80.
    + rewrite (Htr _ _ H80 Hle). split; [done|].
      intros _.
      destruct (SFleb (S754_finite false 8556839292003942 (-53)) (Prim2SF c2));
        intros ?; discriminate.
    + done.
Qed.

Lemma getConfidenceBadge_is_monotone_witness :
  Results.getConfidenceBadge 0.97 = Results.HighConfidence.
Proof.
  exact (proj1 (getConfidenceBadge_is_monotone 0.95 0.97 eq_refl) eq_refl).
Defined.

End BadgeFacts.

(** ** Routes and paths *)
Section RouteFacts.
Import Js Client Upload Examples.
Local Open Scope Z_scope.

Lemma append_assoc (a b c : string) : (a +:+ b) +:+ c = a +:+ (b +:+ c).
Proof.
  induction a as [|x a IH]; [reflexivity|].
  change (String x ((a +:+ b) +:+ c) = String x (a +:+ (b +:+ c))). by rewrite IH.
Qed.

(** X19.  The client puts identifiers and names into the path as they are,
    without escaping.  So an identifier that ends in [/summary] makes
    [getEstimate] send the request of [getEstimateSummary], one that ends in
    [/export] makes it address the export route, and the materials named
    "categories" and "statistics" cannot be looked up by name: [getMaterialPrice]
    sends the request that lists the categories, or the statistics. *)
Theorem paths_are_not_escaped (id : string) :
  (forall r r', fst (getEstimate (id +:+ "/summary") r) = fst (getEstimateSummary id r')) /\
  (forall format r r',
     url <$> fst (getEstimate (id +:+ "/export") r) =
     url <$> fst (exportEstimate id format r')) /\
  (forall r r', fst (getMaterialPrice "categories" r) = fst (getMaterialCategories r')) /\
  (forall r r', fst (getMaterialPrice "statistics" r) = fst (getPricingStatistics r')) /\
  (forall name r, url <$> fst (getMaterialPrice name r) = ["/api/pricing/" +:+ name]).
Proof.
  unfold getEstimate, getEstimateSummary, exportEstimate, getMaterialPrice,
    getMaterialCategories, getPricingStatistics.
  split_and!; intros; rewrite !awaiting_settles; cbn [fst fmap list_fmap url apiClient_get];
    rewrite <- ?append_assoc; done.
Qed.

(** X20.  A click on "Upload & Process" always starts an upload: the button
    is only there while a file is chosen and nothing is uploading, so the
    'Please select a file first' branch of [handleUpload] is not taken.  The
    page goes to uploading at 0% with the error cleared, and the upload of the
    chosen file joins the uploads in flight. *)
Theorem upload_click_starts_an_upload (w w' : World) :
  step w (User ClickUpload) = Some w' ->
  exists f,
    file (state w) = Some f /\ uploading (state w) = false /\
    tasks w' = tasks w ++ [mkTask f true false] /\
    state w' = setResult None (setError None (setProgress 0 (setUploading true (state w)))) /\
    effects w' = effects w ++
      Toast toast_loading "Uploading PDF..." ::
      match uploadPDF_begin f with Returns req => [Transfer req] | Throws _ => [] end.
Proof.
  intros Hstep. destruct w as [[f u p r err drag] ts fx]. simpl in Hstep.
  unfold render in Hstep. simpl in Hstep.
  destruct r; [done|]. destruct f as [f|]; [|done]. simpl in Hstep.
  destruct u; [done|]. simpl in Hstep. injection Hstep as <-.
  exists f. done.
Qed.

Lemma upload_click_starts_an_upload_witness :
  exists f, file (setFile (Some report_pdf) initial) = Some f /\
            uploadPDF_begin f = Returns (apiClient_post_form "/api/upload" report_pdf).
Proof.
  destruct (upload_click_starts_an_upload
              (mkWorld (setFile (Some report_pdf) initial) [] []) _ eq_refl)
    as (f & Hf & _).
  exists f. split; [exact Hf|]. simpl in Hf. by injection Hf as <-.
Defined.

Lemma navigations_app (fx fx' : list Effect) :
  navigations (fx ++ fx') = navigations fx ++ navigations fx'.
Proof. apply omap_app. Qed.

Lemma responses_app (t t' : list Event) : responses (t ++ t') = responses t ++ responses t'.
Proof. apply omap_app. Qed.

(** What is displayed and what was navigated to comes from the responses seen
    so far. *)
Lemma navigation_step (w w' : World) (e : Event) (seen : list EstimateResponse.t) :
  (forall r, result (state w) = Some r -> r ∈ seen) ->
  (forall p, p ∈ navigations (effects w) ->
     exists r, r ∈ seen /\ p = "/estimate/" +:+ EstimateResponse.estimate_id r) ->
  step w e = Some w' ->
  (forall r, result (state w') = Some r -> r ∈ seen ++ responses [e]) /\
  (forall p, p ∈ navigations (effects w') ->
     exists r, r ∈ seen ++ responses [e] /\
               p = "/estimate/" +:+ EstimateResponse.estimate_id r).
Proof.
  intros Hres Hnav Hstep.
  assert (forall fx,
            navigations fx = [] ->
            forall p, p ∈ navigations (effects w ++ fx) ->
               exists r, r ∈ seen ++ responses [e] /\
                         p = "/estimate/" +:+ EstimateResponse.estimate_id r) as Hquiet.
  { intros fx Hfx p. rewrite navigations_app, Hfx, app_nil_r. intros Hp.
    destruct (Hnav p Hp) as (r & Hr & ->). exists r. split; [|done].
    apply elem_of_app. by left. }
  assert (forall r, result (state w) = Some r -> r ∈ seen ++ responses [e]) as Hres'.
  { intros r Hr. apply elem_of_app. left. by apply Hres. }
  destruct w as [s ts fx]. cbn [state effects] in *.
  destruct e as [a|i ev|i reply]; simpl in Hstep.
  - destruct (offered _ a); [|done]. injection Hstep as <-.
    destruct a as [files|files|ty| | |]; cbn [act state effects tasks].
    + unfold handleFileSelect, choose. destruct files as [sel|]; [|split; [done|by apply Hquiet]].
      destruct (validateFile sel); cbn [state effects]; (split; [done|by apply Hquiet]).
    + unfold handleDrop, choose. destruct files as [sel|]; [|split; [done|by apply Hquiet]].
      destruct (validateFile sel); cbn [state effects]; (split; [done|by apply Hquiet]).
    + destruct ty; cbn [handleDrag state effects]; (split; [done|by apply Hquiet]).
    + unfold handleUpload_start. cbn [state].
      destruct (file s) as [f|]; cbn [state effects]; (split; [done|]); apply Hquiet; [|done].
      by destruct (uploadPDF_begin f).
    + cbn [handleReset state effects]. split; [done|by apply Hquiet].
    + unfold handleViewDetails. cbn [state].
      destruct (result s) as [r|] eqn:Hr; cbn [state effects];
        [|split; [by rewrite Hr|by apply Hquiet]].
      destruct (truthy (EstimateResponse.estimate_id r)); cbn [state effects];
        [|split; [by rewrite Hr|by apply Hquiet]].
      split; [by rewrite Hr|]. intros p. rewrite navigations_app.
      rewrite elem_of_app. intros [Hp|Hp].
      * destruct (Hnav p Hp) as (r' & Hr' & ->). exists r'. split; [|done].
        apply elem_of_app. by left.
      * apply list_elem_of_singleton in Hp as ->.
        exists r. split; [|done]. apply elem_of_app. left. by apply Hres.
  - destruct (ts !! i) as [t|]; [|done]. destruct (in_flight t); [|done].
    destruct (uploadPDF_begin (task_file t)); [|done].
    destruct (progress_event ev s) as [s' fx'] eqn:Hp. injection Hstep as <-.
    pose proof (progress_event_state ev s) as Hs'. rewrite Hp in Hs'.
    cbn [fst state effects] in *. split.
    + subst s'. by destruct (onUploadProgress ev true).
    + apply Hquiet.
      unfold progress_event, handleUpload_onProgress in Hp.
      destruct (onUploadProgress ev true) as [q|]; injection Hp as <- <-; [|done].
      by destruct (q =? 100).
  - destruct (ts !! i) as [t|]; [|done]. destruct (in_flight t); [|done].
    destruct (handleUpload_settled _ s) as [s' fx'] eqn:Hset. injection Hstep as <-.
    cbn [state effects]. unfold handleUpload_settled, uploadPDF in Hset.
    destruct (uploadPDF_begin (task_file t)) as [req|err].
    + rewrite awaiting_settles in Hset. cbn [snd] in Hset.
      destruct reply as [response|err]; injection Hset as <- <-.
      * split; [|by apply Hquiet]. simpl. intros r [= <-].
        apply elem_of_app. right. by left.
      * split; [done|by apply Hquiet].
    + simpl in Hset. injection Hset as <- <-. split; [done|by apply Hquiet].
Qed.

(** X21.  The page navigates only to estimates the server answered with: along
    every trace, each route it navigated to is [/estimate/<id>] for the
    identifier of a response with which an upload of that trace succeeded, and
    the result it displays is such a response. *)
Theorem navigation_follows_a_response (trace : list Event) (w : World) :
  run world0 trace = Some w ->
  (forall r, result (state w) = Some r -> r ∈ responses trace) /\
  (forall p, p ∈ navigations (effects w) ->
     exists r, r ∈ responses trace /\
               p = "/estimate/" +:+ EstimateResponse.estimate_id r).
Proof.
  assert (forall w0 seen,
    (forall r, result (state w0) = Some r -> r ∈ seen) ->
    (forall p, p ∈ navigations (effects w0) ->
       exists r, r ∈ seen /\ p = "/estimate/" +:+ EstimateResponse.estimate_id r) ->
    run w0 trace = Some w ->
    (forall r, result (state w) = Some r -> r ∈ seen ++ responses trace) /\
    (forall p, p ∈ navigations (effects w) ->
       exists r, r ∈ seen ++ responses trace /\
                 p = "/estimate/" +:+ EstimateResponse.estimate_id r)) as Hrun.
  { induction trace as [|e trace IH]; intros w0 seen H1 H2 Hr; simpl in Hr.
    - injection Hr as <-. by rewrite app_nil_r.
    - destruct (step w0 e) as [w1|] eqn:Hstep; [|done].
      destruct (navigation_step w0 w1 e seen H1 H2 Hstep) as [H1' H2'].
      change (e :: trace) with ([e] ++ trace).
      rewrite responses_app, app_assoc. by apply (IH w1). }
  intros Hr. apply (Hrun world0 []); [done| |done].
  intros p Hp. by apply elem_of_nil in Hp.
Qed.

Lemma navigation_follows_a_response_witness :
  exists w, run world0 (scenario ++ [User ClickViewDetails]) = Some w /\
    navigations (effects w) = ["/estimate/abc123"] /\
    exists r, r ∈ responses (scenario ++ [User ClickViewDetails]) /\
              "/estimate/abc123" = "/estimate/" +:+ EstimateResponse.estimate_id r.
Proof.
  destruct (run world0 (scenario ++ [User ClickViewDetails])) as [w|] eqn:Hw;
    [|by vm_compute in Hw].
  exists w. split; [reflexivity|].
  pose proof (proj2 (navigation_follows_a_response _ w Hw) "/estimate/abc123") as H.
  vm_compute in Hw. injection Hw as <-.
  split; [reflexivity|]. apply H. simpl. by left.
Defined.

End RouteFacts.
